(** * Portfolio page scripts: [script.js] and its sibling variant

    A shallow embedding of the client-side scripts of the portfolio page
    (src/script.js and the near-duplicate src/unnamed/part_000) together with
    the properties of the reveal-on-scroll engine, the start-up sequence, the
    colour helper and the mobile menu, and further on of the event handlers,
    the theme controls of both files and the repository list of part_000.

    Modelling conventions
    - A JavaScript Number is an IEEE 754 binary64 value: Rocq's [spec_float]
      with the operations of [SpecFloat] at precision 53 and maximal exponent
      1024.  Literals are read by Rocq's own binary64 parser.
    - A JavaScript string is a Rocq [string] that holds the UTF-8 bytes of
      the text. The scripts compare and match ASCII characters; outside
      ASCII they only meet the white space that [trim] strips.
    - A DOM element is a reference ([Node]) into the [heap]; the class
      list is a [DOMTokenList] (ordered, duplicate free), attributes are a
      finite map.
    - Script code lives in the monad [JS]: a state transformer over [World]
      that completes normally or throws; mutations made before a throw stay.
    - Every host call of the set-up routines and of the engine that has an
      effect is appended to the trace [calls]. Writes to the local storage
      show in the storage; what a handler does to its event or to the window
      is kept in a trace of its own ([ui]). *)

From Stdlib Require Import ZArith Lia String Ascii List Bool QArith.
From Stdlib Require Import Floats Uint63 DecimalString.
From stdpp Require Import base functions gmap list strings.

Local Open Scope Z_scope.
Local Open Scope string_scope.
Local Open Scope list_scope.
Local Set Warnings "-inexact-float,-clear-no-such-hyp".

(* ================================================================== *)
(** * JavaScript numbers *)
(* ================================================================== *)

Module Number.

(** The Number type: binary64. *)
Definition t : Type := spec_float.

(** [x * y] on Numbers. *)
Definition mul (x y : t) : t := SFmul prec emax x y.

(** The Number holding an array index (exact below 2^53). *)
Definition of_nat (n : nat) : t := binary_normalize prec emax (Z.of_nat n) 0 false.

(** [x < y] and [x === y] on Numbers. *)
Definition ltb (x y : t) : bool := SFltb x y.
Definition eqb (x y : t) : bool := SFeqb x y.

(** The same bits (sign, mantissa and exponent). *)
Definition same (x y : t) : bool :=
  match x, y with
  | S754_zero a, S754_zero b => Bool.eqb a b
  | S754_infinity a, S754_infinity b => Bool.eqb a b
  | S754_nan, S754_nan => true
  | S754_finite a m e, S754_finite b m' e' =>
      Bool.eqb a b && Pos.eqb m m' && Z.eqb e e'
  | _, _ => false
  end.

(** [index * step] as the processor computes it, through Rocq's primitive
    floats; used to check the model on sample indices. *)
Definition hardware_mul_index (index : nat) (step : float) : t :=
  Prim2SF (PrimFloat.mul (PrimFloat.of_uint63 (Uint63.of_Z (Z.of_nat index))) step).

(** The rational a finite Number stands for, used to compare the Numbers
    the scripts compute with the reals the specification speaks of. *)
Definition to_Q (x : t) : option Q :=
  match x with
  | S754_zero _ => Some 0%Q
  | S754_finite s m e =>
      let v := (inject_Z (Z.pos m) * Qpower 2 e)%Q in
      Some (if s then Qopp v else v)
  | _ => None
  end.

(** The literals that occur in the scripts. *)
Definition lit_0 : t := Eval vm_compute in Prim2SF 0%float.
Definition lit_0_1 : t := Eval vm_compute in Prim2SF 0.1%float.
Definition lit_0_2 : t := Eval vm_compute in Prim2SF 0.2%float.
Definition lit_0_5 : t := Eval vm_compute in Prim2SF 0.5%float.
Definition lit_1_5 : t := Eval vm_compute in Prim2SF 1.5%float.
Definition lit_5 : t := Eval vm_compute in Prim2SF 5%float.

(** A positive normal Number [m * 2^e] whose exponent is far enough from
    the subnormal range and from overflow for index products. *)
Definition normal_step (x : t) : Prop :=
  match x with
  | S754_finite false m e => 2 ^ 52 <= Z.pos m < 2 ^ 53 /\ -1074 <= e <= 917
  | _ => False
  end.

End Number.

(* ================================================================== *)
(** * Values, exceptions and completions *)
(* ================================================================== *)

(** The exceptions the modelled host calls can raise. *)
Inductive Exn : Type :=
| SyntaxError
| InvalidCharacterError
| ReferenceError
| TypeError
| SecurityError
| QuotaExceededError.

(** How a piece of script ends: with a value, or by throwing. *)
Inductive Completion (A : Type) : Type :=
| Normal (a : A)
| Throw (e : Exn).

Arguments Normal {A} a.
Arguments Throw {A} e.

(** The values a caller can hand to a helper. *)
Inductive JsValue : Type :=
| JsUndefined
| JsNull
| JsBoolean (b : bool)
| JsNumber (x : Number.t)
| JsString (s : string)
| JsObject.

(** [ToBoolean]: what [!v] negates. *)
Definition ToBoolean (v : JsValue) : bool :=
  match v with
  | JsUndefined | JsNull => false
  | JsBoolean b => b
  | JsNumber (S754_zero _) | JsNumber S754_nan => false
  | JsNumber _ => true
  | JsString s => negb (String.eqb s "")
  | JsObject => true
  end.

(* ================================================================== *)
(** * DOM token lists *)
(* ================================================================== *)

Module TokenList.

(** ASCII whitespace of the DOM standard: TAB, LF, FF, CR and SPACE. *)
Definition is_ascii_whitespace (c : ascii) : bool :=
  (c =? "009")%char || (c =? "010")%char || (c =? "012")%char ||
  (c =? "013")%char || (c =? " ")%char.

Fixpoint has_whitespace (s : string) : bool :=
  match s with
  | EmptyString => false
  | String c s' => is_ascii_whitespace c || has_whitespace s'
  end.

(** The token check of [add], [remove] and [toggle]: the empty token is a
    SyntaxError, a token with whitespace an InvalidCharacterError. *)
Definition validate (token : string) : Completion unit :=
  if String.eqb token "" then Throw SyntaxError
  else if has_whitespace token then Throw InvalidCharacterError
  else Normal tt.

Definition contains (token : string) (l : list string) : bool :=
  bool_decide (token ∈ l).

(** Appending keeps the set duplicate free. *)
Definition add (token : string) (l : list string) : list string :=
  if contains token l then l else l ++ [token].

Definition remove (token : string) (l : list string) : list string :=
  filter (λ t, t ≠ token) l.

End TokenList.

(* ================================================================== *)
(** * The document, the host and the world *)
(* ================================================================== *)

(** An element reference. *)
Definition Node : Type := nat.

(** The part of an element the scripts read or write. [animationDelay] is
    the number [x] of the text [`${x}s`] assigned to [style.animationDelay];
    [dataset.animation] is the attribute ["data-animation"]. *)
Record Element : Type := mkElement {
  classList : list string;
  attributes : gmap string string;
  animationDelay : option Number.t
}.

(** The global [DOM] cache object of the scripts. *)
Record DOMCache : Type := mkDOMCache {
  body : option Node;
  themeToggle : option Node;
  sunIcon : option Node;
  moonIcon : option Node;
  navToggle : option Node;
  navLinks : option Node;
  customCursor : option Node;
  sections : option (list Node)
}.

(** What the browser answers. Queries return elements in document order.
    The scripts never change the tree, and the classes they add are given
    to elements a query already matches, so the answer of a query does not
    depend on the mutable part of the world (as long as no [data-animation]
    tag names one of the container classes of the selector). *)
Record Host : Type := mkHost {
  document_body : option Node;
  getElementById : string -> option Node;
  querySelector : string -> option Node;
  querySelectorAll : string -> list Node;
  element_querySelectorAll : Node -> string -> list Node;
  getPropertyValue : (Node -> Element) -> string -> string;
  has_IntersectionObserver : bool;
  has_MutationObserver : bool
}.

Inductive EventTarget : Type :=
| TDocument
| TElement (n : Node).

(** The event handlers the scripts register. *)
Inductive Handler : Type :=
| AnchorClick
| NavToggleClick
| CursorMouseMove
| CursorMouseEnter
| CursorMouseLeave
| ThemeToggleClick
| ContactFormSubmit.

(** Host calls with an effect, as recorded in the trace. *)
Inductive Call : Type :=
| ClassListAdd (el : Node) (token : string)
| ClassListRemove (el : Node) (token : string)
| ClassListToggle (el : Node) (token : string)
| SetAttribute (el : Node) (name value : string)
| SetAnimationDelay (el : Node) (seconds : Number.t)
| SetProperty (name value : string)
| NewIntersectionObserver
| Observe (target : Node)
| Unobserve (target : Node)
| NewMutationObserver
| MutationObserve (target : Node)
| AddEventListener (target : EventTarget) (type : string) (h : Handler)
| Console (level message : string).

(** One record of an intersection change, as the observer reports it. The
    scripts read no other field: a report qualifies for the reveal when its
    [isIntersecting] is true. *)
Record Entry : Type := mkEntry {
  target : Node;
  isIntersecting : bool
}.

(** The intersection observer of [setupScrollAnimations]: its callback is
    the closure of lines 176 to 193, identified by the stagger step it
    multiplies with, and its observation targets. The options (viewport
    root, threshold 0.1, no margin) only decide which reports the browser
    queues. *)
Record Observer : Type := mkObserver {
  stagger : Number.t;
  targets : gset Node
}.

(** The mutable state: the [DOM] cache, the element heap, the inline style
    of the root element, local storage ([None]: access is denied), the
    intersection observer ([None]: none was constructed) and the trace. *)
Record World : Type := mkWorld {
  DOM : DOMCache;
  heap : Node -> Element;
  rootStyle : gmap string string;
  localStorage : option (gmap string string);
  observer : option Observer;
  calls : list Call
}.

Definition with_DOM (d : DOMCache) (w : World) : World :=
  mkWorld d (heap w) (rootStyle w) (localStorage w) (observer w) (calls w).

Definition with_heap (f : (Node -> Element) -> (Node -> Element)) (w : World) : World :=
  mkWorld (DOM w) (f (heap w)) (rootStyle w) (localStorage w) (observer w) (calls w).

Definition with_rootStyle (f : gmap string string -> gmap string string) (w : World) : World :=
  mkWorld (DOM w) (heap w) (f (rootStyle w)) (localStorage w) (observer w) (calls w).

Definition with_observer (f : option Observer -> option Observer) (w : World) : World :=
  mkWorld (DOM w) (heap w) (rootStyle w) (localStorage w) (f (observer w)) (calls w).

Definition with_targets (f : gset Node -> gset Node) (o : Observer) : Observer :=
  mkObserver (stagger o) (f (targets o)).

Definition record (c : Call) (w : World) : World :=
  mkWorld (DOM w) (heap w) (rootStyle w) (localStorage w) (observer w) (calls w ++ [c]).

Definition with_classList (f : list string -> list string) (e : Element) : Element :=
  mkElement (f (classList e)) (attributes e) (animationDelay e).

Definition with_attribute (name value : string) (e : Element) : Element :=
  mkElement (classList e) (<[name := value]> (attributes e)) (animationDelay e).

Definition with_animationDelay (x : Number.t) (e : Element) : Element :=
  mkElement (classList e) (attributes e) (Some x).

(* ================================================================== *)
(** * The script monad *)
(* ================================================================== *)

Definition JS (A : Type) : Type := World -> Completion A * World.

#[export] Instance JS_ret : MRet JS := λ A a w, (Normal a, w).

#[export] Instance JS_bind : MBind JS := λ A B k m w,
  match m w with
  | (Normal a, w') => k a w'
  | (Throw e, w') => (Throw e, w')
  end.

Definition throw {A : Type} (e : Exn) : JS A := λ w, (Throw e, w).

(** [try { m } catch (error) { h error }] *)
Definition try_catch {A : Type} (m : JS A) (h : Exn -> JS A) : JS A := λ w,
  match m w with
  | (Normal a, w') => (Normal a, w')
  | (Throw e, w') => h e w'
  end.

(** [list.forEach(function (x, index) { ... })]: in order, stopping at the
    first throw. *)
Fixpoint forEach_from {A : Type} (f : A -> nat -> JS unit) (index : nat) (l : list A) : JS unit :=
  match l with
  | [] => mret tt
  | x :: l' => f x index;; forEach_from f (S index) l'
  end.

Definition forEach {A : Type} (f : A -> nat -> JS unit) (l : list A) : JS unit :=
  forEach_from f 0%nat l.

(** Property access on a possibly null reference. *)
Definition deref (o : option Node) : JS Node :=
  match o with
  | Some n => mret n
  | None => throw TypeError
  end.

(** [return;] *)
Definition skip : JS unit := mret tt.

Definition get_DOM : JS DOMCache := λ w, (Normal (DOM w), w).

Definition set_DOM (d : DOMCache) : JS unit := λ w, (Normal tt, with_DOM d w).

(** [console.log], [console.warn] and [console.error]: the trace keeps the
    level and the message text (the first argument). *)
Definition console (level message : string) : JS unit := λ w,
  (Normal tt, record (Console level message) w).

(** ** Element operations *)

Definition classList_contains (el : Node) (token : string) : JS bool := λ w,
  (Normal (TokenList.contains token (classList (heap w el))), w).

Definition classList_add (el : Node) (token : string) : JS unit := λ w,
  match TokenList.validate token with
  | Throw e => (Throw e, w)
  | Normal _ =>
      (Normal tt,
       record (ClassListAdd el token)
         (with_heap (alter (with_classList (TokenList.add token)) el) w))
  end.

Definition classList_remove (el : Node) (token : string) : JS unit := λ w,
  match TokenList.validate token with
  | Throw e => (Throw e, w)
  | Normal _ =>
      (Normal tt,
       record (ClassListRemove el token)
         (with_heap (alter (with_classList (TokenList.remove token)) el) w))
  end.

(** [toggle] answers whether the token is present afterwards. *)
Definition classList_toggle (el : Node) (token : string) : JS bool := λ w,
  match TokenList.validate token with
  | Throw e => (Throw e, w)
  | Normal _ =>
      let present := TokenList.contains token (classList (heap w el)) in
      (Normal (negb present),
       record (ClassListToggle el token)
         (with_heap
            (alter (with_classList
                      (if present then TokenList.remove token else TokenList.add token)) el) w))
  end.

Definition setAttribute (el : Node) (name value : string) : JS unit := λ w,
  (Normal tt,
   record (SetAttribute el name value)
     (with_heap (alter (with_attribute name value) el) w)).

(** [el.dataset.animation]: [None] stands for [undefined]. *)
Definition dataset_animation (el : Node) : JS (option string) := λ w,
  (Normal (attributes (heap w el) !! "data-animation"), w).

(** [el.style.animationDelay = `${x}s`] *)
Definition set_animationDelay (el : Node) (x : Number.t) : JS unit := λ w,
  (Normal tt,
   record (SetAnimationDelay el x)
     (with_heap (alter (with_animationDelay x) el) w)).

(** [document.documentElement.style.setProperty(name, value)] *)
Definition setProperty (name value : string) : JS unit := λ w,
  (Normal tt, record (SetProperty name value) (with_rootStyle (<[name := value]>) w)).

Definition addEventListener (t : EventTarget) (type : string) (h : Handler) : JS unit := λ w,
  (Normal tt, record (AddEventListener t type h) w).

(** ** The intersection observer *)

(** [new IntersectionObserver(callback, options)] for the callback with
    the given stagger step: a ReferenceError where the host has no such
    constructor. *)
Definition new_IntersectionObserver (H : Host) (step : Number.t) : JS unit := λ w,
  if has_IntersectionObserver H
  then (Normal tt,
        record NewIntersectionObserver (with_observer (λ _, Some (mkObserver step ∅)) w))
  else (Throw ReferenceError, w).

Definition observe (section : Node) : JS unit := λ w,
  (Normal tt,
   record (Observe section) (with_observer (fmap (with_targets (union {[section]}))) w)).

Definition unobserve (section : Node) : JS unit := λ w,
  (Normal tt,
   record (Unobserve section)
     (with_observer (fmap (with_targets (λ T, T ∖ {[section]}))) w)).

(** [new MutationObserver(callback)] and [observer.observe(target, options)]. *)
Definition new_MutationObserver (H : Host) : JS unit := λ w,
  if has_MutationObserver H
  then (Normal tt, record NewMutationObserver w)
  else (Throw ReferenceError, w).

Definition mutation_observe (n : Node) : JS unit := λ w,
  (Normal tt, record (MutationObserve n) w).

(** [localStorage.getItem(key)]: a SecurityError where storage is denied. *)
Definition localStorage_getItem (key : string) : JS (option string) := λ w,
  match localStorage w with
  | Some m => (Normal (m !! key), w)
  | None => (Throw SecurityError, w)
  end.

(** [if (ref) f(ref)] *)
Definition when_some (o : option Node) (f : Node -> JS unit) : JS unit :=
  match o with
  | Some n => f n
  | None => skip
  end.

(* ================================================================== *)
(** * The colour helper [hexToRgb] and [updateRgbaVars] *)
(* ================================================================== *)

(** The value of a character of the class [[a-f\d]] under the flag [i]. *)
Definition digit_value (c : ascii) : option N :=
  let n := N_of_ascii c in
  if ((48 <=? n) && (n <=? 57))%N then Some (n - 48)%N
  else if ((97 <=? n) && (n <=? 102))%N then Some (n - 87)%N
  else if ((65 <=? n) && (n <=? 70))%N then Some (n - 55)%N
  else None.

Definition is_hex_digit (c : ascii) : bool :=
  match digit_value c with
  | Some _ => true
  | None => false
  end.

(** [hex.includes('#')] *)
Fixpoint includes_char (c : ascii) (s : string) : bool :=
  match s with
  | EmptyString => false
  | String c' s' => (c' =? c)%char || includes_char c s'
  end.

(** [/^#?([a-f\d]{2})([a-f\d]{2})([a-f\d]{2})$/i.exec(hex)]: the three
    captured groups. A leading ['#'] is always consumed by [#?], since it
    cannot start the first group. *)
Definition exec_color (hex : string) : option (string * string * string) :=
  let rest := match hex with
              | String c r => if (c =? "#")%char then r else hex
              | EmptyString => hex
              end in
  match rest with
  | String a (String b (String c (String d (String e (String f EmptyString))))) =>
      if forallb is_hex_digit [a; b; c; d; e; f]
      then Some (String a (String b EmptyString),
                 String c (String d EmptyString),
                 String e (String f EmptyString))
      else None
  | _ => None
  end.

(** [parseInt(s, 16)] on a string without leading whitespace, sign or
    [0x] prefix (a captured group has none): the value of the longest
    prefix of hexadecimal digits, [None] (NaN) when it is empty. *)
Fixpoint parseInt16_from (acc : option N) (s : string) : option N :=
  match s with
  | EmptyString => acc
  | String c s' =>
      match digit_value c with
      | Some d => parseInt16_from (Some (16 * default 0 acc + d)%N) s'
      | None => acc
      end
  end.

Definition parseInt16 (s : string) : option N := parseInt16_from None s.

(** [`${n}`] for the result of [parseInt]. *)
Definition show_int (n : option N) : string :=
  match n with
  | Some k => NilZero.string_of_uint (N.to_uint k)
  | None => "NaN"
  end.

(** The text [`${r},${g},${b}`]. *)
Definition rgb_text (r g b : N) : string :=
  (show_int (Some r) ++ "," ++ show_int (Some g) ++ "," ++ show_int (Some b))%string.

(** [hexToRgb] of script.js, lines 35 to 50 (the same text in part_000,
    lines 29 to 44). *)
Definition hexToRgb (hex : JsValue) : JS string :=
  let invalid : JS string := console "warn" "Invalid hex color:";; mret "0,0,0" in
  if negb (ToBoolean hex) then invalid
  else
    match hex with
    | JsString s =>
        if negb (includes_char "#" s) then invalid
        else
          try_catch
            (match exec_color s with
             | Some (r, g, b) =>
                 mret (show_int (parseInt16 r) ++ "," ++
                       show_int (parseInt16 g) ++ "," ++
                       show_int (parseInt16 b))%string
             | None => mret "0,0,0"
             end)
            (λ _, console "error" "Error parsing hex color:";; mret "0,0,0")
    | _ => invalid
    end.

(** The code points [String.prototype.trim] strips, the WhiteSpace and
    LineTerminator of ECMAScript, as UTF-8 bytes: TAB, LF, VT, FF, CR,
    SPACE, U+00A0, U+1680, U+2000 to U+200A, U+2028, U+2029, U+202F,
    U+205F, U+3000 and U+FEFF. *)
Definition WHITE_SPACE : list (list ascii) :=
  map (map ascii_of_N)
    [[9]; [10]; [11]; [12]; [13]; [32];
     [194; 160];
     [225; 154; 128];
     [226; 128; 128]; [226; 128; 129]; [226; 128; 130]; [226; 128; 131];
     [226; 128; 132]; [226; 128; 133]; [226; 128; 134]; [226; 128; 135];
     [226; 128; 136]; [226; 128; 137]; [226; 128; 138];
     [226; 128; 168]; [226; 128; 169]; [226; 128; 175];
     [226; 129; 159];
     [227; 128; 128];
     [239; 187; 191]]%N.

Definition is_white_space (bytes : list ascii) : bool :=
  bool_decide (bytes ∈ WHITE_SPACE).

(** Dropping the white space a byte sequence starts with. The sequence is
    read forwards from the start of a text and backwards from its end:
    [arrange] puts the bytes read in the order of the text. *)
Fixpoint strip (arrange : list ascii -> list ascii) (s : list ascii) : list ascii :=
  match s with
  | a :: s1 =>
      if is_white_space (arrange [a]) then strip arrange s1
      else
        match s1 with
        | b :: s2 =>
            if is_white_space (arrange [a; b]) then strip arrange s2
            else
              match s2 with
              | c :: s3 =>
                  if is_white_space (arrange [a; b; c]) then strip arrange s3 else s
              | [] => s
              end
        | [] => s
        end
  | [] => []
  end.

Definition trim_start (s : list ascii) : list ascii := strip (λ bytes, bytes) s.

Definition trim_end (s : list ascii) : list ascii := rev (strip (@rev ascii) (rev s)).

(** [String.prototype.trim] *)
Definition trim (s : string) : string :=
  string_of_list_ascii (trim_end (trim_start (list_ascii_of_string s))).

(** [updateRgbaVars] of script.js, lines 53 to 71. *)
Definition updateRgbaVars (H : Host) : JS unit :=
  try_catch
    (rootStyles ← (λ w, (Normal (getPropertyValue H (heap w)), w));
     let accent := trim (rootStyles "--current-accent") in
     let primary := trim (rootStyles "--current-primary") in
     let secondary := trim (rootStyles "--current-secondary") in
     let background := trim (rootStyles "--current-background") in
     v ← hexToRgb (JsString accent); setProperty "--current-accent-rgb" v;;
     v ← hexToRgb (JsString primary); setProperty "--current-primary-rgb" v;;
     v ← hexToRgb (JsString secondary); setProperty "--current-secondary-rgb" v;;
     v ← hexToRgb (JsString background); setProperty "--current-background-rgb" v;;
     console "log" "RGBA variables updated")
    (λ _, console "error" "Error updating RGBA variables:").

(* ================================================================== *)
(** * The mobile menu *)
(* ================================================================== *)

Definition string_of_bool (b : bool) : string := if b then "true" else "false".

(** [closeMobileMenu] of script.js, lines 99 to 107. *)
Definition closeMobileMenu : JS unit :=
  D ← get_DOM;
  match navLinks D, navToggle D with
  | Some links, Some toggle =>
      isOpen ← classList_contains links "open";
      if (isOpen : bool) then
        classList_remove links "open";;
        classList_remove toggle "open";;
        setAttribute toggle "aria-expanded" "false";;
        b ← deref (body D);
        classList_remove b "no-scroll";;
        console "log" "Mobile menu closed"
      else skip
  | _, _ => skip
  end.

(** The click handler registered on the toggle, script.js lines 115 to 125. *)
Definition navToggle_onclick : JS unit :=
  try_catch
    (D ← get_DOM;
     links ← deref (navLinks D);
     isOpen ← classList_toggle links "open";
     toggle ← deref (navToggle D);
     classList_toggle toggle "open";;
     setAttribute toggle "aria-expanded" (string_of_bool isOpen);;
     b ← deref (body D);
     classList_toggle b "no-scroll";;
     console "log" "Mobile menu toggled, isOpen:")
    (λ _, console "error" "Error toggling mobile menu:").

(** [setupMobileMenu] of script.js, lines 109 to 127. *)
Definition setupMobileMenu : JS unit :=
  D ← get_DOM;
  match navToggle D, navLinks D with
  | Some toggle, Some _ =>
      addEventListener (TElement toggle) "click" NavToggleClick;;
      console "log" "Mobile menu setup complete"
  | _, _ => console "warn" "Mobile menu elements not found"
  end.

(** What a user does to the menu: a click on the toggle, or anything that
    ends in [closeMobileMenu] (a click on an in-page anchor). *)
Inductive MenuAction : Type :=
| ClickToggle
| CloseMenu.

Definition menu_step (a : MenuAction) (w : World) : World :=
  match a with
  | ClickToggle => snd (navToggle_onclick w)
  | CloseMenu => snd (closeMobileMenu w)
  end.

Definition menu_run (l : list MenuAction) (w : World) : World :=
  fold_left (λ w a, menu_step a w) l w.

(* ================================================================== *)
(** * The reveal-on-scroll engine *)
(* ================================================================== *)

(** The selector both queries of [setupScrollAnimations] pass. *)
Definition ANIMATABLE : string :=
  ".section-content > *, h2, .section-description, .project-card, " ++
  ".timeline-item, .contact-form > *, .social-links > *, .profile-card > *".

(** The two source files differ in the literal of one line only
    (script.js line 187, part_000 line 181): the engine is written once,
    over the stagger step. *)
Section RevealEngine.

Variable step : Number.t.
Variable H : Host.

(** [el.dataset.animation || 'animate-fade-in-up'] *)
Definition animationType (tag : option string) : string :=
  match tag with
  | Some s => if String.eqb s "" then "animate-fade-in-up" else s
  | None => "animate-fade-in-up"
  end.

(** [index * step] *)
Definition delay (index : nat) : Number.t :=
  Number.mul (Number.of_nat index) step.

(** The body of [elements.forEach], script.js lines 185 to 189. *)
Definition reveal (el : Node) (index : nat) : JS unit :=
  tag ← dataset_animation el;
  set_animationDelay el (delay index);;
  classList_add el (animationType tag).

(** The body of [entries.forEach], script.js lines 177 to 192. *)
Definition onEntry (entry : Entry) : JS unit :=
  if negb (isIntersecting entry) then skip
  else
    forEach reveal (element_querySelectorAll H (target entry) ANIMATABLE);;
    unobserve (target entry).

(** The observer callback, script.js lines 176 to 193. *)
Definition observerCallback (entries : list Entry) : JS unit :=
  forEach (λ entry _, onEntry entry) entries.

(** The body of [DOM.sections.forEach], script.js lines 195 to 206. *)
Definition prepare (section : Node) : JS unit :=
  forEach (λ el _, classList_add el "animate-initially-hidden")
          (element_querySelectorAll H section ANIMATABLE);;
  observe section.

(** [setupScrollAnimations], script.js lines 167 to 208. *)
Definition setupScrollAnimations : JS unit :=
  D ← get_DOM;
  match sections D with
  | None => skip
  | Some secs =>
      if (length secs =? 0)%nat then skip
      else
        new_IntersectionObserver H step;;
        forEach (λ section _, prepare section) secs;;
        console "log" "Scroll animations setup complete"
  end.

End RevealEngine.

(** What the browser does with a batch of queued entries: an entry is
    queued for an observation target only, so a batch holds no entry for an
    element that is not observed when it is delivered; the observer's
    callback runs on the batch, and an exception that escapes it is
    reported and dropped. *)
Definition deliver (H : Host) (batch : list Entry) (w : World) : World :=
  match observer w with
  | None => w
  | Some o =>
      snd (observerCallback (stagger o) H
             (filter (λ e, target e ∈ targets o) batch) w)
  end.

(** A run of deliveries. *)
Definition deliver_all (H : Host) (batches : list (list Entry)) (w : World) : World :=
  fold_left (λ w batch, deliver H batch w) batches w.

(** The engine of script.js ... *)
Module ScriptJs.
Definition STEP : Number.t := Number.lit_0_1.
Definition setupScrollAnimations : Host -> JS unit := setupScrollAnimations STEP.
Definition observerCallback : Host -> list Entry -> JS unit := observerCallback STEP.
End ScriptJs.

(** ... and of the variant part_000. *)
Module Part000.
Definition STEP : Number.t := Number.lit_0_5.
Definition setupScrollAnimations : Host -> JS unit := setupScrollAnimations STEP.
Definition observerCallback : Host -> list Entry -> JS unit := observerCallback STEP.
End Part000.

(* ================================================================== *)
(** * The other set-up routines and [init] of script.js *)
(* ================================================================== *)

(** The [DOM] object as the script creates it, lines 7 to 16. *)
Definition initial_DOM (H : Host) : DOMCache :=
  mkDOMCache (document_body H) None None None None None None None.

(** [cacheDOMElements], lines 19 to 32: no look-up throws; [DOM.body] is
    left as the script found it when it was loaded. *)
Definition cacheDOMElements (H : Host) : JS unit :=
  try_catch
    (D ← get_DOM;
     set_DOM (mkDOMCache (body D)
                (getElementById H "theme-toggle")
                (getElementById H "sun-icon")
                (getElementById H "moon-icon")
                (getElementById H "navToggle")
                (getElementById H "navLinks")
                (querySelector H ".custom-cursor")
                (Some (querySelectorAll H "section.full-viewport-section")));;
     console "log" "DOM elements cached successfully")
    (λ _, console "error" "Error caching DOM elements:").

(** [setupSmoothScroll], lines 74 to 96. *)
Definition setupSmoothScroll : JS unit :=
  addEventListener TDocument "click" AnchorClick;;
  console "log" "Smooth scroll setup complete".

(** [setupCustomCursor], lines 130 to 164. *)
Definition setupCustomCursor : JS unit :=
  D ← get_DOM;
  match customCursor D with
  | None => skip
  | Some _ =>
      addEventListener TDocument "mousemove" CursorMouseMove;;
      addEventListener TDocument "mouseenter" CursorMouseEnter;;
      addEventListener TDocument "mouseleave" CursorMouseLeave;;
      console "log" "Custom cursor setup complete"
  end.

(** [setupThemeToggle], lines 211 to 248. *)
Definition setupThemeToggle : JS unit :=
  D ← get_DOM;
  match themeToggle D with
  | None => console "warn" "Theme toggle button not found"
  | Some toggle =>
      try_catch
        (savedTheme ← localStorage_getItem "theme";
         let isLightMode := bool_decide (savedTheme = Some "light-mode") in
         (if isLightMode then
            b ← deref (body D);
            classList_add b "light-mode";;
            when_some (sunIcon D) (λ n, classList_remove n "active");;
            when_some (moonIcon D) (λ n, classList_add n "active")
          else
            when_some (sunIcon D) (λ n, classList_add n "active");;
            when_some (moonIcon D) (λ n, classList_remove n "active"));;
         addEventListener (TElement toggle) "click" ThemeToggleClick;;
         console "log" "Theme toggle setup complete")
        (λ _, console "error" "Error setting up theme toggle:")
  end.

(** [setupThemeObserver], lines 251 to 267: observing a null body is a
    TypeError. *)
Definition setupThemeObserver (H : Host) : JS unit :=
  new_MutationObserver H;;
  D ← get_DOM;
  b ← deref (body D);
  mutation_observe b;;
  console "log" "Theme observer setup complete".

(** [setupFormValidation], lines 270 to 296. *)
Definition setupFormValidation (H : Host) : JS unit :=
  match querySelector H ".contact-form" with
  | None => skip
  | Some form =>
      addEventListener (TElement form) "submit" ContactFormSubmit;;
      console "log" "Form validation setup complete"
  end.

(** [init], lines 299 to 311. *)
Definition init (H : Host) : JS unit :=
  cacheDOMElements H;;
  updateRgbaVars H;;
  setupSmoothScroll;;
  setupMobileMenu;;
  setupCustomCursor;;
  ScriptJs.setupScrollAnimations H;;
  setupThemeToggle;;
  setupThemeObserver H;;
  setupFormValidation H;;
  console "log" "Portfolio initialized successfully".

(** The world in which the script starts on a page. *)
Definition start (H : Host) (els : Node -> Element) (storage : option (gmap string string)) : World :=
  mkWorld (initial_DOM H) els ∅ storage None [].


(* ================================================================== *)
(** * Vocabulary of the properties *)
(* ================================================================== *)

(** A [data-animation] tag without white space. *)
Definition tag_ok (e : Element) : Prop :=
  match attributes e !! "data-animation" with
  | Some s => TokenList.has_whitespace s = false
  | None => True
  end.

(** The explicit tag of an element if it has one that is not empty, else
    the default. *)
Definition tag_or_default (e : Element) : string :=
  match attributes e !! "data-animation" with
  | Some "" | None => "animate-fade-in-up"
  | Some s => s
  end.

(** An element after it was revealed at position [i] of its section. *)
Definition revealed (step : Number.t) (i : nat) (e : Element) : Element :=
  with_classList (TokenList.add (tag_or_default e))
    (with_animationDelay (delay step i) e).

(** The calls that reveal the elements [els], in order. *)
Definition reveal_calls (step : Number.t) (w : World) (els : list Node) : list Call :=
  concat (imap (λ i el, [SetAnimationDelay el (delay step i);
                         ClassListAdd el (tag_or_default (heap w el))]) els).

(** The calls that prepare the sections [secs], in order. *)
Definition prepare_calls (H : Host) (secs : list Node) : list Call :=
  concat (map (λ s, map (λ el, ClassListAdd el "animate-initially-hidden")
                        (element_querySelectorAll H s ANIMATABLE)
                    ++ [Observe s]) secs).

(** The targets of the observer, none when there is no observer. *)
Definition watched (w : World) : gset Node :=
  match observer w with
  | Some o => targets o
  | None => ∅
  end.

(** What a piece of the engine may do to the world: it leaves the caches,
    the root style, the storage and every attribute alone, changes only
    elements in [touched], only adds classes and delays, and releases only
    targets in [released]. *)
Record effect (touched released : Node -> Prop) (w w' : World) : Prop := mkEffect {
  eff_DOM : DOM w' = DOM w;
  eff_rootStyle : rootStyle w' = rootStyle w;
  eff_localStorage : localStorage w' = localStorage w;
  eff_frame : ∀ x, ¬ touched x -> heap w' x = heap w x;
  eff_attributes : ∀ x, attributes (heap w' x) = attributes (heap w x);
  eff_classes : ∀ x tok, tok ∈ classList (heap w x) -> tok ∈ classList (heap w' x);
  eff_delay : ∀ x, is_Some (animationDelay (heap w x)) ->
                   is_Some (animationDelay (heap w' x));
  eff_stagger : stagger <$> observer w' = stagger <$> observer w;
  eff_watched : watched w' ⊆ watched w;
  eff_released : ∀ t, t ∈ watched w -> ¬ released t -> t ∈ watched w'
}.

(** The page a reveal engine is meant for: a query lists an element once,
    the watched sections are not nested in one another, and no
    [data-animation] tag of an animatable element holds white space. *)
Record page_ok (H : Host) (w : World) : Prop := mkPageOk {
  ok_nodup : ∀ s, NoDup (element_querySelectorAll H s ANIMATABLE);
  ok_disjoint : ∀ s t el, s ∈ watched w -> t ∈ watched w ->
                  el ∈ element_querySelectorAll H s ANIMATABLE ->
                  el ∈ element_querySelectorAll H t ANIMATABLE -> s = t;
  ok_tags : ∀ s el, s ∈ watched w ->
              el ∈ element_querySelectorAll H s ANIMATABLE -> tag_ok (heap w el)
}.

(** The delays two engines with the steps [s1] and [s2] leave on an
    element whose delay was [before]: both have left it alone, or the first
    has assigned [index * s1] and the second [index * s2], for the same
    index. *)
Definition delay_alike (s1 s2 : Number.t) (before a b : option Number.t) : Prop :=
  (a = before /\ b = before) \/ ∃ i, a = Some (delay s1 i) /\ b = Some (delay s2 i).

(** Corresponding calls of the two engines: a call other than a delay
    assignment corresponds to itself only, and an assignment of
    [index * s1] to an element corresponds to the assignment of
    [index * s2] to the same element. *)
Definition call_alike (s1 s2 : Number.t) (c1 c2 : Call) : Prop :=
  match c1, c2 with
  | SetAnimationDelay el1 d1, SetAnimationDelay el2 d2 =>
      el1 = el2 /\ ∃ i, d1 = delay s1 i /\ d2 = delay s2 i
  | SetAnimationDelay _ _, _ | _, SetAnimationDelay _ _ => False
  | _, _ => c1 = c2
  end.

(** The worlds [w1] and [w2] two engines with the steps [s1] and [s2] have
    reached from the world [w0]: they differ in the delays assigned since
    [w0] only, and the calls made since [w0] correspond one by one. *)
Record alike (s1 s2 : Number.t) (w0 w1 w2 : World) : Prop := mkAlike {
  al_DOM : DOM w1 = DOM w2;
  al_rootStyle : rootStyle w1 = rootStyle w2;
  al_localStorage : localStorage w1 = localStorage w2;
  al_observer : observer w1 = observer w2;
  al_classList : ∀ x, classList (heap w1 x) = classList (heap w2 x);
  al_attributes : ∀ x, attributes (heap w1 x) = attributes (heap w2 x);
  al_delay : ∀ x, delay_alike s1 s2 (animationDelay (heap w0 x))
                    (animationDelay (heap w1 x)) (animationDelay (heap w2 x));
  al_calls : ∃ new1 new2,
      calls w1 = calls w0 ++ new1 /\ calls w2 = calls w0 ++ new2 /\
      Forall2 (call_alike s1 s2) new1 new2
}.

(** A string of six characters. *)
Definition six (a b c d e f : ascii) : string :=
  String a (String b (String c (String d (String e (String f EmptyString))))).

(** The strings the pattern of [hexToRgb] accepts: six hexadecimal digits
    after an optional ['#']. *)
Definition color_pattern (s : string) : Prop :=
  ∃ a b c d e f : ascii,
    is_hex_digit a = true /\ is_hex_digit b = true /\ is_hex_digit c = true /\
    is_hex_digit d = true /\ is_hex_digit e = true /\ is_hex_digit f = true /\
    (s = six a b c d e f \/ s = String "#" (six a b c d e f)).

(** Two scripts that, run on alike worlds, end in the same way and in
    alike worlds. *)
Definition lockstep {A : Type} (s1 s2 : Number.t) (m1 m2 : JS A) : Prop :=
  ∀ w0 w1 w2, alike s1 s2 w0 w1 w2 ->
    fst (m1 w1) = fst (m2 w2) /\ alike s1 s2 w0 (snd (m1 w1)) (snd (m2 w2)).

(** The calls made since the world [w0]. *)
Definition calls_since (w0 w : World) : list Call :=
  drop (length (calls w0)) (calls w).

(** The four signs of an open menu agree. *)
Definition menu_consistent (w : World) (links toggle b : Node) : Prop :=
  let is_open := "open" ∈ classList (heap w links) in
  (is_open <-> "open" ∈ classList (heap w toggle)) /\
  (is_open <-> attributes (heap w toggle) !! "aria-expanded" = Some "true") /\
  (is_open <-> "no-scroll" ∈ classList (heap w b)).

(** The exact ratio of two finite Numbers, as rationals. *)
Definition exactly_times (k : Q) (x y : Number.t) : Prop :=
  match Number.to_Q x, Number.to_Q y with
  | Some a, Some b => (a == k * b)%Q
  | _, _ => False
  end.

(** The calls of a trace that assign a delay, or add a class, to [el]. *)
Definition sets_delay_of (el : Node) (c : Call) : bool :=
  match c with
  | SetAnimationDelay x _ => bool_decide (x = el)
  | _ => false
  end.

Definition adds_class_to (el : Node) (c : Call) : bool :=
  match c with
  | ClassListAdd x _ => bool_decide (x = el)
  | _ => false
  end.

(* ================================================================== *)
(** * A sample page *)
(* ================================================================== *)

(** Three watched sections 10, 20 and 30 with three, four and no animatable
    descendants, a menu (toggle 2, links 3) inside the body 1, a theme
    button 4 with its icons 5 and 6, and a contact form 40. Element 22
    carries an explicit animation tag. *)
Module Sample.

Definition blank : Element := mkElement [] ∅ None.

Definition page (n : Node) : Element :=
  if decide (n = 22%nat)
  then mkElement [] {["data-animation" := "animate-zoom-in"]} None
  else if decide (n = 2%nat)
  then mkElement [] {["aria-expanded" := "false"]} None
  else blank.

Definition descendants (n : Node) (selector : string) : list Node :=
  if negb (String.eqb selector ANIMATABLE) then []
  else if decide (n = 10%nat) then [11; 12; 13]%nat
  else if decide (n = 20%nat) then [21; 22; 23; 24]%nat
  else [].

Definition host : Host :=
  mkHost (Some 1%nat)
    (λ id, if String.eqb id "navToggle" then Some 2%nat
           else if String.eqb id "navLinks" then Some 3%nat
           else if String.eqb id "theme-toggle" then Some 4%nat
           else if String.eqb id "sun-icon" then Some 5%nat
           else if String.eqb id "moon-icon" then Some 6%nat
           else None)
    (λ selector, if String.eqb selector ".contact-form" then Some 40%nat else None)
    (λ selector, if String.eqb selector "section.full-viewport-section"
                 then [10; 20; 30]%nat else [])
    descendants
    (λ _ _, " #1a2b3c ")
    true true.

(** The same page in a browser without [IntersectionObserver]. *)
Definition old_host : Host :=
  mkHost (document_body host) (getElementById host) (querySelector host)
    (querySelectorAll host) (element_querySelectorAll host) (getPropertyValue host)
    false true.

(** The same page with the script loaded in the head of the document,
    before there is a body. *)
Definition head_host : Host :=
  mkHost None (getElementById host) (querySelector host)
    (querySelectorAll host) (element_querySelectorAll host) (getPropertyValue host)
    true true.

(** The page when the script is loaded, and after [init]. *)
Definition loaded : World := start host page (Some ∅).
Definition ready : World := snd (init host loaded).

(** The page with a tag that is not a class token on element 12, and with
    an empty tag on element 13. *)
Definition odd_page (n : Node) : Element :=
  if decide (n = 12%nat)
  then mkElement [] {["data-animation" := "fade in"]} None
  else if decide (n = 13%nat)
  then mkElement [] {["data-animation" := ""]} None
  else page n.

Definition odd_ready : World := snd (init host (start host odd_page (Some ∅))).

(** The page with an open menu. *)
Definition menu_open : World := menu_step ClickToggle ready.

End Sample.

(** A page with a watched section inside another: section 20 lies in
    section 10 after the heading 11, so that its descendants 21 and 22 are
    descendants of section 10 as well. *)
Module Nested.

Definition descendants (n : Node) (selector : string) : list Node :=
  if negb (String.eqb selector ANIMATABLE) then []
  else if decide (n = 10%nat) then [11; 21; 22]%nat
  else if decide (n = 20%nat) then [21; 22]%nat
  else [].

Definition host : Host :=
  mkHost (Some 1%nat) (λ _, None) (λ _, None)
    (λ selector, if String.eqb selector "section.full-viewport-section"
                 then [10; 20]%nat else [])
    descendants
    (λ _ _, "#1a2b3c")
    true true.

Definition ready : World := snd (init host (start host (λ _, Sample.blank) (Some ∅))).

End Nested.

(** Section [s] has been revealed with the stagger [step]: each descendant
    carries its delay and its animation class. *)
Definition settled (step : Number.t) (H : Host) (s : Node) (w : World) : Prop :=
  ∀ k el, element_querySelectorAll H s ANIMATABLE !! k = Some el ->
    animationDelay (heap w el) = Some (delay step k) /\
    tag_or_default (heap w el) ∈ classList (heap w el).

(** What holds of a world [w] reached from [w0] by the observer callback:
    attributes are as in [w0], the watched sections are among those of
    [w0], and a section of [w0] that is no longer watched is settled. *)
Record progress (step : Number.t) (H : Host) (w0 w : World) : Prop := mkProgress {
  pr_attributes : ∀ x, attributes (heap w x) = attributes (heap w0 x);
  pr_watched : watched w ⊆ watched w0;
  pr_settled : ∀ t, t ∈ watched w0 -> t ∉ watched w -> settled step H t w
}.

(* ================================================================== *)
(** * Vocabulary of the further properties *)
(* ================================================================== *)

(** A script that leaves the [DOM] cache as it is, however it ends. *)
Definition keeps_DOM {A : Type} (m : JS A) : Prop :=
  ∀ w, DOM (snd (m w)) = DOM w.

(** A script that does not throw. *)
Definition completes {A : Type} (m : JS A) : Prop :=
  ∀ w, ∃ a, fst (m w) = Normal a.

(** The custom properties [updateRgbaVars] reads and the ones it writes. *)
Definition COLOR_VARS : list (string * string) :=
  [("--current-accent", "--current-accent-rgb");
   ("--current-primary", "--current-primary-rgb");
   ("--current-secondary", "--current-secondary-rgb");
   ("--current-background", "--current-background-rgb")].

(** A text made of white space only: the bytes of a sequence of white
    space characters. *)
Definition blank_text (s : string) : Prop :=
  ∃ chars, Forall (λ c, c ∈ WHITE_SPACE) chars /\ list_ascii_of_string s = concat chars.

(** A byte that occurs in no white space character: an ASCII character
    other than the six ASCII white spaces. *)
Definition solid (a : ascii) : bool :=
  let n := N_of_ascii a in
  (n <? 128)%N && negb ((9 <=? n) && (n <=? 13) || (n =? 32))%N.

(** The sample page with colours computed with white space around them:
    a no-break space and a space before, a byte order mark and a line feed
    after. *)
Module Padded.

Definition before : string :=
  String (ascii_of_N 194) (String (ascii_of_N 160) " ").

Definition after : string :=
  String (ascii_of_N 239) (String (ascii_of_N 187) (String (ascii_of_N 191)
    (String (ascii_of_N 10) EmptyString))).

Definition host : Host :=
  mkHost (document_body Sample.host) (getElementById Sample.host)
    (querySelector Sample.host) (querySelectorAll Sample.host)
    (element_querySelectorAll Sample.host)
    (λ _ _, (before ++ "#1a2b3c" ++ after)%string)
    true true.

Definition loaded : World := start host Sample.page (Some ∅).

End Padded.

(** Whether the menu is open after the actions [l], when it was [open]
    before: a click on the toggle flips it, closing closes it. *)
Definition menu_open_after (l : list MenuAction) (open : bool) : bool :=
  fold_left (λ o a, match a with ClickToggle => negb o | CloseMenu => false end) l open.

(* ================================================================== *)
(** * The theme button of script.js and the theme observer *)
(* ================================================================== *)

Definition with_localStorage (f : gmap string string -> gmap string string) (w : World) : World :=
  mkWorld (DOM w) (heap w) (rootStyle w) (f <$> localStorage w) (observer w) (calls w).

(** [localStorage.setItem(key, value)]: a SecurityError where storage is
    denied, and a QuotaExceededError where the browser does not take the
    item (no room is left, or the storage takes no writes at all). Whether
    it takes the item is the browser's answer at each write, [stored]. The
    write shows in the storage, not in the trace. *)
Definition localStorage_setItem (stored : bool) (key value : string) : JS unit := λ w,
  match localStorage w with
  | Some _ =>
      if stored then (Normal tt, with_localStorage (<[key := value]>) w)
      else (Throw QuotaExceededError, w)
  | None => (Throw SecurityError, w)
  end.

(** The click handler of the theme button, script.js lines 230 to 243;
    [stored] is whether the browser takes the write of line 234. *)
Definition themeToggle_onclick (H : Host) (stored : bool) : JS unit :=
  D ← get_DOM;
  b ← deref (body D);
  isNowLightMode ← classList_toggle b "light-mode";
  try_catch
    (localStorage_setItem stored "theme"
       (if (isNowLightMode : bool) then "light-mode" else "dark-mode"))
    (λ _, console "warn" "Could not save theme preference:");;
  when_some (sunIcon D) (λ n, classList_toggle n "active";; skip);;
  when_some (moonIcon D) (λ n, classList_toggle n "active";; skip);;
  updateRgbaVars H.

(** Clicks on the theme button, one after the other, one for each element
    of [writes], which tells whether the browser takes the write of that
    click; a handler that throws ends alone, the next click runs all the
    same. *)
Definition theme_clicks (H : Host) (writes : list bool) (w : World) : World :=
  fold_left (λ w stored, snd (themeToggle_onclick H stored w)) writes w.

(** One record of a mutation; the callback reads [attributeName] only
    ([None] stands for [null]). *)
Record MutationRecord : Type := mkMutationRecord {
  attributeName : option string
}.

(** The callback of the theme observer, script.js lines 252 to 258. *)
Definition themeObserver_callback (H : Host) (mutations : list MutationRecord) : JS unit :=
  forEach (λ mutation _,
             if bool_decide (attributeName mutation = Some "class")
             then updateRgbaVars H else skip)
          mutations.

(** Light mode shows in three places: the [light-mode] class of the body,
    the [active] class of the moon icon, and no [active] class on the sun
    icon. *)
Definition theme_consistent (w : World) (b sun moon : Node) : Prop :=
  let light := "light-mode" ∈ classList (heap w b) in
  (light <-> "active" ∈ classList (heap w moon)) /\
  (light <-> ¬ "active" ∈ classList (heap w sun)).

(** The theme the storage holds is the theme the body shows. *)
Definition theme_saved (w : World) (b : Node) : Prop :=
  ∃ m, localStorage w = Some m /\
       m !! "theme" = Some (if bool_decide ("light-mode" ∈ classList (heap w b))
                            then "light-mode" else "dark-mode").

(** A world that differs from [w] by warnings of [hexToRgb] only. *)
Definition logs_only (w w1 : World) : Prop :=
  DOM w1 = DOM w /\ heap w1 = heap w /\ rootStyle w1 = rootStyle w /\
  localStorage w1 = localStorage w /\ observer w1 = observer w /\
  ∃ new, calls w1 = calls w ++ new /\
         Forall (λ c, c = Console "warn" "Invalid hex color:") new.

(** What [hexToRgb] makes of the computed value of the property [src]. *)
Definition rgb_value (H : Host) (w : World) (src : string) : Completion string :=
  fst (hexToRgb (JsString (trim (getPropertyValue H (heap w) src))) w).

(** The [-rgb] properties of [w] hold the colours computed on the elements
    of [w0]. *)
Definition rgb_vars_fresh (H : Host) (w0 w : World) : Prop :=
  ∀ src dst, (src, dst) ∈ COLOR_VARS ->
    ∃ v, rgb_value H w0 src = Normal v /\ rootStyle w !! dst = Some v.

(* ================================================================== *)
(** * The window of the event handlers *)
(* ================================================================== *)

(** What a handler does to its event, to an element's view or to the
    window, in the order of the calls. *)
Inductive UICall : Type :=
| PreventDefault
| ScrollIntoView (el : Node)
| Alert (message : string)
| FormReset (form : Node).

(** The page together with the trace of these calls and the check boxes
    that are checked. The two traces are kept apart: the order between a
    call of [calls] and a call of [ui] is not recorded. *)
Record Window : Type := mkWindow {
  page : World;
  ui : list UICall;
  checked : gset Node
}.

(** Handler code: a state transformer over [Window] that completes
    normally or throws. *)
Definition UI (A : Type) : Type := Window -> Completion A * Window.

#[export] Instance UI_ret : MRet UI := λ A a v, (Normal a, v).

#[export] Instance UI_bind : MBind UI := λ A B k m v,
  match m v with
  | (Normal a, v') => k a v'
  | (Throw e, v') => (Throw e, v')
  end.

(** A script of the page, run inside a handler. *)
Definition lift {A : Type} (m : JS A) : UI A := λ v,
  (fst (m (page v)), mkWindow (snd (m (page v))) (ui v) (checked v)).

Definition ui_call (c : UICall) : UI unit := λ v,
  (Normal tt, mkWindow (page v) (ui v ++ [c]) (checked v)).

Definition ui_throw {A : Type} (e : Exn) : UI A := λ v, (Throw e, v).

(* ================================================================== *)
(** * The handlers on the document: smooth scroll and cursor growth *)
(* ================================================================== *)

(** [el.getAttribute(name)]: [None] stands for [null]. *)
Definition getAttribute (el : Node) (name : string) : JS (option string) := λ w,
  (Normal (attributes (heap w el) !! name), w).

(** The double quote character, as a text. *)
Definition quote : string := String (ascii_of_nat 34) EmptyString.

(** The selector of the links the handler serves: an [a] whose [href]
    starts with ['#']. *)
Definition IN_PAGE_LINK : string := ("a[href^=" ++ quote ++ "#" ++ quote ++ "]")%string.

Section DocumentHandlers.

Variable H : Host.

(** [el.closest(selectors)], as the browser answers it. *)
Variable closest : Node -> string -> option Node.

(** Whether a text parses as a selector; [querySelector] throws a
    SyntaxError on a text that does not. *)
Variable valid_selector : string -> bool.

(** [e.target.closest(selectors)]: the document has no such method, so
    the call is a TypeError when the target is the document. *)
Definition target_closest (target : EventTarget) (selectors : string) : JS (option Node) :=
  match target with
  | TDocument => throw TypeError
  | TElement n => mret (closest n selectors)
  end.

Definition document_querySelector (selector : string) : UI (option Node) :=
  if valid_selector selector then mret (querySelector H selector)
  else ui_throw SyntaxError.

(** The click handler on the document, script.js lines 75 to 94. A [null]
    argument of [querySelector] is the selector ["null"]. *)
Definition anchor_onclick (target : EventTarget) : UI unit :=
  anchor ← lift (target_closest target IN_PAGE_LINK);
  match anchor with
  | None => mret tt
  | Some a =>
      targetId ← lift (getAttribute a "href");
      if bool_decide (targetId = Some "#") then mret tt
      else
        targetElement ← document_querySelector (default "null" targetId);
        match targetElement with
        | None => mret tt
        | Some t =>
            ui_call PreventDefault;;
            ui_call (ScrollIntoView t);;
            lift closeMobileMenu
        end
  end.

(** The selector of the elements the cursor grows over. *)
Definition INTERACTIVE : string :=
  "a, .btn, .project-card, .skills-column li, .nav-toggle, .icon-btn".

(** The [mouseenter] and [mouseleave] handlers of the custom cursor,
    script.js lines 150 to 162. *)
Definition cursor_onmouseenter (target : EventTarget) : JS unit :=
  found ← target_closest target INTERACTIVE;
  match found with
  | Some _ =>
      D ← get_DOM;
      c ← deref (customCursor D);
      classList_add c "grow"
  | None => skip
  end.

Definition cursor_onmouseleave (target : EventTarget) : JS unit :=
  found ← target_closest target INTERACTIVE;
  match found with
  | Some _ =>
      D ← get_DOM;
      c ← deref (customCursor D);
      classList_remove c "grow"
  | None => skip
  end.

End DocumentHandlers.

(** The pointer enters or leaves an element (or the document). *)
Inductive HoverEvent : Type :=
| MouseEnter (target : EventTarget)
| MouseLeave (target : EventTarget).

(** The handler of each event; one that throws ends alone. *)
Definition hover_step (closest : Node -> string -> option Node) (w : World) (e : HoverEvent) : World :=
  match e with
  | MouseEnter t => snd (cursor_onmouseenter closest t w)
  | MouseLeave t => snd (cursor_onmouseleave closest t w)
  end.

Definition hover_run (closest : Node -> string -> option Node) (events : list HoverEvent) (w : World) : World :=
  fold_left (hover_step closest) events w.

(** Whether an event target lies in an interactive element. *)
Definition interactive (closest : Node -> string -> option Node) (t : EventTarget) : bool :=
  match t with
  | TElement n => bool_decide (is_Some (closest n INTERACTIVE))
  | TDocument => false
  end.

(** Whether the cursor is grown after the events, when it was [grown]
    before: entering an interactive element grows it, leaving one shrinks
    it. *)
Definition grown_after (closest : Node -> string -> option Node)
    (events : list HoverEvent) (grown : bool) : bool :=
  fold_left (λ g e, match e with
                    | MouseEnter t => if interactive closest t then true else g
                    | MouseLeave t => if interactive closest t then false else g
                    end) events grown.

(* ================================================================== *)
(** * The submit handler of [setupFormValidation] *)
(* ================================================================== *)

(** Text a user types: a sequence of UTF-16 code units. *)
Definition JsText : Type := list N.

(** The code units of an ASCII text. *)
Definition text (s : string) : JsText := map N_of_ascii (list_ascii_of_string s).

Module RegExp.

(** The class [\s]: the white space and line terminators of ECMAScript. *)
Definition is_space (c : N) : bool :=
  ((9 <=? c) && (c <=? 13) || (c =? 32) || (c =? 160) || (c =? 5760) ||
   (8192 <=? c) && (c <=? 8202) || (c =? 8232) || (c =? 8233) || (c =? 8239) ||
   (c =? 8287) || (c =? 12288) || (c =? 65279))%N.

(** The patterns the scripts use on typed text: a literal code unit, a
    character class repeated once or more (greedy), and concatenation. *)
Inductive Pattern : Type :=
| Literal (c : N)
| OneOrMore (class : N -> bool)
| Seq (p q : Pattern).

(** [class*] followed by the continuation [k], longest repetition first. *)
Fixpoint repeat_class (class : N -> bool) (k : JsText -> bool) (s : JsText) : bool :=
  match s with
  | c :: s' => class c && repeat_class class k s' || k s
  | [] => k s
  end.

(** The backtracking matcher, with the rest of the match as continuation. *)
Fixpoint run (p : Pattern) (k : JsText -> bool) (s : JsText) : bool :=
  match p with
  | Literal c0 =>
      match s with
      | c :: s' => (c =? c0)%N && k s'
      | [] => false
      end
  | OneOrMore class =>
      match s with
      | c :: s' => class c && repeat_class class k s'
      | [] => false
      end
  | Seq p q => run p (run q k) s
  end.

(** [/^p$/.test(s)] *)
Definition test (p : Pattern) (s : JsText) : bool :=
  run p (λ rest, match rest with [] => true | _ => false end) s.

End RegExp.

(** The class [[^\s@]]. *)
Definition not_space_or_at (c : N) : bool :=
  negb (RegExp.is_space c || (c =? 64)%N).

(** [/^[^\s@]+@[^\s@]+\.[^\s@]+$/], script.js line 285. *)
Definition emailRegex : RegExp.Pattern :=
  RegExp.Seq (RegExp.OneOrMore not_space_or_at)
    (RegExp.Seq (RegExp.Literal 64)
       (RegExp.Seq (RegExp.OneOrMore not_space_or_at)
          (RegExp.Seq (RegExp.Literal 46)
             (RegExp.OneOrMore not_space_or_at)))).

(** The value of a form entry: text, or a file of a file input. *)
Inductive FormValue : Type :=
| FormText (s : JsText)
| FormFile.

(** [Object.fromEntries(entries)]: a later entry replaces an earlier one of
    the same name. *)
Definition fromEntries (entries : list (JsText * FormValue)) : gmap JsText FormValue :=
  fold_left (λ data e, <[fst e := snd e]> data) entries ∅.

(** [!v] is false: the value is neither [undefined] nor the empty text. *)
Definition filled (v : option FormValue) : bool :=
  match v with
  | None | Some (FormText []) => false
  | Some _ => true
  end.

(** The text a value is matched as. *)
Definition value_text (v : option FormValue) : JsText :=
  match v with
  | Some (FormText s) => s
  | Some FormFile => text "[object File]"
  | None => text "undefined"
  end.

(** The submit handler, script.js lines 274 to 294. [entries] is the entry
    list of [new FormData(contactForm)]. *)
Definition contactForm_onsubmit (form : Node) (entries : list (JsText * FormValue)) : UI unit :=
  ui_call PreventDefault;;
  let data := fromEntries entries in
  if negb (filled (data !! text "name")) || negb (filled (data !! text "email")) ||
     negb (filled (data !! text "message"))
  then ui_call (Alert "Please fill in all fields")
  else if negb (RegExp.test emailRegex (value_text (data !! text "email")))
  then ui_call (Alert "Please enter a valid email address")
  else
    lift (console "log" "Form submitted:");;
    ui_call (Alert "Thank you for your message! (This is a demo - no email was actually sent)");;
    ui_call (FormReset form).

(* ================================================================== *)
(** * The custom cursor *)
(* ================================================================== *)

(** The variables of [setupCustomCursor] (lines 133 and 134), the
    [transform] of the cursor element (the pair [(x, y)] of the text
    [translate(${x}px, ${y}px)]), and the animation frame requests of the
    window: the handles of the callbacks queued for the next frame, all of
    them [updateCursor], and the number of handles given out. A handle is
    positive, so [!rafId] holds for [null] only. *)
Record Cursor : Type := mkCursor {
  cursorX : Number.t;
  cursorY : Number.t;
  rafId : option positive;
  transform : option (Number.t * Number.t);
  frame_queue : list positive;
  handles : nat
}.

Definition cursor_start : Cursor :=
  mkCursor Number.lit_0 Number.lit_0 None None [] 0.

(** [updateCursor], lines 136 to 139. *)
Definition updateCursor (c : Cursor) : Cursor :=
  mkCursor (cursorX c) (cursorY c) None (Some (cursorX c, cursorY c))
    (frame_queue c) (handles c).

(** [requestAnimationFrame(updateCursor)] *)
Definition requestAnimationFrame (c : Cursor) : positive * Cursor :=
  let id := Pos.of_succ_nat (handles c) in
  (id, mkCursor (cursorX c) (cursorY c) (rafId c) (transform c)
         (frame_queue c ++ [id]) (S (handles c))).

(** The [mousemove] handler, lines 141 to 148. *)
Definition cursor_onmousemove (clientX clientY : Number.t) (c : Cursor) : Cursor :=
  let c1 := mkCursor clientX clientY (rafId c) (transform c) (frame_queue c) (handles c) in
  match rafId c1 with
  | None =>
      let (id, c2) := requestAnimationFrame c1 in
      mkCursor (cursorX c2) (cursorY c2) (Some id) (transform c2) (frame_queue c2) (handles c2)
  | Some _ => c1
  end.

(** What the browser does at a frame: it takes the queued callbacks and
    runs them in order. *)
Definition cursor_frame (c : Cursor) : Cursor :=
  fold_left (λ c _, updateCursor c) (frame_queue c)
    (mkCursor (cursorX c) (cursorY c) (rafId c) (transform c) [] (handles c)).

Inductive CursorEvent : Type :=
| MouseMove (clientX clientY : Number.t)
| Frame.

Definition cursor_step (c : Cursor) (e : CursorEvent) : Cursor :=
  match e with
  | MouseMove x y => cursor_onmousemove x y c
  | Frame => cursor_frame c
  end.

Definition cursor_run (events : list CursorEvent) : Cursor :=
  fold_left cursor_step events cursor_start.

(** The position of the last mouse move of a run, if there is one. *)
Definition last_move (events : list CursorEvent) : option (Number.t * Number.t) :=
  fold_left (λ o e, match e with MouseMove x y => Some (x, y) | Frame => o end) events None.

Definition is_frame (e : CursorEvent) : bool :=
  match e with
  | Frame => true
  | MouseMove _ _ => false
  end.

(** The sample page with a link (element 50) to the contact form, which
    carries the id [contact]. *)
Module SampleLink.

Definition host : Host :=
  mkHost (document_body Sample.host) (getElementById Sample.host)
    (λ selector, if String.eqb selector "#contact" then Some 40%nat
                 else querySelector Sample.host selector)
    (querySelectorAll Sample.host) (element_querySelectorAll Sample.host)
    (getPropertyValue Sample.host) true true.

Definition with_link (w : World) : World :=
  with_heap (λ h n, if decide (n = 50%nat)
                    then mkElement [] {["href" := "#contact"]} None else h n) w.

(** The window with the menu open. *)
Definition menu_open : Window := mkWindow (with_link Sample.menu_open) [] ∅.

(** The link itself is the closest in-page link of element 50 only. *)
Definition closest (n : Node) (selectors : string) : option Node :=
  if decide (n = 50%nat) then
    if String.eqb selectors IN_PAGE_LINK then Some 50%nat else None
  else None.

End SampleLink.

(* ================================================================== *)
(** * Vocabulary of the handlers' properties *)
(* ================================================================== *)

(** An address [local@domain]: the local part is not empty, neither part
    holds white space or a further ['@'], and the domain has a ['.'] that
    is neither its first nor its last character. *)
Definition email_shape (s : JsText) : Prop :=
  ∃ l d, s = l ++ 64%N :: d /\ l ≠ [] /\
    Forall (λ c, not_space_or_at c = true) l /\
    Forall (λ c, not_space_or_at c = true) d /\
    ∃ i, (0 < i < length d - 1)%nat /\ d !! i = Some 46%N.

(** The value of the last entry of a name, as [Object.fromEntries] keeps
    it. *)
Definition last_entry (key : JsText) (entries : list (JsText * FormValue)) : option FormValue :=
  snd <$> last (filter (λ e, fst e = key) entries).

(** What the submit handler accepts: the last entries named [name],
    [email] and [message] exist and are not empty, and the last [email] is
    a text of the shape of an address. *)
Definition form_accepted (entries : list (JsText * FormValue)) : Prop :=
  ∃ n e m,
    last_entry (text "name") entries = Some n /\ n ≠ FormText [] /\
    last_entry (text "email") entries = Some (FormText e) /\ email_shape e /\
    last_entry (text "message") entries = Some m /\ m ≠ FormText [].

(** What holds of the cursor after any run. *)
Record cursor_ok (c : Cursor) : Prop := mkCursorOk {
  ok_queue : frame_queue c = match rafId c with Some id => [id] | None => [] end;
  ok_handle : is_Some (rafId c) -> handles c ≠ 0%nat;
  ok_drawn : rafId c = None -> handles c ≠ 0%nat -> transform c = Some (cursorX c, cursorY c)
}.


(* ================================================================== *)
(** * The theme switch of part_000 *)
(* ================================================================== *)

(** [el.classList.toggle(token, force)]: with [force] the token is added,
    without it removed; the answer is [force]. The trace keeps the element
    and the token. *)
Definition classList_toggle_force (el : Node) (token : string) (force : bool) : JS bool := λ w,
  match TokenList.validate token with
  | Throw e => (Throw e, w)
  | Normal _ =>
      (Normal force,
       record (ClassListToggle el token)
         (with_heap
            (alter (with_classList
                      (if force then TokenList.add token else TokenList.remove token)) el) w))
  end.

(** [el.checked = b] and [el.checked] *)
Definition set_checked (el : Node) (b : bool) : UI unit := λ v,
  (Normal tt,
   mkWindow (page v) (ui v) (if b then {[el]} ∪ checked v else checked v ∖ {[el]})).

Definition get_checked (el : Node) : UI bool := λ v,
  (Normal (bool_decide (el ∈ checked v)), v).

Module ThemeSwitch.

(** The change handler of the theme switch, part_000 lines 222 to 233.
    [target] is [event.target]; [stored] is whether the browser takes the
    write of line 227. *)
Definition onchange (H : Host) (stored : bool) (target : Node) : UI unit :=
  isNowLightMode ← get_checked target;
  D ← lift get_DOM;
  b ← lift (deref (body D));
  lift (classList_toggle_force b "light-mode" isNowLightMode);;
  lift (try_catch
          (localStorage_setItem stored "theme"
             (if (isNowLightMode : bool) then "light-mode" else "dark-mode"))
          (λ _, console "warn" "Could not save theme preference:"));;
  lift (updateRgbaVars H).

(** [setupThemeToggle] of part_000, lines 205 to 235. The listener is
    recorded under the tag of the theme handler, with the type [change]. *)
Definition setupThemeToggle (H : Host) : UI unit :=
  match getElementById H "theme-switch-checkbox" with
  | None => lift (console "warn" "Theme switch checkbox not found")
  | Some themeSwitch =>
      savedTheme ← lift (localStorage_getItem "theme");
      let isLightMode := bool_decide (savedTheme = Some "light-mode") in
      D ← lift get_DOM;
      b ← lift (deref (body D));
      lift (classList_toggle_force b "light-mode" isLightMode);;
      set_checked themeSwitch isLightMode;;
      lift (updateRgbaVars H);;
      lift (addEventListener (TElement themeSwitch) "change" ThemeToggleClick);;
      lift (console "log" "Theme toggle setup complete")
  end.

(** The user flips the switch: the browser changes [checked] and then
    runs the handler. *)
Definition flip (H : Host) (themeSwitch : Node) (stored : bool) (v : Window) : Window :=
  let v1 := mkWindow (page v) (ui v)
              (if bool_decide (themeSwitch ∈ checked v)
               then checked v ∖ {[themeSwitch]} else {[themeSwitch]} ∪ checked v) in
  snd (onchange H stored themeSwitch v1).

(** Flips of the switch, one for each element of [writes], which tells
    whether the browser takes the write of that flip. *)
Definition flips (H : Host) (themeSwitch : Node) (writes : list bool) (v : Window) : Window :=
  fold_left (λ v stored, flip H themeSwitch stored v) writes v.

End ThemeSwitch.

(** The sample page as part_000 expects it: with a theme switch (element
    7), loaded with a saved light theme. *)
Module SampleSwitch.

Definition host : Host :=
  mkHost (document_body Sample.host)
    (λ id, if String.eqb id "theme-switch-checkbox" then Some 7%nat
           else getElementById Sample.host id)
    (querySelector Sample.host) (querySelectorAll Sample.host)
    (element_querySelectorAll Sample.host) (getPropertyValue Sample.host) true true.

Definition loaded : Window :=
  mkWindow (start host Sample.page (Some {["theme" := "light-mode"]})) [] ∅.

End SampleSwitch.

(* ================================================================== *)
(** * Vocabulary of the wiring of [init] *)
(* ================================================================== *)

(** A listener as the trace records it. *)
Definition Listener : Type := EventTarget * string * Handler.

Definition listener_of (c : Call) : option Listener :=
  match c with
  | AddEventListener t type h => Some (t, type, h)
  | _ => None
  end.

(** The listeners registered by a part of the trace, in order. *)
Definition listeners (l : list Call) : list Listener := omap listener_of l.

(** A call that registers no listener. *)
Definition silent (c : Call) : Prop := listener_of c = None.

(** A script that leaves the storage alone and registers no listener,
    however it ends. *)
Definition quiet {A : Type} (m : JS A) : Prop :=
  ∀ w, localStorage (snd (m w)) = localStorage w /\
       ∃ new, calls (snd (m w)) = calls w ++ new /\ Forall silent new.

(** The listeners a page gets: the click listener of the smooth scroll
    always, and one feature each for the menu (toggle and links), the
    custom cursor, the theme button (with a storage that can be read) and
    the contact form. *)
Definition wired (H : Host) (w : World) : list Listener :=
  [(TDocument, "click", AnchorClick)] ++
  match getElementById H "navToggle", getElementById H "navLinks" with
  | Some toggle, Some _ => [(TElement toggle, "click", NavToggleClick)]
  | _, _ => []
  end ++
  match querySelector H ".custom-cursor" with
  | Some _ => [(TDocument, "mousemove", CursorMouseMove);
               (TDocument, "mouseenter", CursorMouseEnter);
               (TDocument, "mouseleave", CursorMouseLeave)]
  | None => []
  end ++
  match getElementById H "theme-toggle", localStorage w with
  | Some toggle, Some _ => [(TElement toggle, "click", ThemeToggleClick)]
  | _, _ => []
  end ++
  match querySelector H ".contact-form" with
  | Some form => [(TElement form, "submit", ContactFormSubmit)]
  | None => []
  end.

(** The world [w'] is reached from [w] with the same cache and storage,
    by calls that register the listeners [L]. *)
Definition reached (w w' : World) (L : list Listener) : Prop :=
  DOM w' = DOM w /\ localStorage w' = localStorage w /\
  ∃ new, calls w' = calls w ++ new /\ listeners new = L.

(* ================================================================== *)
(** * The repository list of part_000 *)
(* ================================================================== *)

Module GitHubRepos.

Local Set Warnings "-register-all".

(** A value of a JSON text. *)
Inductive Json : Type :=
| JNull
| JBool (b : bool)
| JNumber (x : Number.t)
| JString (s : JsText)
| JArray (items : list Json)
| JObject (fields : list (JsText * Json)).

(** What the call of [fetch] and the two [await]s of [fetchGitHubRepos]
    come to: the browser has no [fetch] (the call is a ReferenceError), the
    promise of [fetch] is rejected, or there is a response, whose body is
    a JSON text or not ([response.json()] is rejected). *)
Inductive FetchOutcome : Type :=
| FetchMissing
| FetchRejected
| Response (ok : bool) (status : nat) (body : option Json).

(** A child of the list container: the nodes a markup text was parsed to,
    or a [div] of class [repo-item] with its markup. *)
Inductive Inner : Type :=
| Parsed (html : JsText)
| RepoItem (html : JsText).

(** What the function reads and changes: the children of the container,
    the messages of [console.error] and the addresses [fetch] was called
    with. *)
Record View : Type := mkView {
  content : list Inner;
  errors : list string;
  requested : list string
}.

(** Code inside the [try] block: it completes with a value, or throws
    ([None]); the handler does not look at what was thrown. *)
Definition Attempt (A : Type) : Type := View -> option A * View.

#[export] Instance Attempt_ret : MRet Attempt := λ A a v, (Some a, v).

#[export] Instance Attempt_bind : MBind Attempt := λ A B k m v,
  match m v with
  | (Some a, v') => k a v'
  | (None, v') => (None, v')
  end.

Definition fail {A : Type} : Attempt A := λ v, (None, v).

(** A pure computation that may throw. *)
Definition attempt {A : Type} (o : option A) : Attempt A := λ v, (o, v).

(** [try { m } catch (error) { h }] *)
Definition try_catch_all (m : Attempt unit) (h : Attempt unit) : Attempt unit := λ v,
  match m v with
  | (Some a, v') => (Some a, v')
  | (None, v') => h v'
  end.

(** [container.innerHTML = html]: the children are replaced by what the
    markup is parsed to, nothing for the empty text. *)
Definition set_innerHTML (html : JsText) : Attempt unit := λ v,
  (Some tt, mkView (match html with [] => [] | _ => [Parsed html] end) (errors v) (requested v)).

Definition appendChild (child : Inner) : Attempt unit := λ v,
  (Some tt, mkView (content v ++ [child]) (errors v) (requested v)).

Definition console_error (message : string) : Attempt unit := λ v,
  (Some tt, mkView (content v) (errors v ++ [message]) (requested v)).

(** [await fetch(url)]: the response, with its [ok] flag and what its body
    parses to. *)
Definition fetch (outcome : FetchOutcome) (url : string)
    : Attempt (bool * option Json) := λ v,
  match outcome with
  | FetchMissing => (None, v)
  | FetchRejected => (None, mkView (content v) (errors v) (requested v ++ [url]))
  | Response ok status body =>
      (Some (ok, body), mkView (content v) (errors v) (requested v ++ [url]))
  end.

(** [value.key] for a key that no prototype defines: a TypeError on
    [null], the last field of that name on an object, [undefined] ([None])
    on every other value. *)
Definition get_field (key : string) (value : Json) : option (option Json) :=
  match value with
  | JNull => None
  | JObject fields => Some (snd <$> last (filter (λ f, fst f = text key) fields))
  | _ => Some None
  end.

(** [ToBoolean] of a field. *)
Definition truthy (value : option Json) : bool :=
  match value with
  | None | Some JNull => false
  | Some (JBool b) => b
  | Some (JNumber (S754_zero _)) | Some (JNumber S754_nan) => false
  | Some (JString []) => false
  | Some _ => true
  end.

Definition newline : JsText := [10%N].
Definition dquote : JsText := [34%N].
Definition spaces (n : nat) : JsText := replicate n 32%N.

Definition URL : string :=
  "https://api.github.com/users/Rocky-1018/repos?sort=stars&per_page=5".

Definition FALLBACK : JsText := text "<p>Could not fetch GitHub activity.</p>".

Section Render.

(** [ToString] of a field inside a template, [None] where it throws (an
    object whose [toString] and [valueOf] fields are no functions). *)
Variable to_text : option Json -> option JsText.

(** The template of lines 313 to 318. *)
Definition template (repo : Json) : option JsText :=
  html_url ← get_field "html_url" repo;
  html_url_text ← to_text html_url;
  name ← get_field "name" repo;
  name_text ← to_text name;
  language ← get_field "language" repo;
  stats ← (if truthy language
           then language ← get_field "language" repo;
                language_text ← to_text language;
                Some (text "<p><small>" ++ language_text ++ text "</small></p>")
           else Some []);
  Some (newline ++ spaces 20 ++ text "<h6><a href=" ++ dquote ++ html_url_text ++ dquote ++
        text " target=" ++ dquote ++ text "_blank" ++ dquote ++
        text " rel=" ++ dquote ++ text "noopener noreferrer" ++ dquote ++ text ">" ++
        name_text ++ text "</a></h6>" ++
        newline ++ spaces 20 ++ text "<div class=" ++ dquote ++ text "repo-stats" ++ dquote ++
        text ">" ++
        newline ++ spaces 24 ++ stats ++
        newline ++ spaces 20 ++ text "</div>" ++
        newline ++ spaces 16).

(** The callback of [repos.forEach], lines 309 to 320. *)
Definition show_repo (repo : Json) : Attempt unit :=
  html ← attempt (template repo);
  appendChild (RepoItem html).

Fixpoint for_each (f : Json -> Attempt unit) (l : list Json) : Attempt unit :=
  match l with
  | [] => mret tt
  | x :: l' => f x;; for_each f l'
  end.

(** [repos.forEach(...)]: a TypeError on a value that is no array. *)
Definition forEach_repo (repos : Json) : Attempt unit :=
  match repos with
  | JArray items => for_each show_repo items
  | _ => fail
  end.

(** [fetchGitHubRepos], part_000 lines 296 to 326, as a function of what
    its [await]s settle to. [found] is whether the element [repo-list]
    exists. *)
Definition fetchGitHubRepos (found : bool) (outcome : FetchOutcome) : Attempt unit :=
  if negb found then mret tt
  else
    try_catch_all
      (response ← fetch outcome URL;
       if negb (fst response) then fail
       else
         repos ← attempt (snd response);
         set_innerHTML [];;
         forEach_repo repos)
      (console_error "Error fetching GitHub repos:";;
       set_innerHTML FALLBACK).

End Render.

(** What is shown for a response that can be shown: the markup of every
    repository, in the order of the response. *)
Definition rendering (to_text : option Json -> option JsText) (outcome : FetchOutcome)
    : option (list JsText) :=
  match outcome with
  | Response true _ (Some (JArray items)) => mapM (template to_text) items
  | _ => None
  end.

(** The addresses [fetch] is called with: none where the browser has no
    [fetch]. *)
Definition fetch_calls (outcome : FetchOutcome) : list string :=
  match outcome with
  | FetchMissing => []
  | _ => [URL]
  end.

End GitHubRepos.
(* ================================================================== *)
(** * Properties of binary64 rounding *)
(* ================================================================== *)

Section Binary64.

Local Close Scope string_scope.

(** [SpecFloat.iter_pos] is plain iteration. *)
Lemma iter_pos_nat {A : Type} (f : A -> A) (p : positive) (x : A) :
  SpecFloat.iter_pos f p x = Nat.iter (Pos.to_nat p) f x.
Proof.
  revert x. induction p as [p IH|p IH|]; intros x; cbn [SpecFloat.iter_pos].
  - rewrite !IH, Pos2Nat.inj_xI, <- Nat.iter_add, <- Nat.iter_succ_r.
    f_equal. lia.
  - rewrite !IH, Pos2Nat.inj_xO, <- Nat.iter_add. f_equal. lia.
  - reflexivity.
Qed.

(** One right shift keeps the bit shifted out and the sticky bit. *)
Lemma shr_1_nonneg (m : Z) (r s : bool) :
  0 <= m ->
  shr_1 (Build_shr_record m r s) = Build_shr_record (m / 2) (Z.odd m) (r || s).
Proof.
  intros Hm. destruct m as [|p|p]; [reflexivity| |lia].
  destruct p as [p|p|]; simpl shr_1; f_equal.
  - rewrite Pos2Z.inj_xI. apply Z.div_unique with 1; lia.
  - rewrite Pos2Z.inj_xO. apply Z.div_unique with 0; lia.
Qed.

(** After [k + 1] shifts: the quotient, the last bit shifted out, and
    whether anything below it was set. *)
Lemma shr_iter_spec (M : Z) (k : nat) :
  0 <= M ->
  Nat.iter (S k) shr_1 (Build_shr_record M false false) =
  Build_shr_record (M / 2 ^ (Z.of_nat k + 1)) (Z.odd (M / 2 ^ Z.of_nat k))
                   (negb (M mod 2 ^ Z.of_nat k =? 0)).
Proof.
  intros HM. induction k as [|k IH].
  - change (Nat.iter 1 shr_1 ?x) with (shr_1 x).
    rewrite shr_1_nonneg by lia. change (Z.of_nat 0) with 0.
    rewrite Z.pow_0_r, Z.div_1_r, Z.mod_1_r. reflexivity.
  - rewrite Nat.iter_succ, IH.
    assert (Hp : 0 < 2 ^ Z.of_nat k) by (apply Z.pow_pos_nonneg; lia).
    rewrite shr_1_nonneg by (apply Z.div_pos; [lia | apply Z.pow_pos_nonneg; lia]).
    f_equal.
    + rewrite Z.div_div by lia. f_equal.
      replace (Z.of_nat (S k) + 1) with (Z.of_nat k + 1 + 1) by lia.
      rewrite (Z.pow_add_r 2 (Z.of_nat k + 1) 1) by lia. reflexivity.
    + f_equal. f_equal. f_equal. lia.
    + replace (Z.of_nat (S k)) with (Z.of_nat k + 1) by lia.
      rewrite (Z.pow_add_r 2 (Z.of_nat k) 1) by lia. change (2 ^ 1) with 2.
      rewrite Z.rem_mul_r by lia.
      rewrite Zmod_odd.
      pose proof (Z.mod_pos_bound M (2 ^ Z.of_nat k) Hp) as Hb.
      destruct (Z.odd (M / 2 ^ Z.of_nat k)); simpl.
      * symmetry. apply negb_true_iff, Z.eqb_neq. lia.
      * f_equal. rewrite Z.mul_0_r, Z.add_0_r. reflexivity.
Qed.

(** Rounding to nearest even after the shift is off by at most half a unit
    of the last kept place. *)
Lemma round_nearest_even_shr (M : Z) (k : nat) :
  0 <= M ->
  let mrs := Nat.iter (S k) shr_1 (Build_shr_record M false false) in
  let m1 := round_nearest_even (shr_m mrs) (loc_of_shr_record mrs) in
  let n := Z.of_nat k + 1 in
  M / 2 ^ n <= m1 <= M / 2 ^ n + 1 /\ 2 * Z.abs (m1 * 2 ^ n - M) <= 2 ^ n.
Proof.
  intros HM mrs m1 n. subst mrs m1. rewrite shr_iter_spec by assumption.
  fold n. cbn [shr_m].
  assert (Hk : 0 < 2 ^ Z.of_nat k) by (apply Z.pow_pos_nonneg; lia).
  assert (Hn : 2 ^ n = 2 ^ Z.of_nat k * 2).
  { unfold n. rewrite Z.pow_add_r by lia. reflexivity. }
  pose proof (Z.div_mod M (2 ^ n) ltac:(lia)) as Hdm.
  pose proof (Z.rem_mul_r M (2 ^ Z.of_nat k) 2 ltac:(lia) ltac:(lia)) as Hrem.
  rewrite <- Hn, Zmod_odd in Hrem.
  pose proof (Z.mod_pos_bound M (2 ^ Z.of_nat k) Hk) as Hb.
  set (q := M / 2 ^ n) in *. set (lo := M mod 2 ^ Z.of_nat k) in *.
  destruct (Z.odd (M / 2 ^ Z.of_nat k)); cbn [loc_of_shr_record].
  - destruct (Z.eqb_spec lo 0) as [Hz|Hz]; cbn [negb round_nearest_even].
    + destruct (Z.even q); lia.
    + lia.
  - destruct (negb (lo =? 0)); cbn [round_nearest_even]; lia.
Qed.

Lemma digits2_pos_bounds (p : positive) :
  2 ^ (Z.pos (digits2_pos p) - 1) <= Z.pos p < 2 ^ Z.pos (digits2_pos p).
Proof.
  induction p as [p IH|p IH|]; cbn [digits2_pos].
  - rewrite Pos2Z.inj_succ. change (Z.pos p~1) with (2 * Z.pos p + 1).
    replace (Z.succ (Z.pos (digits2_pos p)) - 1)
      with (Z.succ (Z.pos (digits2_pos p) - 1)) by lia.
    rewrite !Z.pow_succ_r by lia. lia.
  - rewrite Pos2Z.inj_succ. change (Z.pos p~0) with (2 * Z.pos p).
    replace (Z.succ (Z.pos (digits2_pos p)) - 1)
      with (Z.succ (Z.pos (digits2_pos p) - 1)) by lia.
    rewrite !Z.pow_succ_r by lia. lia.
  - simpl. lia.
Qed.

Lemma Zdigits2_unique (x d : Z) :
  2 ^ (d - 1) <= x < 2 ^ d -> 0 < d -> Zdigits2 x = d.
Proof.
  intros [Hlo Hhi] Hd.
  assert (0 < x) by (pose proof (Z.pow_pos_nonneg 2 (d - 1)); lia).
  destruct x as [|p|p]; try lia. cbn [Zdigits2].
  pose proof (digits2_pos_bounds p) as [Hl Hh].
  set (d' := Z.pos (digits2_pos p)) in *.
  assert (d' - 1 < d) by (apply (Z.pow_lt_mono_r_iff 2); lia).
  assert (d - 1 < d') by (apply (Z.pow_lt_mono_r_iff 2); lia).
  lia.
Qed.

(** The shift [shr_fexp] performs on a [d]-bit mantissa in the normal range. *)
Lemma shr_fexp_exact (m e d : Z) :
  2 ^ (d - 1) <= m < 2 ^ d -> 53 <= d -> -1074 <= e + d - 53 ->
  shr_fexp prec emax m e loc_Exact =
  (Nat.iter (Z.to_nat (d - 53)) shr_1 (Build_shr_record m false false), e + (d - 53)).
Proof.
  intros Hm Hd He. unfold shr_fexp, fexp, SpecFloat.emin, prec, emax.
  rewrite (Zdigits2_unique m d) by lia.
  rewrite Z.max_l by lia. cbn [shr_record_of_loc].
  replace (d + e - 53 - e) with (d - 53) by lia.
  destruct (d - 53) as [|p|p] eqn:Hs; try lia.
  - cbn [shr]. rewrite Z.add_0_r. reflexivity.
  - cbn [shr]. rewrite iter_pos_nat. reflexivity.
Qed.

(** Rounding a long positive mantissa: the result is a normal number within
    half a unit in the last place of the exact value. *)
Lemma binary_round_aux_spec (M : positive) (E d : Z) :
  2 ^ (d - 1) <= Z.pos M < 2 ^ d -> 54 <= d ->
  -1074 <= E + d - 53 -> E + d - 52 <= 971 ->
  exists m e,
    binary_round_aux prec emax false (Z.pos M) E loc_Exact = S754_finite false m e /\
    2 ^ 52 <= Z.pos m < 2 ^ 53 /\
    E + d - 53 <= e <= E + d - 52 /\
    2 * Z.abs (Z.pos m * 2 ^ (e - E) - Z.pos M) <= 2 ^ (d - 53).
Proof.
  intros HM Hd Hlo Hhi. unfold binary_round_aux.
  rewrite (shr_fexp_exact _ _ d) by lia.
  destruct (Z.to_nat (d - 53)) as [|k] eqn:Hk; [lia|].
  cbv beta iota zeta.
  pose proof (round_nearest_even_shr (Z.pos M) k ltac:(lia)) as Hr.
  cbv zeta in Hr.
  set (mrs := Nat.iter (S k) shr_1 _) in *.
  set (m1 := round_nearest_even (shr_m mrs) (loc_of_shr_record mrs)) in *.
  assert (Hn : Z.of_nat k + 1 = d - 53) by lia. rewrite Hn in Hr.
  destruct Hr as [Hq Herr].
  assert (Hpow : 2 ^ d = 2 ^ 53 * 2 ^ (d - 53)).
  { rewrite <- Z.pow_add_r by lia. f_equal. lia. }
  assert (Hpow' : 2 ^ (d - 1) = 2 ^ 52 * 2 ^ (d - 53)).
  { rewrite <- Z.pow_add_r by lia. f_equal. lia. }
  assert (Hs : 0 < 2 ^ (d - 53)) by (apply Z.pow_pos_nonneg; lia).
  assert (Hquot : 2 ^ 52 <= Z.pos M / 2 ^ (d - 53) < 2 ^ 53).
  { split.
    - apply Z.div_le_lower_bound; lia.
    - apply Z.div_lt_upper_bound; lia. }
  destruct (Z.eq_dec m1 (2 ^ 53)) as [Htop|Htop].
  - (* the rounded mantissa reached 2^53: one more shift *)
    rewrite (shr_fexp_exact m1 _ 54) by lia.
    change (Z.to_nat (54 - 53)) with 1%nat.
    change (Nat.iter 1 shr_1 ?x) with (shr_1 x).
    rewrite shr_1_nonneg by lia. cbn [shr_m]. rewrite Htop.
    change (2 ^ 53 / 2) with (Z.pos 4503599627370496).
    cbv iota beta.
    replace (E + (d - 53) + (54 - 53) <=? emax - prec) with true
      by (symmetry; apply Z.leb_le; unfold emax, prec; lia).
    eexists _, _. split; [reflexivity|].
    split; [lia|]. split; [lia|].
    replace (E + (d - 53) + (54 - 53) - E) with (1 + (d - 53)) by lia.
    rewrite Z.pow_add_r by lia.
    rewrite Htop in Herr. lia.
  - (* the rounded mantissa still has 53 bits *)
    rewrite (shr_fexp_exact m1 _ 53) by lia.
    change (Z.to_nat (53 - 53)) with 0%nat. cbn [Nat.iter nat_rect shr_m].
    destruct m1 as [|m|m] eqn:Hm1; try lia.
    replace (E + (d - 53) + (53 - 53) <=? emax - prec) with true
      by (symmetry; apply Z.leb_le; unfold emax, prec; lia).
    eexists _, _. split; [reflexivity|].
    split; [lia|]. split; [lia|].
    replace (E + (d - 53) + (53 - 53) - E) with (d - 53) by lia.
    exact Herr.
Qed.

Lemma pos_iter_xO (m s : positive) :
  Z.pos (Pos.iter xO m s) = Z.pos m * 2 ^ Z.pos s.
Proof.
  induction s as [|s IH] using Pos.peano_ind.
  - simpl. lia.
  - rewrite Pos.iter_succ, Pos2Z.inj_succ.
    rewrite Z.pow_succ_r by (apply Pos2Z.is_nonneg).
    change (Z.pos (Pos.iter xO m s)~0) with (2 * Z.pos (Pos.iter xO m s)). lia.
Qed.

(** A 53-bit mantissa is left as it is. *)
Lemma binary_round_aux_53 (m : positive) (e : Z) :
  2 ^ 52 <= Z.pos m < 2 ^ 53 -> -1074 <= e <= 971 ->
  binary_round_aux prec emax false (Z.pos m) e loc_Exact = S754_finite false m e.
Proof.
  intros Hm He. unfold binary_round_aux.
  rewrite (shr_fexp_exact _ _ 53) by lia.
  change (Z.to_nat (53 - 53)) with 0%nat. cbn [Nat.iter nat_rect].
  cbn [shr_m loc_of_shr_record round_nearest_even].
  rewrite (shr_fexp_exact _ _ 53) by lia.
  change (Z.to_nat (53 - 53)) with 0%nat. cbn [Nat.iter nat_rect shr_m].
  replace (e + (53 - 53) + (53 - 53) <=? emax - prec) with true
    by (symmetry; apply Z.leb_le; unfold emax, prec; lia).
  f_equal. lia.
Qed.

(** An index below 2^53 is converted exactly. *)
Lemma of_nat_spec (n : nat) (d : Z) :
  2 ^ (d - 1) <= Z.of_nat n < 2 ^ d -> 0 < d <= 53 ->
  exists m, Number.of_nat n = S754_finite false m (d - 53) /\
            2 ^ 52 <= Z.pos m < 2 ^ 53 /\
            Z.pos m = Z.of_nat n * 2 ^ (53 - d).
Proof.
  intros Hn Hd. unfold Number.of_nat, binary_normalize.
  assert (Hpos : 0 < Z.of_nat n) by (pose proof (Z.pow_pos_nonneg 2 (d - 1)); lia).
  destruct (Z.of_nat n) as [|p|p] eqn:Hp; try lia.
  unfold binary_round.
  change (Z.pos (digits2_pos p)) with (Zdigits2 (Z.pos p)).
  rewrite (Zdigits2_unique _ d) by lia.
  unfold fexp, SpecFloat.emin, prec, emax. rewrite Z.add_0_r, Z.max_l by lia.
  unfold shl_align. rewrite Z.sub_0_r.
  assert (Hpow : 2 ^ 53 = 2 ^ d * 2 ^ (53 - d)).
  { rewrite <- Z.pow_add_r by lia. f_equal. lia. }
  assert (Hpow' : 2 ^ 52 = 2 ^ (d - 1) * 2 ^ (53 - d)).
  { rewrite <- Z.pow_add_r by lia. f_equal. lia. }
  assert (Hs : 0 < 2 ^ (53 - d)) by (apply Z.pow_pos_nonneg; lia).
  destruct (d - 53) as [|s|s] eqn:Hs'; try lia.
  - assert (d = 53) by lia. subst d. change (2 ^ (53 - 53)) with 1 in *.
    exists p. rewrite binary_round_aux_53 by lia. repeat split; lia.
  - assert (Hm : Z.pos (Pos.iter xO p s) = Z.pos p * 2 ^ (53 - d)).
    { rewrite pos_iter_xO. f_equal. f_equal. lia. }
    exists (Pos.iter xO p s).
    rewrite binary_round_aux_53 by nia.
    repeat split; nia.
Qed.

(** The product of an index [n] (of [d] bits) and a normal step
    [mc * 2^ec], scaled by [2^(52 - ec)], is within [2^(d + 51)] of the
    exact product. *)
Lemma mul_index_spec (n : nat) (d : Z) (mc : positive) (ec : Z) :
  2 ^ (d - 1) <= Z.of_nat n < 2 ^ d -> 0 < d <= 53 ->
  2 ^ 52 <= Z.pos mc < 2 ^ 53 -> -1074 <= ec <= 917 ->
  exists m e,
    Number.mul (Number.of_nat n) (S754_finite false mc ec) = S754_finite false m e /\
    2 ^ 52 <= Z.pos m < 2 ^ 53 /\ ec <= e /\
    2 * Z.abs (Z.pos m * 2 ^ (e - ec + 52) - Z.of_nat n * Z.pos mc * 2 ^ 52)
      <= 2 ^ (d + 52).
Proof.
  intros Hn Hd Hmc Hec.
  destruct (of_nat_spec n d Hn Hd) as (mi & -> & Hmi & Hval).
  unfold Number.mul. cbn [SFmul xorb].
  pose proof (digits2_pos_bounds (mi * mc)) as HD.
  set (D := Z.pos (digits2_pos (mi * mc))) in *.
  assert (HM : 2 ^ 104 <= Z.pos (mi * mc) < 2 ^ 106).
  { rewrite Pos2Z.inj_mul. change (2 ^ 104) with (2 ^ 52 * 2 ^ 52).
    change (2 ^ 106) with (2 ^ 53 * 2 ^ 53). nia. }
  assert (HDr : 105 <= D <= 106).
  { split.
    - assert (104 < D); [|lia]. apply (Z.pow_lt_mono_r_iff 2); lia.
    - assert (D - 1 < 106); [|lia]. apply (Z.pow_lt_mono_r_iff 2); lia. }
  destruct (binary_round_aux_spec (mi * mc) (d - 53 + ec) D HD)
    as (m & e & -> & Hm & He & Herr); [lia..|].
  exists m, e. split; [reflexivity|]. split; [exact Hm|]. split; [lia|].
  replace (e - ec + 52) with ((e - (d - 53 + ec)) + (d - 1)) by lia.
  rewrite Z.pow_add_r by lia.
  rewrite Pos2Z.inj_mul, Hval in Herr.
  assert (Hp1 : 2 ^ 52 = 2 ^ (53 - d) * 2 ^ (d - 1)).
  { rewrite <- Z.pow_add_r by lia. f_equal. lia. }
  assert (Hp2 : 2 ^ (D - 53) <= 2 ^ 53) by (apply Z.pow_le_mono_r; lia).
  assert (Hp3 : 2 ^ (d + 52) = 2 ^ 53 * 2 ^ (d - 1)).
  { rewrite <- Z.pow_add_r by lia. f_equal. lia. }
  assert (Hp4 : 0 < 2 ^ (d - 1)) by (apply Z.pow_pos_nonneg; lia).
  rewrite Hp1, Hp3.
  set (A := Z.pos m * 2 ^ (e - (d - 53 + ec))) in *.
  set (B := Z.of_nat n * 2 ^ (53 - d) * Z.pos mc) in *.
  replace (Z.pos m * (2 ^ (e - (d - 53 + ec)) * 2 ^ (d - 1)) -
           Z.of_nat n * Z.pos mc * (2 ^ (53 - d) * 2 ^ (d - 1)))
    with ((A - B) * 2 ^ (d - 1)) by (unfold A, B; ring).
  rewrite Z.abs_mul, (Z.abs_eq (2 ^ (d - 1))) by lia.
  nia.
Qed.

(** Comparing two normal numbers through their scaled values. *)
Lemma SFltb_scaled (m1 : positive) (e1 : Z) (m2 : positive) (e2 c : Z) :
  2 ^ 52 <= Z.pos m1 < 2 ^ 53 -> 2 ^ 52 <= Z.pos m2 < 2 ^ 53 ->
  0 <= e1 + c -> 0 <= e2 + c ->
  Z.pos m1 * 2 ^ (e1 + c) < Z.pos m2 * 2 ^ (e2 + c) ->
  SFltb (S754_finite false m1 e1) (S754_finite false m2 e2) = true.
Proof.
  intros H1 H2 Hc1 Hc2 Hlt. unfold SFltb, SFcompare.
  assert (Hp2 : 0 < 2 ^ (e2 + c)) by (apply Z.pow_pos_nonneg; lia).
  destruct (Z.compare_spec e1 e2) as [->|Hl|Hg]; [|reflexivity|exfalso].
  - change (Pos.compare_cont Eq m1 m2) with (Pos.compare m1 m2).
    assert (Hm : (m1 < m2)%positive) by (apply Pos2Z.pos_lt_pos; nia).
    unfold Pos.lt in Hm. rewrite Hm. reflexivity.
  - assert (Hs : 2 ^ (e1 + c) = 2 ^ (e1 - e2) * 2 ^ (e2 + c)).
    { rewrite <- Z.pow_add_r by lia. f_equal. lia. }
    assert (Hge : 2 ^ 1 <= 2 ^ (e1 - e2)) by (apply Z.pow_le_mono_r; lia).
    change (2 ^ 1) with 2 in Hge. rewrite Hs in Hlt. nia.
Qed.

Lemma index_digits (n : nat) :
  (0 < n)%nat -> Z.of_nat n < 2 ^ 32 ->
  exists d, 2 ^ (d - 1) <= Z.of_nat n < 2 ^ d /\ 0 < d <= 32.
Proof.
  intros Hn Hb. exists (Z.log2 (Z.of_nat n) + 1).
  pose proof (Z.log2_spec (Z.of_nat n) ltac:(lia)) as Hl.
  pose proof (Z.log2_nonneg (Z.of_nat n)).
  replace (Z.log2 (Z.of_nat n) + 1 - 1) with (Z.log2 (Z.of_nat n)) by lia.
  split; [exact Hl|].
  assert (Z.log2 (Z.of_nat n) < 32) by (apply Z.log2_lt_pow2; lia). lia.
Qed.

(** The stagger delays grow strictly with the index, for every index a
    node list can have (its length is a 32-bit unsigned integer). *)
Lemma delay_strictly_increasing (step : Number.t) (i j : nat) :
  Number.normal_step step ->
  (i < j)%nat -> Z.of_nat j < 2 ^ 32 ->
  Number.ltb (delay step i) (delay step j) = true.
Proof.
  intros Hstep Hij Hj. unfold delay, Number.ltb.
  destruct step as [| | |[] mc ec]; try contradiction.
  destruct Hstep as [Hmc Hec].
  destruct (index_digits j ltac:(lia) Hj) as (dj & Hdj & Hdj32).
  destruct (mul_index_spec j dj mc ec Hdj ltac:(lia) Hmc Hec)
    as (m2 & e2 & -> & Hm2 & He2 & Herr2).
  destruct i as [|i'].
  { reflexivity. }
  set (i := S i') in *.
  destruct (index_digits i ltac:(lia) ltac:(lia)) as (di & Hdi & Hdi32).
  destruct (mul_index_spec i di mc ec Hdi ltac:(lia) Hmc Hec)
    as (m1 & e1 & -> & Hm1 & He1 & Herr1).
  apply (SFltb_scaled _ _ _ _ (52 - ec)); try lia.
  replace (e1 + (52 - ec)) with (e1 - ec + 52) by lia.
  replace (e2 + (52 - ec)) with (e2 - ec + 52) by lia.
  assert (Hbi : 2 ^ (di + 52) <= 2 ^ 84) by (apply Z.pow_le_mono_r; lia).
  assert (Hbj : 2 ^ (dj + 52) <= 2 ^ 84) by (apply Z.pow_le_mono_r; lia).
  assert (Hgap : Z.of_nat i * Z.pos mc * 2 ^ 52 + 2 ^ 104
                 <= Z.of_nat j * Z.pos mc * 2 ^ 52).
  { change (2 ^ 104) with (2 ^ 52 * 2 ^ 52). nia. }
  change (2 ^ 104) with (2 ^ 20 * 2 ^ 84) in Hgap.
  set (R1 := Z.pos m1 * 2 ^ (e1 - ec + 52)) in *.
  set (R2 := Z.pos m2 * 2 ^ (e2 - ec + 52)) in *.
  set (X1 := Z.of_nat i * Z.pos mc * 2 ^ 52) in *.
  set (X2 := Z.of_nat j * Z.pos mc * 2 ^ 52) in *.
  assert (0 < 2 ^ 84) by (apply Z.pow_pos_nonneg; lia).
  change (2 ^ 20) with 1048576 in Hgap.
  lia.
Qed.

End Binary64.

(* ================================================================== *)
(** * Reasoning about scripts *)
(* ================================================================== *)

Section Scripts.

Lemma bind_normal {A B : Type} (m : JS A) (k : A -> JS B) (w w' : World) (a : A) :
  m w = (Normal a, w') -> (m ≫= k) w = k a w'.
Proof. intros E. unfold mbind, JS_bind. rewrite E. reflexivity. Qed.

Lemma bind_throw {A B : Type} (m : JS A) (k : A -> JS B) (w w' : World) (e : Exn) :
  m w = (Throw e, w') -> (m ≫= k) w = (Throw e, w').
Proof. intros E. unfold mbind, JS_bind. rewrite E. reflexivity. Qed.

Lemma heap_alter (f : Element -> Element) (el x : Node) (h : Node -> Element) :
  alter f el h x = if decide (el = x) then f (h el) else h x.
Proof. reflexivity. Qed.

Lemma validate_default : TokenList.validate "animate-fade-in-up" = Normal tt.
Proof. reflexivity. Qed.

Lemma validate_hidden : TokenList.validate "animate-initially-hidden" = Normal tt.
Proof. reflexivity. Qed.

(** Under [tag_ok] the class the script adds is the tag or the default, and
    it is a valid token. *)
Lemma animationType_ok (e : Element) :
  tag_ok e ->
  animationType (attributes e !! "data-animation") = tag_or_default e /\
  TokenList.validate (tag_or_default e) = Normal tt.
Proof.
  unfold tag_ok, tag_or_default, animationType.
  destruct (attributes e !! "data-animation") as [[|c s]|]; intros Hok.
  - split; reflexivity.
  - split; [reflexivity|]. unfold TokenList.validate.
    cbn [String.eqb]. rewrite Hok. reflexivity.
  - split; reflexivity.
Qed.

Lemma elem_of_token_add (tok t : string) (l : list string) :
  t ∈ TokenList.add tok l <-> t = tok \/ t ∈ l.
Proof.
  unfold TokenList.add, TokenList.contains. case_bool_decide as Hin.
  - split; [auto|]. intros [->|?]; assumption.
  - rewrite elem_of_app, list_elem_of_singleton. tauto.
Qed.

Lemma elem_of_token_remove (tok t : string) (l : list string) :
  t ∈ TokenList.remove tok l <-> t ≠ tok /\ t ∈ l.
Proof. unfold TokenList.remove. apply (list_elem_of_filter (λ t, t ≠ tok)). Qed.

Lemma token_add_present (tok : string) (l : list string) :
  tok ∈ l -> TokenList.add tok l = l.
Proof.
  intros Hin. unfold TokenList.add, TokenList.contains.
  rewrite bool_decide_eq_true_2 by assumption. reflexivity.
Qed.

(** ** The [effect] relation *)

Lemma effect_refl (T R : Node -> Prop) (w : World) : effect T R w w.
Proof. constructor; auto. Qed.

Lemma effect_trans (T R : Node -> Prop) (w1 w2 w3 : World) :
  effect T R w1 w2 -> effect T R w2 w3 -> effect T R w1 w3.
Proof.
  intros [] []. constructor; try congruence; auto.
  - intros x Hx. rewrite eff_frame1, eff_frame0; auto.
  - set_solver.
Qed.

Lemma effect_weaken (T T' R R' : Node -> Prop) (w w' : World) :
  (∀ x, T x -> T' x) -> (∀ x, R x -> R' x) ->
  effect T R w w' -> effect T' R' w w'.
Proof. intros HT HR []. constructor; auto. Qed.

Lemma effect_bind {A B : Type} (T R : Node -> Prop) (m : JS A) (k : A -> JS B) (w : World) :
  effect T R w (snd (m w)) ->
  (∀ a w1, effect T R w1 (snd (k a w1))) ->
  effect T R w (snd ((m ≫= k) w)).
Proof.
  intros Hm Hk. unfold mbind, JS_bind. destruct (m w) as [[a|e] w1]; simpl in *.
  - eapply effect_trans; [exact Hm|apply Hk].
  - exact Hm.
Qed.

Lemma effect_forEach_from {A : Type} (T R : Node -> Prop) (f : A -> nat -> JS unit) (l : list A) :
  (∀ x i w, x ∈ l -> effect T R w (snd (f x i w))) ->
  ∀ i w, effect T R w (snd (forEach_from f i l w)).
Proof.
  induction l as [|x l IH]; intros Hf i w; simpl.
  - apply effect_refl.
  - apply effect_bind.
    + apply Hf. left.
    + intros _ w1. apply IH. intros y j w2 Hy. apply Hf. right. exact Hy.
Qed.

Lemma effect_set_animationDelay (el : Node) (x : Number.t) (w : World) :
  effect (eq el) (λ _, False) w (snd (set_animationDelay el x w)).
Proof.
  constructor; simpl; auto.
  - intros y Hy. rewrite heap_alter. destruct (decide (el = y)); [contradiction|reflexivity].
  - intros y. rewrite heap_alter. destruct (decide (el = y)) as [->|]; reflexivity.
  - intros y tok. rewrite heap_alter. destruct (decide (el = y)) as [->|]; auto.
  - intros y. rewrite heap_alter. destruct (decide (el = y)) as [->|]; simpl; eauto.
Qed.

Lemma effect_classList_add (el : Node) (tok : string) (w : World) :
  effect (eq el) (λ _, False) w (snd (classList_add el tok w)).
Proof.
  unfold classList_add. destruct (TokenList.validate tok); [|apply effect_refl].
  constructor; simpl; auto.
  - intros y Hy. rewrite heap_alter. destruct (decide (el = y)); [contradiction|reflexivity].
  - intros y. rewrite heap_alter. destruct (decide (el = y)) as [->|]; reflexivity.
  - intros y t. rewrite heap_alter. destruct (decide (el = y)) as [->|]; simpl; auto.
    intros Hin. apply elem_of_token_add. auto.
  - intros y. rewrite heap_alter. destruct (decide (el = y)) as [->|]; simpl; eauto.
Qed.

Lemma watched_unobserve (s : Node) (w : World) :
  watched (snd (unobserve s w)) = watched w ∖ {[s]}.
Proof.
  unfold watched, unobserve. simpl. destruct (observer w); simpl; set_solver.
Qed.

Lemma effect_unobserve (s : Node) (w : World) :
  effect (λ _, False) (eq s) w (snd (unobserve s w)).
Proof.
  constructor; try (simpl; auto; fail).
  - simpl. destruct (observer w); reflexivity.
  - rewrite watched_unobserve. set_solver.
  - intros t Ht Hne. rewrite watched_unobserve. set_solver.
Qed.

Lemma effect_reveal (step : Number.t) (el : Node) (i : nat) (w : World) :
  effect (eq el) (λ _, False) w (snd (reveal step el i w)).
Proof.
  unfold reveal. apply effect_bind; [apply effect_refl|].
  intros tag w1. apply effect_bind; [apply effect_set_animationDelay|].
  intros _ w2. apply effect_classList_add.
Qed.

Lemma effect_onEntry (step : Number.t) (H : Host) (e : Entry) (w : World) :
  effect (λ x, isIntersecting e = true /\
               x ∈ element_querySelectorAll H (target e) ANIMATABLE)
         (λ t, isIntersecting e = true /\ t = target e)
         w (snd (onEntry step H e w)).
Proof.
  unfold onEntry. destruct (isIntersecting e); simpl; [|apply effect_refl].
  apply effect_bind.
  - apply effect_forEach_from. intros x i w1 Hx.
    eapply effect_weaken; [| |apply effect_reveal]; simpl.
    + intros y <-. auto.
    + tauto.
  - intros _ w1. eapply effect_weaken; [| |apply effect_unobserve]; simpl.
    + tauto.
    + intros t <-. auto.
Qed.

Lemma effect_observerCallback (step : Number.t) (H : Host) (batch : list Entry) (w : World) :
  effect (λ x, ∃ e, e ∈ batch /\ isIntersecting e = true /\
                    x ∈ element_querySelectorAll H (target e) ANIMATABLE)
         (λ t, ∃ e, e ∈ batch /\ isIntersecting e = true /\ t = target e)
         w (snd (observerCallback step H batch w)).
Proof.
  unfold observerCallback, forEach. apply effect_forEach_from.
  intros e i w1 He.
  eapply effect_weaken; [| |apply effect_onEntry]; simpl; intros; eauto.
Qed.

Lemma effect_deliver (H : Host) (batch : list Entry) (w : World) :
  effect (λ x, ∃ e, e ∈ batch /\ target e ∈ watched w /\ isIntersecting e = true /\
                    x ∈ element_querySelectorAll H (target e) ANIMATABLE)
         (λ t, ∃ e, e ∈ batch /\ isIntersecting e = true /\ t = target e)
         w (deliver H batch w).
Proof.
  unfold deliver. destruct (observer w) as [o|] eqn:Ho; [|apply effect_refl].
  eapply effect_weaken; [| |apply effect_observerCallback]; simpl.
  - intros x (e & He & Hi & Hx). apply list_elem_of_filter in He as [Ht He].
    exists e. unfold watched. rewrite Ho. auto.
  - intros t (e & He & Hi & Hx). apply list_elem_of_filter in He as [Ht He]. eauto.
Qed.

(** ** The reveal loop on well-formed tags *)

Lemma reveal_spec (step : Number.t) (el : Node) (i : nat) (w : World) :
  tag_ok (heap w el) ->
  ∃ w', reveal step el i w = (Normal tt, w') /\
        DOM w' = DOM w /\ rootStyle w' = rootStyle w /\
        localStorage w' = localStorage w /\ observer w' = observer w /\
        calls w' = calls w ++ [SetAnimationDelay el (delay step i);
                               ClassListAdd el (tag_or_default (heap w el))] /\
        (∀ x, x ≠ el -> heap w' x = heap w x) /\
        heap w' el = revealed step i (heap w el).
Proof.
  intros Hok. destruct (animationType_ok _ Hok) as [Hty Hval].
  unfold reveal, mbind, JS_bind, dataset_animation, set_animationDelay, classList_add.
  rewrite Hty, Hval. eexists. split; [reflexivity|]. simpl.
  repeat split.
  - rewrite <- app_assoc. reflexivity.
  - intros x Hx. rewrite !heap_alter. destruct (decide (el = x)); congruence.
  - rewrite !heap_alter. destruct (decide (el = el)); [reflexivity|congruence].
Qed.

Lemma tag_or_default_attributes (e e' : Element) :
  attributes e' = attributes e -> tag_or_default e' = tag_or_default e.
Proof. unfold tag_or_default. intros ->. reflexivity. Qed.

Lemma forEach_reveal_spec (step : Number.t) (els : list Node) :
  ∀ (i0 : nat) (w : World),
    NoDup els -> (∀ el, el ∈ els -> tag_ok (heap w el)) ->
    ∃ w', forEach_from (reveal step) i0 els w = (Normal tt, w') /\
          DOM w' = DOM w /\ rootStyle w' = rootStyle w /\
          localStorage w' = localStorage w /\ observer w' = observer w /\
          calls w' = calls w ++
            concat (imap (λ k el, [SetAnimationDelay el (delay step (i0 + k)%nat);
                                   ClassListAdd el (tag_or_default (heap w el))]) els) /\
          (∀ x, x ∉ els -> heap w' x = heap w x) /\
          (∀ k el, els !! k = Some el -> heap w' el = revealed step (i0 + k)%nat (heap w el)).
Proof.
  induction els as [|el els IH]; intros i0 w Hnd Hok.
  - exists w. simpl. rewrite app_nil_r. repeat split; auto. intros k el Hk. discriminate.
  - apply NoDup_cons in Hnd as [Hnotin Hnd].
    destruct (reveal_spec step el i0 w (Hok el ltac:(left)))
      as (w1 & E1 & HD1 & HR1 & HL1 & HO1 & HC1 & HF1 & HE1).
    assert (Hsame : ∀ x, x ∈ els -> heap w1 x = heap w x).
    { intros x Hx. apply HF1. intros ->. contradiction. }
    destruct (IH (S i0) w1 Hnd) as (w' & E' & HD' & HR' & HL' & HO' & HC' & HF' & HE').
    { intros x Hx. rewrite Hsame by assumption. apply Hok. right. exact Hx. }
    exists w'. split.
    { simpl. rewrite (bind_normal _ _ _ _ _ E1). exact E'. }
    repeat split; try congruence.
    + rewrite HC', HC1. simpl. rewrite <- app_assoc. f_equal.
      rewrite Nat.add_0_r. simpl. f_equal. f_equal. f_equal.
      apply imap_ext. intros k x Hk. simpl.
      rewrite Hsame by (eapply list_elem_of_lookup_2; exact Hk).
      rewrite Nat.add_succ_r. reflexivity.
    + intros x Hx. apply not_elem_of_cons in Hx as [Hne Hx].
      rewrite HF' by assumption. apply HF1. exact Hne.
    + intros [|k] x Hk; simpl in Hk.
      * injection Hk as <-. rewrite HF' by assumption. rewrite HE1.
        rewrite Nat.add_0_r. reflexivity.
      * rewrite (HE' k x Hk).
        rewrite Hsame by (eapply list_elem_of_lookup_2; exact Hk).
        replace (S i0 + k)%nat with (i0 + S k)%nat by lia. reflexivity.
Qed.

(** A qualifying report on well-formed tags: the whole section is revealed
    and released. *)
Lemma onEntry_spec (step : Number.t) (H : Host) (e : Entry) (w : World) :
  let els := element_querySelectorAll H (target e) ANIMATABLE in
  isIntersecting e = true -> NoDup els ->
  (∀ el, el ∈ els -> tag_ok (heap w el)) ->
  ∃ w', onEntry step H e w = (Normal tt, w') /\
        calls w' = calls w ++ reveal_calls step w els ++ [Unobserve (target e)] /\
        watched w' = watched w ∖ {[target e]} /\
        (∀ x, x ∉ els -> heap w' x = heap w x) /\
        (∀ k el, els !! k = Some el -> heap w' el = revealed step k (heap w el)).
Proof.
  intros els Hi Hnd Hok. unfold onEntry. rewrite Hi. simpl.
  destruct (forEach_reveal_spec step els 0 w Hnd Hok)
    as (w1 & E1 & HD1 & HR1 & HL1 & HO1 & HC1 & HF1 & HE1).
  unfold forEach. fold els. rewrite (bind_normal _ _ _ _ _ E1).
  eexists. split; [reflexivity|]. simpl. repeat split.
  - rewrite HC1. unfold reveal_calls. rewrite <- app_assoc. reflexivity.
  - unfold watched. simpl. rewrite HO1. destruct (observer w); simpl; set_solver.
  - exact HF1.
  - exact HE1.
Qed.

End Scripts.

(* ================================================================== *)
(** * The properties *)
(* ================================================================== *)

(** Closed decidable goals, by evaluation. *)
Ltac decide_now := apply (bool_decide_unpack _); vm_compute; exact I.

(** The cases of a membership in a list that is written out. *)
Ltac list_cases Hin :=
  repeat (apply elem_of_cons in Hin as [-> | Hin]);
  [.. | apply elem_of_nil in Hin; contradiction].

Section Counting.

Variable step : Number.t.
Variable w : World.

Lemma reveal_calls_other (el : Node) (els : list Node) (i0 : nat) (f : Call -> bool) :
  (∀ x d, x ≠ el -> f (SetAnimationDelay x d) = false) ->
  (∀ x t, x ≠ el -> f (ClassListAdd x t) = false) ->
  el ∉ els ->
  List.filter f
    (concat (imap (λ k x, [SetAnimationDelay x (delay step (i0 + k)%nat);
                           ClassListAdd x (tag_or_default (heap w x))]) els)) = [].
Proof.
  intros Hd Hc. revert i0. induction els as [|x els IH]; intros i0 Hnotin; [reflexivity|].
  apply not_elem_of_cons in Hnotin as [Hne Hnotin]. simpl.
  rewrite Hd, Hc by congruence.
  erewrite imap_ext; [apply (IH (S i0) Hnotin)|].
  intros k y _. simpl. rewrite Nat.add_succ_r. reflexivity.
Qed.

Lemma reveal_calls_delay (el : Node) (els : list Node) (i0 k : nat) :
  NoDup els -> els !! k = Some el ->
  List.filter (sets_delay_of el)
    (concat (imap (λ k x, [SetAnimationDelay x (delay step (i0 + k)%nat);
                           ClassListAdd x (tag_or_default (heap w x))]) els))
  = [SetAnimationDelay el (delay step (i0 + k)%nat)].
Proof.
  revert i0 k. induction els as [|x els IH]; intros i0 k Hnd Hk; [discriminate|].
  apply NoDup_cons in Hnd as [Hnotin Hnd]. destruct k as [|k]; simpl in Hk.
  - injection Hk as ->. simpl. rewrite bool_decide_eq_true_2 by reflexivity.
    rewrite Nat.add_0_r. f_equal.
    erewrite imap_ext; [apply (reveal_calls_other el els (S i0))|]; auto.
    + intros y d Hy. simpl. apply bool_decide_eq_false_2. exact Hy.
    + intros j y _. simpl. rewrite Nat.add_succ_r. reflexivity.
  - assert (x ≠ el).
    { intros ->. apply Hnotin. eapply list_elem_of_lookup_2. exact Hk. }
    simpl. rewrite bool_decide_eq_false_2 by assumption.
    erewrite imap_ext; [rewrite (IH (S i0) k Hnd Hk)|].
    + rewrite Nat.add_succ_r. reflexivity.
    + intros j y _. simpl. rewrite Nat.add_succ_r. reflexivity.
Qed.

Lemma reveal_calls_class (el : Node) (els : list Node) (i0 k : nat) :
  NoDup els -> els !! k = Some el ->
  List.filter (adds_class_to el)
    (concat (imap (λ k x, [SetAnimationDelay x (delay step (i0 + k)%nat);
                           ClassListAdd x (tag_or_default (heap w x))]) els))
  = [ClassListAdd el (tag_or_default (heap w el))].
Proof.
  revert i0 k. induction els as [|x els IH]; intros i0 k Hnd Hk; [discriminate|].
  apply NoDup_cons in Hnd as [Hnotin Hnd]. destruct k as [|k]; simpl in Hk.
  - injection Hk as ->. simpl. rewrite bool_decide_eq_true_2 by reflexivity.
    f_equal.
    erewrite imap_ext; [apply (reveal_calls_other el els (S i0))|]; auto.
    + intros y t Hy. simpl. apply bool_decide_eq_false_2. exact Hy.
    + intros j y _. simpl. rewrite Nat.add_succ_r. reflexivity.
  - assert (x ≠ el).
    { intros ->. apply Hnotin. eapply list_elem_of_lookup_2. exact Hk. }
    simpl. rewrite bool_decide_eq_false_2 by assumption.
    erewrite imap_ext; [rewrite (IH (S i0) k Hnd Hk)|].
    + reflexivity.
    + intros j y _. simpl. rewrite Nat.add_succ_r. reflexivity.
Qed.

End Counting.

Lemma normal_step_script : Number.normal_step ScriptJs.STEP.
Proof. simpl. lia. Qed.

Lemma normal_step_part000 : Number.normal_step Part000.STEP.
Proof. simpl. lia. Qed.

(** C1, as amended. When a watched section is revealed (script.js, step
    0.1 s) and no [data-animation] tag of its animatable descendants holds
    white space, every animatable descendant, in the document order of the
    query just made, gets exactly one delay assignment, equal to
    [index * step], and exactly one class addition, of its explicit
    [data-animation] tag if it has one that is not empty and of the default
    otherwise; the delays grow strictly with the index, and the first three
    are 0, 0.1 and 0.2. *)
Theorem reveal_staggers_descendants (H : Host) (w : World) (entry : Entry) :
  let els := element_querySelectorAll H (target entry) ANIMATABLE in
  isIntersecting entry = true ->
  NoDup els ->
  Z.of_nat (length els) <= 2 ^ 32 ->
  (∀ el, el ∈ els -> tag_ok (heap w el)) ->
  ∃ w' new,
    onEntry ScriptJs.STEP H entry w = (Normal tt, w') /\
    calls w' = calls w ++ new /\
    new = reveal_calls ScriptJs.STEP w els ++ [Unobserve (target entry)] /\
    (∀ i el, els !! i = Some el ->
       List.filter (sets_delay_of el) new = [SetAnimationDelay el (delay ScriptJs.STEP i)] /\
       List.filter (adds_class_to el) new = [ClassListAdd el (tag_or_default (heap w el))] /\
       animationDelay (heap w' el) = Some (delay ScriptJs.STEP i) /\
       tag_or_default (heap w el) ∈ classList (heap w' el)) /\
    (∀ i j, (i < j < length els)%nat ->
       Number.ltb (delay ScriptJs.STEP i) (delay ScriptJs.STEP j) = true) /\
    delay ScriptJs.STEP 0 = Number.lit_0 /\
    delay ScriptJs.STEP 1 = Number.lit_0_1 /\
    delay ScriptJs.STEP 2 = Number.lit_0_2.
Proof.
  intros els Hi Hnd Hlen Hok.
  destruct (onEntry_spec ScriptJs.STEP H entry w Hi Hnd Hok)
    as (w' & E & HC & HW & HF & HE).
  exists w', (reveal_calls ScriptJs.STEP w els ++ [Unobserve (target entry)]).
  split; [exact E|]. split; [exact HC|]. split; [reflexivity|].
  split; [|split; [|repeat split; reflexivity]].
  - intros i el Hel. fold els in HE. rewrite (HE i el Hel).
    pose proof (reveal_calls_delay ScriptJs.STEP w el els 0 i Hnd Hel) as Hd.
    pose proof (reveal_calls_class ScriptJs.STEP w el els 0 i Hnd Hel) as Hc.
    cbn [Nat.add] in Hd, Hc.
    unfold reveal_calls. rewrite !List.filter_app, Hd, Hc.
    repeat split. apply elem_of_token_add. left. reflexivity.
  - intros i j [Hij Hj]. apply delay_strictly_increasing.
    + exact normal_step_script.
    + exact Hij.
    + lia.
Qed.

(** The scenario of the specification: one section with three descendants
    without explicit tags, step 0.1 s. *)
Lemma reveal_staggers_descendants_witness :
  ∃ w', onEntry ScriptJs.STEP Sample.host (mkEntry 10%nat true) Sample.ready = (Normal tt, w') /\
        animationDelay (heap w' 11%nat) = Some Number.lit_0 /\
        animationDelay (heap w' 12%nat) = Some Number.lit_0_1 /\
        animationDelay (heap w' 13%nat) = Some Number.lit_0_2 /\
        "animate-fade-in-up" ∈ classList (heap w' 11%nat) /\
        "animate-fade-in-up" ∈ classList (heap w' 12%nat) /\
        "animate-fade-in-up" ∈ classList (heap w' 13%nat).
Proof.
  destruct (reveal_staggers_descendants Sample.host Sample.ready (mkEntry 10%nat true))
    as (w' & new & E & _ & _ & Hels & _ & H0 & H1 & H2).
  - reflexivity.
  - decide_now.
  - vm_compute. discriminate.
  - intros el Hel.
    change (el ∈ [11; 12; 13]%nat) in Hel.
    list_cases Hel; vm_compute; exact I.
  - exists w'. split; [exact E|].
    destruct (Hels 0%nat 11%nat eq_refl) as (_ & _ & Hd0 & Hc0).
    destruct (Hels 1%nat 12%nat eq_refl) as (_ & _ & Hd1 & Hc1).
    destruct (Hels 2%nat 13%nat eq_refl) as (_ & _ & Hd2 & Hc2).
    rewrite Hd0, Hd1, Hd2, H0, H1, H2. repeat split; assumption.
Defined.

(** C1, as stated, fails: on the sample page with the tag [fade in] on
    the second descendant of section 10, [classList.add] throws at that
    descendant. The report ends with an InvalidCharacterError after three
    calls: the second descendant has a delay and no animation class, the
    third has neither. And a descendant with an empty tag, which is a tag
    that is present, gets the default class, not its tag. *)
Lemma reveal_tag_counterexample :
  let r := onEntry ScriptJs.STEP Sample.host (mkEntry 10%nat true) Sample.odd_ready in
  let new := calls_since Sample.odd_ready (snd r) in
  let r13 := reveal ScriptJs.STEP 13%nat 2 Sample.odd_ready in
  (element_querySelectorAll Sample.host 10%nat ANIMATABLE = [11; 12; 13]%nat /\
   attributes (heap Sample.odd_ready 12%nat) !! "data-animation" = Some "fade in" /\
   fst r = Throw InvalidCharacterError /\
   new = [SetAnimationDelay 11%nat Number.lit_0;
          ClassListAdd 11%nat "animate-fade-in-up";
          SetAnimationDelay 12%nat Number.lit_0_1] /\
   List.filter (adds_class_to 12%nat) new = [] /\
   List.filter (sets_delay_of 13%nat) new = [] /\
   List.filter (adds_class_to 13%nat) new = [] /\
   heap (snd r) 13%nat = heap Sample.odd_ready 13%nat /\
   animationDelay (heap (snd r) 13%nat) = None) /\
  (attributes (heap Sample.odd_ready 13%nat) !! "data-animation" = Some "" /\
   fst r13 = Normal tt /\
   calls_since Sample.odd_ready (snd r13)
   = [SetAnimationDelay 13%nat Number.lit_0_2; ClassListAdd 13%nat "animate-fade-in-up"]).
Proof. cbv zeta. repeat split; vm_compute; reflexivity. Qed.

(** C6. With no watched sections (an empty list, or a cache that was never
    filled) the set-up of the reveal engine, in either variant, does
    nothing and returns normally: the world is left as it was, so no
    observer is created and no element is marked, whatever the host
    offers. *)
Theorem setup_without_sections (step : Number.t) (H : Host) (w : World) :
  sections (DOM w) = None \/ sections (DOM w) = Some [] ->
  setupScrollAnimations step H w = (Normal tt, w).
Proof.
  intros [E|E]; unfold setupScrollAnimations, mbind, JS_bind, get_DOM;
    rewrite E; reflexivity.
Qed.

Lemma setup_without_sections_witness :
  setupScrollAnimations ScriptJs.STEP Sample.old_host Sample.loaded
  = (Normal tt, Sample.loaded).
Proof. apply setup_without_sections. left. reflexivity. Defined.

(** C5. A qualifying report for a section whose query matches no
    descendant completes normally and still releases the section: the only
    call made is [unobserve], and the section is no longer watched. *)
Theorem empty_section_unsubscribes (step : Number.t) (H : Host) (entry : Entry) (w : World) :
  isIntersecting entry = true ->
  element_querySelectorAll H (target entry) ANIMATABLE = [] ->
  ∃ w', onEntry step H entry w = (Normal tt, w') /\
        calls w' = calls w ++ [Unobserve (target entry)] /\
        heap w' = heap w /\
        watched w' = watched w ∖ {[target entry]} /\
        target entry ∉ watched w'.
Proof.
  intros Hi Hq. exists (snd (unobserve (target entry) w)).
  split; [unfold onEntry; rewrite Hi, Hq; reflexivity|].
  rewrite watched_unobserve. repeat split. set_solver.
Qed.

Lemma empty_section_unsubscribes_witness :
  ∃ w', onEntry ScriptJs.STEP Sample.host (mkEntry 30%nat true) Sample.ready = (Normal tt, w') /\
        30%nat ∈ watched Sample.ready /\ 30%nat ∉ watched w'.
Proof.
  destruct (empty_section_unsubscribes ScriptJs.STEP Sample.host (mkEntry 30%nat true) Sample.ready)
    as (w' & E & _ & _ & _ & Hout).
  - reflexivity.
  - reflexivity.
  - exists w'. split; [exact E|]. split; [|exact Hout].
    apply (bool_decide_unpack _). vm_compute. exact I.
Defined.

Lemma callback_idle (step : Number.t) (H : Host) (batch : list Entry) :
  (∀ e, e ∈ batch -> isIntersecting e = false) ->
  ∀ i w, forEach_from (λ entry _, onEntry step H entry) i batch w = (Normal tt, w).
Proof.
  induction batch as [|e batch IH]; intros Hidle i w; [reflexivity|].
  simpl. unfold mbind, JS_bind, onEntry at 1.
  rewrite (Hidle e) by left. simpl.
  apply IH. intros e' He'. apply Hidle. right. exact He'.
Qed.

(** C3, as amended. A report that does not qualify changes nothing, and
    the section stays watched: a batch of such reports leaves the world as
    it is. When the qualifying reports of a batch are all for one section
    [s], every other section stays watched and those of its descendants
    that are not also descendants of [s] are left exactly as they were: the
    hidden flag stays, no class and no delay is added. *)
Theorem reveal_leaves_other_sections
  (step : Number.t) (H : Host) (batch : list Entry) (w : World) (s : Node) :
  (∀ e, e ∈ batch -> isIntersecting e = true -> target e = s) ->
  ((∀ e, e ∈ batch -> isIntersecting e = false) ->
   observerCallback step H batch w = (Normal tt, w)) /\
  ∀ t, t ≠ s ->
    (t ∈ watched w -> t ∈ watched (snd (observerCallback step H batch w))) /\
    ∀ el, el ∈ element_querySelectorAll H t ANIMATABLE ->
          el ∉ element_querySelectorAll H s ANIMATABLE ->
          heap (snd (observerCallback step H batch w)) el = heap w el.
Proof.
  intros Honly. split.
  - intros Hidle. apply callback_idle. exact Hidle.
  - intros t Hts. destruct (effect_observerCallback step H batch w) as [].
    split.
    + intros Ht. apply eff_released0; [exact Ht|].
      intros (e & He & Hi & ->). apply Hts. apply Honly; assumption.
    + intros el _ Hnot. apply eff_frame0.
      intros (e & He & Hi & Hel). apply Hnot.
      rewrite <- (Honly e He Hi). exact Hel.
Qed.

(** The scenario of the specification: three watched sections, only the
    second qualifies. *)
Lemma reveal_leaves_other_sections_witness :
  let batch := [mkEntry 10%nat false; mkEntry 20%nat true; mkEntry 30%nat false] in
  let w' := snd (observerCallback ScriptJs.STEP Sample.host batch Sample.ready) in
  (10%nat ∈ watched w' /\ 30%nat ∈ watched w') /\
  (heap w' 11%nat = heap Sample.ready 11%nat /\
   heap w' 12%nat = heap Sample.ready 12%nat /\
   heap w' 13%nat = heap Sample.ready 13%nat) /\
  classList (heap Sample.ready 11%nat) = ["animate-initially-hidden"] /\
  animationDelay (heap Sample.ready 11%nat) = None.
Proof.
  intros batch w'.
  destruct (reveal_leaves_other_sections ScriptJs.STEP Sample.host batch Sample.ready 20%nat)
    as [_ Hothers].
  - intros e He Hi. unfold batch in He.
    repeat (apply elem_of_cons in He as [-> | He]); try discriminate;
      [reflexivity | apply elem_of_nil in He; contradiction].
  - destruct (Hothers 10%nat ltac:(discriminate)) as [Hw10 Hf10].
    destruct (Hothers 30%nat ltac:(discriminate)) as [Hw30 _].
    assert (Hnot : ∀ el, el ∈ [11; 12; 13]%nat ->
                         el ∉ element_querySelectorAll Sample.host 20%nat ANIMATABLE).
    { intros el Hel. list_cases Hel; decide_now. }
    assert (Hin : ∀ el, el ∈ [11; 12; 13]%nat ->
                        el ∈ element_querySelectorAll Sample.host 10%nat ANIMATABLE).
    { intros el Hel. exact Hel. }
    split; [split; [apply Hw10|apply Hw30]; decide_now|].
    split; [|split; reflexivity].
    split; [|split]; (apply Hf10; [apply Hin|apply Hnot]; decide_now).
Defined.

(** C3, as stated, fails: on the page with section 20 inside section 10,
    a batch in which only section 10 qualifies reveals the descendant 21 of
    section 20 too, while section 20 stays watched. *)
Lemma nested_reveal_counterexample :
  let batch := [mkEntry 10%nat true; mkEntry 20%nat false] in
  let w' := snd (observerCallback ScriptJs.STEP Nested.host batch Nested.ready) in
  watched Nested.ready = {[10%nat; 20%nat]} /\
  20%nat ∈ watched w' /\
  element_querySelectorAll Nested.host 20%nat ANIMATABLE = [21; 22]%nat /\
  classList (heap Nested.ready 21%nat) = ["animate-initially-hidden"] /\
  animationDelay (heap Nested.ready 21%nat) = None /\
  classList (heap w' 21%nat) = ["animate-initially-hidden"; "animate-fade-in-up"] /\
  animationDelay (heap w' 21%nat) = Some Number.lit_0_1 /\
  heap w' 21%nat ≠ heap Nested.ready 21%nat.
Proof.
  cbv zeta. split; [apply (bool_decide_unpack _); vm_compute; exact I|].
  split; [decide_now|].
  repeat (split; [vm_compute; reflexivity|]).
  intros Heq. apply (f_equal animationDelay) in Heq. vm_compute in Heq. discriminate.
Qed.

Section Setup.

Variable H : Host.

Abbreviation hidden := "animate-initially-hidden".

Lemma mark_hidden_spec (els : list Node) :
  ∀ (i : nat) (w : World),
    ∃ w', forEach_from (λ el (_ : nat), classList_add el hidden) i els w = (Normal tt, w') /\
          calls w' = calls w ++ map (λ el, ClassListAdd el hidden) els /\
          observer w' = observer w /\
          (∀ x tok, tok ∈ classList (heap w x) -> tok ∈ classList (heap w' x)) /\
          (∀ el, el ∈ els -> hidden ∈ classList (heap w' el)).
Proof.
  induction els as [|el els IH]; intros i w.
  - exists w. simpl. rewrite app_nil_r. repeat split; auto. intros el Hel.
    apply elem_of_nil in Hel. contradiction.
  - set (w1 := snd (classList_add el hidden w)).
    assert (E1 : classList_add el hidden w = (Normal tt, w1)) by reflexivity.
    destruct (IH (S i) w1) as (w' & E' & HC' & HO' & HM' & HA').
    exists w'. split.
    { simpl. rewrite (bind_normal _ _ _ _ _ E1). exact E'. }
    destruct (effect_classList_add el hidden w) as []. fold w1 in eff_classes0.
    repeat split.
    + rewrite HC'. simpl. rewrite <- app_assoc. reflexivity.
    + rewrite HO'. reflexivity.
    + intros x tok Hx. apply HM', eff_classes0, Hx.
    + intros x Hx. apply elem_of_cons in Hx as [-> | Hx]; [|apply HA'; exact Hx].
      apply HM'. unfold w1. simpl. rewrite heap_alter.
      destruct (decide (el = el)); [|congruence]. simpl.
      apply elem_of_token_add. left. reflexivity.
Qed.

Lemma prepare_spec (s : Node) (w : World) :
  ∃ w', prepare H s w = (Normal tt, w') /\
        calls w' = calls w ++ map (λ el, ClassListAdd el hidden)
                                  (element_querySelectorAll H s ANIMATABLE) ++ [Observe s] /\
        observer w' = with_targets (union {[s]}) <$> observer w /\
        (∀ x tok, tok ∈ classList (heap w x) -> tok ∈ classList (heap w' x)) /\
        (∀ el, el ∈ element_querySelectorAll H s ANIMATABLE ->
               hidden ∈ classList (heap w' el)).
Proof.
  destruct (mark_hidden_spec (element_querySelectorAll H s ANIMATABLE) 0 w)
    as (w1 & E1 & HC1 & HO1 & HM1 & HA1).
  exists (snd (observe s w1)). split.
  { unfold prepare, forEach. rewrite (bind_normal _ _ _ _ _ E1). reflexivity. }
  simpl. repeat split; auto.
  - rewrite HC1, <- app_assoc. reflexivity.
  - rewrite HO1. reflexivity.
Qed.

Lemma prepare_all_spec (secs : list Node) :
  ∀ (i : nat) (w : World) (o : Observer),
    observer w = Some o ->
    ∃ w', forEach_from (λ section (_ : nat), prepare H section) i secs w = (Normal tt, w') /\
          calls w' = calls w ++ prepare_calls H secs /\
          observer w' = Some (with_targets (union (list_to_set secs)) o) /\
          (∀ x tok, tok ∈ classList (heap w x) -> tok ∈ classList (heap w' x)) /\
          (∀ s el, s ∈ secs -> el ∈ element_querySelectorAll H s ANIMATABLE ->
                   hidden ∈ classList (heap w' el)).
Proof.
  induction secs as [|s secs IH]; intros i w o Ho.
  - exists w. simpl. unfold prepare_calls. simpl. rewrite app_nil_r.
    repeat split; auto.
    + rewrite Ho. f_equal. destruct o as [st T]. unfold with_targets. simpl.
      f_equal. apply leibniz_equiv. set_solver.
    + intros s el Hs. apply elem_of_nil in Hs. contradiction.
  - destruct (prepare_spec s w) as (w1 & E1 & HC1 & HO1 & HM1 & HA1).
    rewrite Ho in HO1. simpl in HO1.
    destruct (IH (S i) w1 _ HO1) as (w' & E' & HC' & HO' & HM' & HA').
    exists w'. split.
    { simpl. rewrite (bind_normal _ _ _ _ _ E1). exact E'. }
    repeat split.
    + rewrite HC', HC1. unfold prepare_calls. simpl. rewrite <- !app_assoc. reflexivity.
    + rewrite HO'. f_equal. destruct o as [st T]. unfold with_targets. simpl.
      f_equal. apply leibniz_equiv. set_solver.
    + intros x tok Hx. apply HM', HM1, Hx.
    + intros t el Ht Hel. apply elem_of_cons in Ht as [-> | Ht].
      * apply HM', HA1, Hel.
      * apply (HA' t el Ht Hel).
Qed.

(** In the calls that prepare the sections, the flag of a descendant is
    added before its section is observed. *)
Lemma prepare_calls_order (secs : list Node) (s el : Node) :
  s ∈ secs -> el ∈ element_querySelectorAll H s ANIMATABLE ->
  ∃ before after, prepare_calls H secs = before ++ Observe s :: after /\
                  ClassListAdd el hidden ∈ before.
Proof.
  intros Hs Hel. apply list_elem_of_split in Hs as (l1 & l2 & ->).
  unfold prepare_calls. rewrite map_app, concat_app. simpl.
  set (before := concat (map _ l1)). set (after := concat (map _ l2)).
  exists (before ++ map (λ el, ClassListAdd el hidden)
                        (element_querySelectorAll H s ANIMATABLE)), after.
  split.
  - rewrite <- !app_assoc. reflexivity.
  - apply elem_of_app. right. apply list_elem_of_fmap. exists el. auto.
Qed.

Lemma deliver_all_classes (batches : list (list Entry)) :
  ∀ (w : World) (x : Node) (tok : string),
    tok ∈ classList (heap w x) -> tok ∈ classList (heap (deliver_all H batches w) x).
Proof.
  induction batches as [|b batches IH]; intros w x tok Hx; [exact Hx|].
  simpl. apply IH. destruct (effect_deliver H b w) as []. auto.
Qed.

End Setup.

(** C4. The set-up completes normally when there are sections and an
    observer can be made; it makes the observer, then for each section adds
    the hidden flag to every descendant and only then observes the
    section: in the trace the flag of a descendant precedes the
    registration of its section, and every descendant carries the flag when
    the set-up returns. No later delivery removes a class, so the flag is
    still there on every revealed element. Before the observer exists no
    report is delivered. *)
Theorem hidden_before_observing
  (step : Number.t) (H : Host) (w : World) (secs : list Node) :
  sections (DOM w) = Some secs -> secs ≠ [] -> has_IntersectionObserver H = true ->
  ∃ w',
    setupScrollAnimations step H w = (Normal tt, w') /\
    calls w' = calls w ++ [NewIntersectionObserver] ++ prepare_calls H secs ++
               [Console "log" "Scroll animations setup complete"] /\
    watched w' = list_to_set secs /\
    (∀ s el, s ∈ secs -> el ∈ element_querySelectorAll H s ANIMATABLE ->
       (∃ before after, prepare_calls H secs = before ++ Observe s :: after /\
                        ClassListAdd el "animate-initially-hidden" ∈ before) /\
       "animate-initially-hidden" ∈ classList (heap w' el) /\
       ∀ batches, "animate-initially-hidden"
                    ∈ classList (heap (deliver_all H batches w') el)) /\
    (∀ batches x tok, tok ∈ classList (heap w' x) ->
                      tok ∈ classList (heap (deliver_all H batches w') x)) /\
    (observer w = None -> ∀ batch, deliver H batch w = w).
Proof.
  intros Hsecs Hne Hio.
  set (w0 := record NewIntersectionObserver
               (with_observer (λ _, Some (mkObserver step ∅)) w)).
  destruct (prepare_all_spec H secs 0 w0 (mkObserver step ∅) eq_refl)
    as (w1 & E1 & HC1 & HO1 & HM1 & HA1).
  exists (snd (console "log" "Scroll animations setup complete" w1)).
  split.
  { unfold setupScrollAnimations, mbind at 1, JS_bind at 1, get_DOM.
    rewrite Hsecs. destruct secs as [|s0 secs']; [congruence|].
    cbn [length Nat.eqb].
    assert (E0 : new_IntersectionObserver H step w = (Normal tt, w0)).
    { unfold new_IntersectionObserver. rewrite Hio. reflexivity. }
    rewrite (bind_normal _ _ _ _ _ E0).
    unfold forEach. rewrite (bind_normal _ _ _ _ _ E1). reflexivity. }
  split.
  { simpl. rewrite HC1. simpl. rewrite <- !app_assoc. reflexivity. }
  split.
  { unfold watched. simpl. rewrite HO1. simpl. apply leibniz_equiv. set_solver. }
  split.
  - intros s el Hs Hel. split; [apply prepare_calls_order; assumption|].
    assert (Hflag : "animate-initially-hidden"
                      ∈ classList (heap (snd (console "log" "Scroll animations setup complete" w1)) el)).
    { simpl. apply (HA1 s el Hs Hel). }
    split; [exact Hflag|].
    intros batches. apply deliver_all_classes. exact Hflag.
  - split; [intros batches x tok; apply deliver_all_classes|].
    intros Hnone batch. unfold deliver. rewrite Hnone. reflexivity.
Qed.

Lemma hidden_before_observing_witness :
  ∃ w', setupScrollAnimations ScriptJs.STEP Sample.host
          (snd (cacheDOMElements Sample.host Sample.loaded)) = (Normal tt, w') /\
        watched w' = list_to_set [10; 20; 30]%nat /\
        "animate-initially-hidden" ∈ classList (heap w' 22%nat) /\
        "animate-initially-hidden"
          ∈ classList (heap (deliver_all Sample.host [[mkEntry 20%nat true]] w') 22%nat).
Proof.
  destruct (hidden_before_observing ScriptJs.STEP Sample.host
              (snd (cacheDOMElements Sample.host Sample.loaded)) [10; 20; 30]%nat)
    as (w' & E & _ & Hw & Hels & _ & _).
  - reflexivity.
  - discriminate.
  - reflexivity.
  - exists w'. split; [exact E|]. split; [exact Hw|].
    destruct (Hels 20%nat 22%nat) as (_ & Hflag & Hlater).
    + decide_now.
    + decide_now.
    + split; [exact Hflag|apply Hlater].
Defined.

Section Colours.

Lemma digit_value_bound (c : ascii) (v : N) :
  digit_value c = Some v -> (v <= 15)%N.
Proof.
  unfold digit_value.
  repeat match goal with
         | |- context [if ?b then _ else _] => destruct b eqn:?
         end; intros [= <-];
    repeat match goal with
           | E : (_ && _)%bool = true |- _ => apply andb_prop in E as [? ?]
           | E : (_ <=? _)%N = true |- _ => apply N.leb_le in E
           end; lia.
Qed.

Lemma is_hex_digit_value (c : ascii) :
  is_hex_digit c = true -> ∃ v, digit_value c = Some v.
Proof. unfold is_hex_digit. destruct (digit_value c); [eauto|discriminate]. Qed.

Lemma value_is_hex_digit (c : ascii) (v : N) :
  digit_value c = Some v -> is_hex_digit c = true.
Proof. unfold is_hex_digit. intros ->. reflexivity. Qed.

Lemma hash_not_hex : is_hex_digit "#" = false.
Proof. reflexivity. Qed.

Lemma parseInt16_pair (a b : ascii) (va vb : N) :
  digit_value a = Some va -> digit_value b = Some vb ->
  parseInt16 (String a (String b EmptyString)) = Some (16 * va + vb)%N.
Proof.
  intros Ha Hb. unfold parseInt16. simpl. rewrite Ha, Hb. simpl. f_equal; lia.
Qed.

Lemma exec_color_digits (a b c d e f : ascii) :
  exec_color (six a b c d e f) =
  if forallb is_hex_digit [a; b; c; d; e; f]
  then Some (String a (String b EmptyString), String c (String d EmptyString),
             String e (String f EmptyString))
  else None.
Proof.
  unfold exec_color, six. destruct (Ascii.eqb_spec a "#") as [->|Hne]; [|reflexivity].
  simpl. reflexivity.
Qed.

Lemma exec_color_hash (a b c d e f : ascii) :
  exec_color (String "#" (six a b c d e f)) =
  if forallb is_hex_digit [a; b; c; d; e; f]
  then Some (String a (String b EmptyString), String c (String d EmptyString),
             String e (String f EmptyString))
  else None.
Proof. reflexivity. Qed.

(** What the pattern accepts, and what it captures. *)
Lemma exec_color_some (s r g b : string) :
  exec_color s = Some (r, g, b) ->
  ∃ c1 c2 c3 c4 c5 c6,
    forallb is_hex_digit [c1; c2; c3; c4; c5; c6] = true /\
    (s = six c1 c2 c3 c4 c5 c6 \/ s = String "#" (six c1 c2 c3 c4 c5 c6)) /\
    r = String c1 (String c2 EmptyString) /\
    g = String c3 (String c4 EmptyString) /\
    b = String c5 (String c6 EmptyString).
Proof.
  unfold exec_color. intros E.
  set (rest := match s with
               | EmptyString => s
               | String c r0 => if (c =? "#")%char then r0 else s
               end) in *.
  assert (Hrest : s = rest \/ s = String "#" rest).
  { subst rest. destruct s as [|c s']; [left; reflexivity|].
    destruct (Ascii.eqb_spec c "#") as [->|_]; [right|left]; reflexivity. }
  clearbody rest.
  destruct rest as [|c1 [|c2 [|c3 [|c4 [|c5 [|c6 [|c7 rest]]]]]]]; try discriminate.
  destruct (forallb is_hex_digit [c1; c2; c3; c4; c5; c6]) eqn:Hhex; [|discriminate].
  injection E as <- <- <-. exists c1, c2, c3, c4, c5, c6. auto.
Qed.

Lemma forallb_six (c1 c2 c3 c4 c5 c6 : ascii) :
  forallb is_hex_digit [c1; c2; c3; c4; c5; c6] = true <->
  is_hex_digit c1 = true /\ is_hex_digit c2 = true /\ is_hex_digit c3 = true /\
  is_hex_digit c4 = true /\ is_hex_digit c5 = true /\ is_hex_digit c6 = true.
Proof.
  simpl. rewrite !andb_true_iff. tauto.
Qed.

Lemma hexToRgb_string (s : string) (w : World) :
  fst (hexToRgb (JsString s) w) =
  Normal (if negb (String.eqb s "") && includes_char "#" s
          then match exec_color s with
               | Some (r, g, b) =>
                   (show_int (parseInt16 r) ++ "," ++ show_int (parseInt16 g) ++ "," ++
                    show_int (parseInt16 b))%string
               | None => "0,0,0"
               end
          else "0,0,0").
Proof.
  unfold hexToRgb, ToBoolean.
  destruct (String.eqb s ""); [reflexivity|]. cbn [negb andb].
  destruct (includes_char "#" s); [|reflexivity]. cbn [negb].
  unfold try_catch. destruct (exec_color s) as [[[r g] b]|]; reflexivity.
Qed.

Lemma hexToRgb_not_string (hex : JsValue) (w : World) :
  (∀ s, hex ≠ JsString s) -> fst (hexToRgb hex w) = Normal "0,0,0".
Proof.
  intros Hns. destruct hex as [| |b|x|s|]; try reflexivity.
  - destruct b; reflexivity.
  - destruct x as [| | |sg m e]; reflexivity.
  - exfalso. apply (Hns s). reflexivity.
Qed.

Lemma string_or_not (hex : JsValue) :
  (∃ s, hex = JsString s) \/ (∀ s, hex ≠ JsString s).
Proof. destruct hex; eauto; right; discriminate. Qed.

End Colours.

(** C9. [hexToRgb] never throws: for every value it returns a text of three
    decimal components, each between 0 and 255, separated by commas. For a
    value that is not a string, a string without ['#'], or a string the
    pattern (six hexadecimal digits after an optional ['#']) does not
    accept, the text is the fallback ["0,0,0"]; so six digits without
    ['#'] and the short form ["#abc"] give the fallback. For a string
    ["#RRGGBB"] it is the decimal values of the three digit pairs. *)
Theorem hexToRgb_total (hex : JsValue) (w : World) :
  (∃ r g b, (r <= 255)%N /\ (g <= 255)%N /\ (b <= 255)%N /\
            fst (hexToRgb hex w) = Normal (rgb_text r g b)) /\
  ((∀ s, hex ≠ JsString s) -> fst (hexToRgb hex w) = Normal "0,0,0") /\
  (∀ s, hex = JsString s -> includes_char "#" s = false ->
        fst (hexToRgb hex w) = Normal "0,0,0") /\
  (∀ s, hex = JsString s -> ¬ color_pattern s ->
        fst (hexToRgb hex w) = Normal "0,0,0") /\
  fst (hexToRgb (JsString "a1b2c3") w) = Normal "0,0,0" /\
  fst (hexToRgb (JsString "#abc") w) = Normal "0,0,0" /\
  (∀ a b c d e f va vb vc vd ve vf,
     digit_value a = Some va -> digit_value b = Some vb ->
     digit_value c = Some vc -> digit_value d = Some vd ->
     digit_value e = Some ve -> digit_value f = Some vf ->
     hex = JsString (String "#" (String a (String b (String c
                       (String d (String e (String f EmptyString))))))) ->
     fst (hexToRgb hex w)
     = Normal (rgb_text (16 * va + vb) (16 * vc + vd) (16 * ve + vf))).
Proof.
  assert (Hfallback : ∃ r g b, (r <= 255)%N /\ (g <= 255)%N /\ (b <= 255)%N /\
                               Normal (A := string) "0,0,0" = Normal (rgb_text r g b)).
  { exists 0%N, 0%N, 0%N. repeat split; lia. }
  split; [|split; [|split; [|split; [|split; [|split]]]]].
  - destruct (string_or_not hex) as [[s ->]|Hns].
    + rewrite hexToRgb_string.
      destruct (negb (String.eqb s "") && includes_char "#" s); [|exact Hfallback].
      destruct (exec_color s) as [[[r g] b]|] eqn:E; [|exact Hfallback].
      apply exec_color_some in E as (c1 & c2 & c3 & c4 & c5 & c6 & Hhex & _ & -> & -> & ->).
      apply forallb_six in Hhex as (H1 & H2 & H3 & H4 & H5 & H6).
      apply is_hex_digit_value in H1 as [v1 H1], H2 as [v2 H2], H3 as [v3 H3],
        H4 as [v4 H4], H5 as [v5 H5], H6 as [v6 H6].
      rewrite (parseInt16_pair _ _ _ _ H1 H2), (parseInt16_pair _ _ _ _ H3 H4),
        (parseInt16_pair _ _ _ _ H5 H6).
      apply digit_value_bound in H1, H2, H3, H4, H5, H6.
      exists (16 * v1 + v2)%N, (16 * v3 + v4)%N, (16 * v5 + v6)%N.
      repeat split; try lia.
    + rewrite hexToRgb_not_string by exact Hns. exact Hfallback.
  - apply hexToRgb_not_string.
  - intros s -> Hno. rewrite hexToRgb_string, Hno, andb_false_r. reflexivity.
  - intros s -> Hnot. rewrite hexToRgb_string.
    destruct (negb (String.eqb s "") && includes_char "#" s); [|reflexivity].
    destruct (exec_color s) as [[[r g] b]|] eqn:E; [|reflexivity].
    exfalso. apply Hnot.
    apply exec_color_some in E as (c1 & c2 & c3 & c4 & c5 & c6 & Hhex & Hs & _).
    apply forallb_six in Hhex as (H1 & H2 & H3 & H4 & H5 & H6).
    exists c1, c2, c3, c4, c5, c6. repeat split; try assumption.
  - reflexivity.
  - reflexivity.
  - intros a b c d e f va vb vc vd ve vf Ha Hb Hc Hd He Hf ->.
    rewrite hexToRgb_string. change (negb (String.eqb _ "") && _) with true.
    cbv iota. fold (six a b c d e f). rewrite exec_color_hash.
    replace (forallb is_hex_digit [a; b; c; d; e; f]) with true.
    + rewrite (parseInt16_pair _ _ _ _ Ha Hb), (parseInt16_pair _ _ _ _ Hc Hd),
        (parseInt16_pair _ _ _ _ He Hf). reflexivity.
    + symmetry. apply forallb_six.
      repeat split; eapply value_is_hex_digit; eassumption.
Qed.

Section Menu.

Variables (links toggle b : Node).
Hypothesis links_toggle : links ≠ toggle.
Hypothesis links_body : links ≠ b.
Hypothesis toggle_body : toggle ≠ b.

Lemma toggle_membership (tok : string) (l : list string) :
  tok ∈ (if TokenList.contains tok l then TokenList.remove tok else TokenList.add tok) l
  <-> ¬ tok ∈ l.
Proof.
  unfold TokenList.contains. case_bool_decide as Hin.
  - rewrite elem_of_token_remove. tauto.
  - rewrite elem_of_token_add. tauto.
Qed.

Lemma onclick_spec (w : World) :
  navLinks (DOM w) = Some links -> navToggle (DOM w) = Some toggle ->
  body (DOM w) = Some b ->
  let w' := snd (navToggle_onclick w) in
  DOM w' = DOM w /\
  ("open" ∈ classList (heap w' links) <-> ¬ "open" ∈ classList (heap w links)) /\
  ("open" ∈ classList (heap w' toggle) <-> ¬ "open" ∈ classList (heap w toggle)) /\
  (attributes (heap w' toggle) !! "aria-expanded" = Some "true"
   <-> ¬ "open" ∈ classList (heap w links)) /\
  ("no-scroll" ∈ classList (heap w' b) <-> ¬ "no-scroll" ∈ classList (heap w b)).
Proof.
  intros Hl Ht Hb w'. subst w'.
  unfold navToggle_onclick, try_catch, mbind, JS_bind, get_DOM, deref.
  rewrite Hl, Ht, Hb.
  unfold classList_toggle, setAttribute, console, mret, JS_ret.
  change (TokenList.validate "open") with (Normal (A := unit) tt).
  change (TokenList.validate "no-scroll") with (Normal (A := unit) tt).
  cbv beta iota zeta. cbn [snd fst heap DOM record with_heap].
  rewrite !heap_alter.
  repeat match goal with
         | |- context [decide (?x = ?y)] => destruct (decide (x = y)); try congruence
         end.
  cbn [classList attributes with_classList with_attribute].
  split; [reflexivity|].
  split; [apply toggle_membership|].
  split; [apply toggle_membership|].
  split; [|apply toggle_membership].
  rewrite lookup_insert_eq. unfold TokenList.contains.
  case_bool_decide; simpl; split; intros; try contradiction; try discriminate; auto.
Qed.

Lemma close_spec (w : World) :
  navLinks (DOM w) = Some links -> navToggle (DOM w) = Some toggle ->
  body (DOM w) = Some b ->
  let w' := snd (closeMobileMenu w) in
  DOM w' = DOM w /\
  (("open" ∈ classList (heap w links) /\
    ¬ "open" ∈ classList (heap w' links) /\
    ¬ "open" ∈ classList (heap w' toggle) /\
    attributes (heap w' toggle) !! "aria-expanded" = Some "false" /\
    ¬ "no-scroll" ∈ classList (heap w' b))
   \/ (¬ "open" ∈ classList (heap w links) /\ w' = w)).
Proof.
  intros Hl Ht Hb w'. subst w'.
  unfold closeMobileMenu, mbind, JS_bind, get_DOM, deref.
  rewrite Hl, Ht, Hb.
  unfold classList_contains, TokenList.contains. cbv beta iota zeta.
  case_bool_decide as Hopen; [|split; [reflexivity|right; split; [exact Hopen|reflexivity]]].
  unfold classList_remove, setAttribute, console, mret, JS_ret.
  change (TokenList.validate "open") with (Normal (A := unit) tt).
  change (TokenList.validate "no-scroll") with (Normal (A := unit) tt).
  cbv beta iota zeta. cbn [snd fst heap DOM record with_heap].
  rewrite !heap_alter.
  repeat match goal with
         | |- context [decide (?x = ?y)] => destruct (decide (x = y)); try congruence
         end.
  cbn [classList attributes with_classList with_attribute].
  split; [reflexivity|]. left. split; [exact Hopen|].
  rewrite !elem_of_token_remove, lookup_insert_eq. tauto.
Qed.

Lemma menu_step_consistent (a : MenuAction) (w : World) :
  navLinks (DOM w) = Some links -> navToggle (DOM w) = Some toggle ->
  body (DOM w) = Some b ->
  menu_consistent w links toggle b ->
  DOM (menu_step a w) = DOM w /\ menu_consistent (menu_step a w) links toggle b.
Proof.
  intros Hl Ht Hb (H1 & H2 & H3). destruct a; simpl menu_step.
  - destruct (onclick_spec w Hl Ht Hb) as (HD & Ol & Ot & Oa & Ob).
    split; [exact HD|]. unfold menu_consistent. cbv zeta.
    rewrite Ol, Ot, Oa, Ob. tauto.
  - destruct (close_spec w Hl Ht Hb) as (HD & [(Hopen & Cl & Ct & Ca & Cb)|(Hclosed & ->)]).
    + split; [exact HD|]. unfold menu_consistent. cbv zeta. rewrite Ca.
      split; [tauto|]. split; [|tauto]. split; [tauto|discriminate].
    + split; [reflexivity|]. repeat split; tauto.
Qed.

End Menu.

(** C10. The four signs of an open menu stay in agreement: from a state in
    which the [open] class of the links, the [open] class of the toggle,
    [aria-expanded = "true"] on the toggle and the [no-scroll] class of the
    body agree, they agree again after any sequence of clicks on the
    toggle and calls of [closeMobileMenu]. *)
Theorem menu_stays_consistent
  (w : World) (links toggle b : Node) (actions : list MenuAction) :
  navLinks (DOM w) = Some links -> navToggle (DOM w) = Some toggle ->
  body (DOM w) = Some b ->
  links ≠ toggle -> links ≠ b -> toggle ≠ b ->
  menu_consistent w links toggle b ->
  menu_consistent (menu_run actions w) links toggle b.
Proof.
  intros Hl Ht Hb Hlt Hlb Htb. revert w Hl Ht Hb.
  induction actions as [|a actions IH]; intros w Hl Ht Hb Hc; [exact Hc|].
  destruct (menu_step_consistent links toggle b Hlt Hlb Htb a w Hl Ht Hb Hc) as [HD Hc'].
  simpl. apply IH; try (rewrite HD; assumption). exact Hc'.
Qed.

Lemma menu_stays_consistent_witness :
  let w' := menu_run [ClickToggle; CloseMenu; ClickToggle; ClickToggle; ClickToggle]
              Sample.ready in
  menu_consistent w' 3%nat 2%nat 1%nat /\ "open" ∈ classList (heap w' 3%nat).
Proof.
  split.
  - apply menu_stays_consistent; try reflexivity; try discriminate.
    assert (Hl : ¬ "open" ∈ classList (heap Sample.ready 3%nat)) by decide_now.
    assert (Ht : ¬ "open" ∈ classList (heap Sample.ready 2%nat)) by decide_now.
    assert (Ha : ¬ attributes (heap Sample.ready 2%nat) !! "aria-expanded" = Some "true")
      by decide_now.
    assert (Hb : ¬ "no-scroll" ∈ classList (heap Sample.ready 1%nat)) by decide_now.
    unfold menu_consistent. tauto.
  - decide_now.
Defined.

(** C8 (what the code does). [init] calls the set-up routines one after
    the other with no handler around them: in a browser without
    [IntersectionObserver], on a page with watched sections,
    [setupScrollAnimations] throws a ReferenceError and [init] ends there.
    The theme button gets no listener, the body is not observed and the
    contact form gets no listener, all of which happens on the same page
    when the constructor exists. Likewise, when the script was loaded
    before the body existed, [setupThemeObserver] throws a TypeError and
    [setupFormValidation] never runs. *)
Lemma init_stops_at_first_throw :
  fst (init Sample.old_host Sample.loaded) = Throw ReferenceError /\
  fst (init Sample.host Sample.loaded) = Normal tt /\
  calls (snd (init Sample.host Sample.loaded)) =
    calls (snd (init Sample.old_host Sample.loaded)) ++
    [NewIntersectionObserver;
     ClassListAdd 11%nat "animate-initially-hidden";
     ClassListAdd 12%nat "animate-initially-hidden";
     ClassListAdd 13%nat "animate-initially-hidden";
     Observe 10%nat;
     ClassListAdd 21%nat "animate-initially-hidden";
     ClassListAdd 22%nat "animate-initially-hidden";
     ClassListAdd 23%nat "animate-initially-hidden";
     ClassListAdd 24%nat "animate-initially-hidden";
     Observe 20%nat;
     Observe 30%nat;
     Console "log" "Scroll animations setup complete";
     ClassListAdd 5%nat "active";
     ClassListRemove 6%nat "active";
     AddEventListener (TElement 4%nat) "click" ThemeToggleClick;
     Console "log" "Theme toggle setup complete";
     NewMutationObserver;
     MutationObserve 1%nat;
     Console "log" "Theme observer setup complete";
     AddEventListener (TElement 40%nat) "submit" ContactFormSubmit;
     Console "log" "Form validation setup complete";
     Console "log" "Portfolio initialized successfully"] /\
  fst (init Sample.head_host (start Sample.head_host Sample.page (Some ∅)))
  = Throw TypeError /\
  last (calls (snd (init Sample.head_host (start Sample.head_host Sample.page (Some ∅)))))
  = Some NewMutationObserver.
Proof. repeat split; vm_compute; reflexivity. Qed.

Section Variants.

Variables s1 s2 : Number.t.

Lemma alike_refl (w : World) : alike s1 s2 w w w.
Proof.
  constructor; auto.
  - intros x. left. auto.
  - exists [], []. rewrite app_nil_r. auto.
Qed.

(** A pair of corresponding calls at the end of both traces. *)
Lemma calls_alike_snoc (w0 : World) (l1 l2 : list Call) (c1 c2 : Call) :
  (∃ new1 new2, l1 = calls w0 ++ new1 /\ l2 = calls w0 ++ new2 /\
                Forall2 (call_alike s1 s2) new1 new2) ->
  call_alike s1 s2 c1 c2 ->
  ∃ new1 new2, l1 ++ [c1] = calls w0 ++ new1 /\ l2 ++ [c2] = calls w0 ++ new2 /\
               Forall2 (call_alike s1 s2) new1 new2.
Proof.
  intros (new1 & new2 & -> & -> & Hnew) Hc.
  exists (new1 ++ [c1]), (new2 ++ [c2]). rewrite <- !app_assoc.
  split; [reflexivity|]. split; [reflexivity|].
  apply Forall2_app; [exact Hnew|]. constructor; [exact Hc|constructor].
Qed.

Lemma lockstep_ret {A : Type} (a : A) : lockstep s1 s2 (mret a) (mret a).
Proof. intros w0 w1 w2 Hw. split; [reflexivity|exact Hw]. Qed.

Lemma lockstep_bind {A B : Type} (m1 m2 : JS A) (k1 k2 : A -> JS B) :
  lockstep s1 s2 m1 m2 -> (∀ a, lockstep s1 s2 (k1 a) (k2 a)) ->
  lockstep s1 s2 (m1 ≫= k1) (m2 ≫= k2).
Proof.
  intros Hm Hk w0 w1 w2 Hw. destruct (Hm w0 w1 w2 Hw) as [Hr Hw'].
  unfold mbind, JS_bind.
  destruct (m1 w1) as [[a1|e1] w1'], (m2 w2) as [[a2|e2] w2']; simpl in *;
    try discriminate.
  - injection Hr as ->. apply Hk. exact Hw'.
  - injection Hr as ->. split; [reflexivity|exact Hw'].
Qed.

Lemma lockstep_forEach_from {A : Type} (f1 f2 : A -> nat -> JS unit) (l : list A) :
  (∀ x i, lockstep s1 s2 (f1 x i) (f2 x i)) ->
  ∀ i, lockstep s1 s2 (forEach_from f1 i l) (forEach_from f2 i l).
Proof.
  intros Hf. induction l as [|x l IH]; intros i; simpl.
  - apply lockstep_ret.
  - apply lockstep_bind; [apply Hf|]. intros _. apply IH.
Qed.

Lemma lockstep_dataset (el : Node) :
  lockstep s1 s2 (dataset_animation el) (dataset_animation el).
Proof.
  intros w0 w1 w2 Hw. unfold dataset_animation. simpl.
  rewrite (al_attributes _ _ _ _ _ Hw). split; [reflexivity|exact Hw].
Qed.

Lemma lockstep_delay (el : Node) (i : nat) :
  lockstep s1 s2 (set_animationDelay el (delay s1 i)) (set_animationDelay el (delay s2 i)).
Proof.
  intros w0 w1 w2 [HD HR HL HO HC HA Hd Hc]. split; [reflexivity|].
  constructor; cbn [snd set_animationDelay DOM rootStyle localStorage observer heap calls
                      record with_heap]; auto.
  - intros x. rewrite !heap_alter. destruct (decide (el = x)); simpl; auto.
  - intros x. rewrite !heap_alter. destruct (decide (el = x)); simpl; auto.
  - intros x. rewrite !heap_alter. destruct (decide (el = x)); simpl; [|apply Hd].
    right. exists i. auto.
  - apply calls_alike_snoc; [exact Hc|]. split; [reflexivity|]. exists i. auto.
Qed.

Lemma lockstep_classList_add (el : Node) (tok : string) :
  lockstep s1 s2 (classList_add el tok) (classList_add el tok).
Proof.
  intros w0 w1 w2 Hw. unfold classList_add.
  destruct (TokenList.validate tok); simpl; [|split; [reflexivity|exact Hw]].
  split; [reflexivity|]. destruct Hw as [HD HR HL HO HC HA Hd Hc].
  constructor; cbn [DOM rootStyle localStorage observer heap calls record with_heap]; auto.
  - intros x. rewrite !heap_alter. destruct (decide (el = x)); simpl; auto.
    rewrite HC. reflexivity.
  - intros x. rewrite !heap_alter. destruct (decide (el = x)); simpl; auto.
  - intros x. rewrite !heap_alter. destruct (decide (el = x)) as [->|]; simpl; apply Hd.
  - apply calls_alike_snoc; [exact Hc|]. reflexivity.
Qed.

Lemma lockstep_unobserve (s : Node) :
  lockstep s1 s2 (unobserve s) (unobserve s).
Proof.
  intros w0 w1 w2 [HD HR HL HO HC HA Hd Hc]. split; [reflexivity|].
  constructor; cbn [snd unobserve DOM rootStyle localStorage observer heap calls
                      record with_observer]; auto.
  - rewrite HO. reflexivity.
  - apply calls_alike_snoc; [exact Hc|]. reflexivity.
Qed.

Lemma lockstep_reveal (el : Node) (i : nat) :
  lockstep s1 s2 (reveal s1 el i) (reveal s2 el i).
Proof.
  unfold reveal. apply lockstep_bind; [apply lockstep_dataset|].
  intros tag. apply lockstep_bind; [apply lockstep_delay|].
  intros _. apply lockstep_classList_add.
Qed.

Lemma lockstep_onEntry (H : Host) (e : Entry) :
  lockstep s1 s2 (onEntry s1 H e) (onEntry s2 H e).
Proof.
  unfold onEntry. destruct (isIntersecting e); simpl.
  - apply lockstep_bind.
    + apply lockstep_forEach_from. intros x i. apply lockstep_reveal.
    + intros _. apply lockstep_unobserve.
  - apply lockstep_ret.
Qed.

Lemma lockstep_observerCallback (H : Host) (entries : list Entry) :
  lockstep s1 s2 (observerCallback s1 H entries) (observerCallback s2 H entries).
Proof.
  unfold observerCallback, forEach. apply lockstep_forEach_from.
  intros e _. apply lockstep_onEntry.
Qed.

End Variants.

(** C7, as amended. The observer callbacks of the two files do the same
    up to the stagger step: run on the same world with the same entries
    they end in the same way (both normally, or both with the same
    exception) and leave the same world but for the delays they have
    assigned; the calls they make correspond one by one, each call of
    script.js other than a delay assignment to the same call of part_000,
    and each assignment of a delay by script.js, which is [index * 0.1] for
    an index, to the assignment of [index * 0.5] to the same element by
    part_000, both products taken in binary64. The delay part_000 assigns
    is 5 times the delay script.js assigns (in binary64) where the index is
    0, 1 or 2, and is not where the index is 3. On a qualifying report for
    a section whose tags hold no white space, the index is the position of
    the descendant in the query result: the descendant at position [k] is
    left with the delay [k * 0.1] by script.js and [k * 0.5] by part_000,
    and with the same classes by both. *)
Theorem engines_equal_up_to_step (H : Host) (entries : list Entry) (w : World) :
  let r1 := ScriptJs.observerCallback H entries w in
  let r2 := Part000.observerCallback H entries w in
  fst r1 = fst r2 /\
  alike ScriptJs.STEP Part000.STEP w (snd r1) (snd r2) /\
  length (calls_since w (snd r1)) = length (calls_since w (snd r2)) /\
  (∀ k el d1, calls_since w (snd r1) !! k = Some (SetAnimationDelay el d1) ->
     ∃ i, d1 = delay ScriptJs.STEP i /\
          calls_since w (snd r2) !! k = Some (SetAnimationDelay el (delay Part000.STEP i)) /\
          ((i <= 2)%nat -> Number.mul Number.lit_5 d1 = delay Part000.STEP i) /\
          (i = 3%nat ->
           Number.eqb (Number.mul Number.lit_5 d1) (delay Part000.STEP i) = false)) /\
  (∀ k c, (∀ el d, c ≠ SetAnimationDelay el d) ->
     calls_since w (snd r1) !! k = Some c -> calls_since w (snd r2) !! k = Some c) /\
  (∀ entry,
     let els := element_querySelectorAll H (target entry) ANIMATABLE in
     isIntersecting entry = true -> NoDup els ->
     (∀ el, el ∈ els -> tag_ok (heap w el)) ->
     ∀ k el, els !! k = Some el ->
       let e1 := heap (snd (onEntry ScriptJs.STEP H entry w)) el in
       let e2 := heap (snd (onEntry Part000.STEP H entry w)) el in
       animationDelay e1 = Some (delay ScriptJs.STEP k) /\
       animationDelay e2 = Some (delay Part000.STEP k) /\
       classList e1 = classList e2).
Proof.
  cbv zeta.
  assert (Hpos : ∀ entry,
     isIntersecting entry = true ->
     NoDup (element_querySelectorAll H (target entry) ANIMATABLE) ->
     (∀ el, el ∈ element_querySelectorAll H (target entry) ANIMATABLE ->
            tag_ok (heap w el)) ->
     ∀ k el, element_querySelectorAll H (target entry) ANIMATABLE !! k = Some el ->
       animationDelay (heap (snd (onEntry ScriptJs.STEP H entry w)) el)
       = Some (delay ScriptJs.STEP k) /\
       animationDelay (heap (snd (onEntry Part000.STEP H entry w)) el)
       = Some (delay Part000.STEP k) /\
       classList (heap (snd (onEntry ScriptJs.STEP H entry w)) el)
       = classList (heap (snd (onEntry Part000.STEP H entry w)) el)).
  { intros entry Hi Hnd Hok k el Hk.
    destruct (onEntry_spec ScriptJs.STEP H entry w Hi Hnd Hok) as (w1 & E1 & _ & _ & _ & HE1).
    destruct (onEntry_spec Part000.STEP H entry w Hi Hnd Hok) as (w2 & E2 & _ & _ & _ & HE2).
    rewrite E1, E2. cbn [snd]. rewrite (HE1 k el Hk), (HE2 k el Hk).
    repeat split. }
  destruct (lockstep_observerCallback ScriptJs.STEP Part000.STEP H entries w w w
              (alike_refl _ _ w)) as [Hr Hw].
  split; [exact Hr|]. split; [exact Hw|].
  destruct Hw as [_ _ _ _ _ _ _ (new1 & new2 & E1 & E2 & Hnew)].
  unfold calls_since, ScriptJs.observerCallback, Part000.observerCallback.
  rewrite E1, E2, !drop_app_length.
  split; [exact (Forall2_length _ _ _ Hnew)|]. split; [|split].
  - intros k el d1 Hk.
    destruct (Forall2_lookup_l _ _ _ _ _ Hnew Hk) as (c2 & Hk2 & Hc).
    destruct c2; try contradiction.
    destruct Hc as (<- & i & -> & ->). exists i.
    split; [reflexivity|]. split; [exact Hk2|]. split.
    + intros Hi. destruct i as [|[|[|i]]]; [vm_compute; reflexivity ..|lia].
    + intros ->. vm_compute. reflexivity.
  - intros k c Hc Hk.
    destruct (Forall2_lookup_l _ _ _ _ _ Hnew Hk) as (c2 & Hk2 & Hcc).
    rewrite Hk2. f_equal.
    destruct c, c2; try contradiction; try (symmetry; exact Hcc).
    exfalso. exact (Hc _ _ eq_refl).
  - exact Hpos.
Qed.

(** The two engines on section 20 of the sample page, with its four
    descendants: the calls of script.js and of part_000. *)
Example engines_on_the_sample_page :
  calls_since Sample.ready
    (snd (ScriptJs.observerCallback Sample.host [mkEntry 20%nat true] Sample.ready))
  = [SetAnimationDelay 21%nat Number.lit_0; ClassListAdd 21%nat "animate-fade-in-up";
     SetAnimationDelay 22%nat Number.lit_0_1; ClassListAdd 22%nat "animate-zoom-in";
     SetAnimationDelay 23%nat Number.lit_0_2; ClassListAdd 23%nat "animate-fade-in-up";
     SetAnimationDelay 24%nat (Number.mul (Number.of_nat 3) Number.lit_0_1);
     ClassListAdd 24%nat "animate-fade-in-up";
     Unobserve 20%nat] /\
  calls_since Sample.ready
    (snd (Part000.observerCallback Sample.host [mkEntry 20%nat true] Sample.ready))
  = [SetAnimationDelay 21%nat Number.lit_0; ClassListAdd 21%nat "animate-fade-in-up";
     SetAnimationDelay 22%nat Number.lit_0_5; ClassListAdd 22%nat "animate-zoom-in";
     SetAnimationDelay 23%nat (Number.of_nat 1); ClassListAdd 23%nat "animate-fade-in-up";
     SetAnimationDelay 24%nat Number.lit_1_5; ClassListAdd 24%nat "animate-fade-in-up";
     Unobserve 20%nat].
Proof. split; vm_compute; reflexivity. Qed.

(** C7, as stated, fails: on the sample page, the fourth descendant of
    section 20 gets the delay 0.30000000000000004 from script.js and 1.5
    from part_000, and 1.5 is not 5 times 0.30000000000000004, neither in
    binary64 arithmetic nor as a real number. *)
Lemma delay_ratio_counterexample :
  ∃ d1 d2,
    animationDelay
      (heap (snd (ScriptJs.observerCallback Sample.host [mkEntry 20%nat true] Sample.ready))
            24%nat) = Some d1 /\
    animationDelay
      (heap (snd (Part000.observerCallback Sample.host [mkEntry 20%nat true] Sample.ready))
            24%nat) = Some d2 /\
    d1 = delay ScriptJs.STEP 3 /\ d2 = delay Part000.STEP 3 /\
    d2 = Number.lit_1_5 /\
    Number.eqb d2 (Number.mul Number.lit_5 d1) = false /\
    ¬ exactly_times 5 d2 d1.
Proof.
  exists (delay ScriptJs.STEP 3), (delay Part000.STEP 3).
  repeat split; try (vm_compute; reflexivity).
  unfold exactly_times. vm_compute. discriminate.
Qed.

(** Reports for a section that is not watched are not delivered. *)
Lemma deliver_skips (H : Host) (s : Node) (b : list Entry) (w : World) :
  s ∉ watched w -> deliver H b w = deliver H (filter (λ e, target e ≠ s) b) w.
Proof.
  intros Hs. unfold deliver. unfold watched in Hs.
  destruct (observer w) as [o|]; [|reflexivity].
  rewrite list_filter_filter_l; [reflexivity|].
  intros e He Heq. rewrite Heq in He. contradiction.
Qed.

Lemma deliver_all_skips (H : Host) (s : Node) (batches : list (list Entry)) :
  ∀ w, s ∉ watched w ->
    (s ∉ watched (deliver_all H batches w)) /\
    deliver_all H batches w
    = deliver_all H (map (filter (λ e, target e ≠ s)) batches) w.
Proof.
  induction batches as [|b batches IH]; intros w Hs; [auto|].
  simpl. rewrite <- (deliver_skips H s b w Hs). apply IH.
  destruct (effect_deliver H b w) as []. set_solver.
Qed.

Section Once.

Variable H : Host.
Variable step : Number.t.
Variable w0 : World.
Hypothesis Hok : page_ok H w0.

Lemma tag_ok_attributes (e e' : Element) :
  attributes e' = attributes e -> tag_ok e -> tag_ok e'.
Proof. unfold tag_ok. intros ->. auto. Qed.

Lemma progress_start : progress step H w0 w0.
Proof. constructor; auto. intros t Hin Hout. contradiction. Qed.

Lemma onEntry_progress (e : Entry) (w : World) :
  progress step H w0 w -> target e ∈ watched w0 ->
  ∃ w', onEntry step H e w = (Normal tt, w') /\
        progress step H w0 w' /\ watched w' ⊆ watched w /\
        (isIntersecting e = true -> target e ∉ watched w').
Proof.
  intros [Hattr Hsub Hset] Ht.
  destruct (isIntersecting e) eqn:Hi.
  2:{ exists w. split; [unfold onEntry; rewrite Hi; reflexivity|].
      split; [constructor; assumption|]. split; [reflexivity|discriminate]. }
  set (els := element_querySelectorAll H (target e) ANIMATABLE).
  assert (Htags : ∀ el, el ∈ els -> tag_ok (heap w el)).
  { intros el Hel. apply (tag_ok_attributes (heap w0 el)); [apply Hattr|].
    apply (ok_tags _ _ Hok (target e)); assumption. }
  destruct (onEntry_spec step H e w Hi (ok_nodup _ _ Hok _) Htags)
    as (w' & E & _ & HW & HF & HE). fold els in HF, HE.
  assert (Hattr' : ∀ x, attributes (heap w' x) = attributes (heap w x)).
  { intros x. destruct (decide (x ∈ els)) as [Hin|Hnot].
    - apply list_elem_of_lookup_1 in Hin as [k Hk]. rewrite (HE k x Hk). reflexivity.
    - rewrite HF by assumption. reflexivity. }
  exists w'. split; [exact E|]. split; [|split].
  - constructor.
    + intros x. rewrite Hattr'. apply Hattr.
    + rewrite HW. set_solver.
    + intros t Ht0 Hout. rewrite HW in Hout.
      destruct (decide (t = target e)) as [->|Hne].
      * intros k el Hk. fold els in Hk. rewrite (HE k el Hk). split; [reflexivity|].
        unfold revealed. simpl. apply elem_of_token_add. left.
        apply tag_or_default_attributes. reflexivity.
      * assert (Hout' : t ∉ watched w) by set_solver.
        intros k el Hk. assert (Hnot : el ∉ els).
        { intros Hel. apply Hne.
          apply (ok_disjoint _ _ Hok t (target e) el); try assumption.
          eapply list_elem_of_lookup_2. exact Hk. }
        rewrite (HF el Hnot). apply (Hset t Ht0 Hout' k el Hk).
  - rewrite HW. set_solver.
  - intros _. rewrite HW. set_solver.
Qed.

Lemma callback_progress (l : list Entry) :
  ∀ (i : nat) (w : World),
    progress step H w0 w -> (∀ e, e ∈ l -> target e ∈ watched w0) ->
    ∃ w', forEach_from (λ e (_ : nat), onEntry step H e) i l w = (Normal tt, w') /\
          progress step H w0 w' /\ watched w' ⊆ watched w /\
          (∀ e, e ∈ l -> isIntersecting e = true -> target e ∉ watched w').
Proof.
  induction l as [|e l IH]; intros i w Hp Hl.
  - exists w. split; [reflexivity|]. split; [exact Hp|]. split; [reflexivity|].
    intros e He. apply elem_of_nil in He. contradiction.
  - destruct (onEntry_progress e w Hp (Hl e ltac:(left))) as (w1 & E1 & Hp1 & Hs1 & Ho1).
    destruct (IH (S i) w1 Hp1) as (w' & E' & Hp' & Hs' & Ho').
    { intros e' He'. apply Hl. right. exact He'. }
    exists w'. split.
    { simpl. rewrite (bind_normal _ _ _ _ _ E1). exact E'. }
    split; [exact Hp'|]. split; [set_solver|].
    intros e' He' Hi'. apply elem_of_cons in He' as [-> | He'].
    + specialize (Ho1 Hi'). set_solver.
    + apply Ho'; assumption.
Qed.

(** A report for a settled section changes no element. *)
Lemma onEntry_settled (s : Node) (w : World) :
  settled step H s w ->
  (∀ el, el ∈ element_querySelectorAll H s ANIMATABLE -> tag_ok (heap w el)) ->
  ∀ x, heap (snd (onEntry step H (mkEntry s true) w)) x = heap w x.
Proof.
  intros Hset Htags x.
  destruct (onEntry_spec step H (mkEntry s true) w eq_refl (ok_nodup _ _ Hok _) Htags)
    as (w' & E & _ & _ & HF & HE). rewrite E. simpl in *.
  destruct (decide (x ∈ element_querySelectorAll H s ANIMATABLE)) as [Hin|Hnot].
  - apply list_elem_of_lookup_1 in Hin as [k Hk]. rewrite (HE k x Hk).
    destruct (Hset k x Hk) as [Hd Hc]. unfold revealed.
    destruct (heap w x) as [cl at' dl]. simpl in *. subst dl.
    unfold with_classList, with_animationDelay. simpl.
    rewrite token_add_present by exact Hc. reflexivity.
  - apply HF. exact Hnot.
Qed.

Lemma deliver_all_frozen (s : Node) (batches : list (list Entry)) :
  s ∈ watched w0 ->
  ∀ w, watched w ⊆ watched w0 -> s ∉ watched w ->
    ∀ el, el ∈ element_querySelectorAll H s ANIMATABLE ->
          heap (deliver_all H batches w) el = heap w el.
Proof.
  intros Hs0. induction batches as [|b batches IH]; intros w Hsub Hs el Hel; [reflexivity|].
  simpl. destruct (effect_deliver H b w) as [].
  rewrite IH; [| set_solver | set_solver | exact Hel].
  apply eff_frame0. intros (e & _ & Ht & _ & Hel').
  apply Hs. replace s with (target e); [exact Ht|].
  apply (ok_disjoint _ _ Hok (target e) s el); auto.
Qed.

End Once.


Lemma sample_descendants (s : Node) :
  element_querySelectorAll Sample.host s ANIMATABLE =
  if decide (s = 10%nat) then [11; 12; 13]%nat
  else if decide (s = 20%nat) then [21; 22; 23; 24]%nat
  else [].
Proof. reflexivity. Qed.

Lemma sample_page_ok : page_ok Sample.host Sample.ready.
Proof.
  constructor.
  - intros s. rewrite sample_descendants. repeat case_decide; decide_now.
  - intros s t el _ _. rewrite !sample_descendants.
    repeat case_decide; subst; try reflexivity; intros Hs Ht;
      try (apply elem_of_nil in Hs; contradiction);
      try (apply elem_of_nil in Ht; contradiction);
      exfalso; revert Ht; list_cases Hs; decide_now.
  - intros s el _. rewrite sample_descendants.
    repeat case_decide; intros Hel; list_cases Hel; vm_compute; auto.
Qed.



(** * The engine outside the well-formed pages *)

(** An empty [data-animation] is falsy: the element gets the default class. *)
Example reveal_with_empty_tag :
  let r := reveal ScriptJs.STEP 13%nat 2 Sample.odd_ready in
  fst r = Normal tt /\
  classList (heap (snd r) 13%nat) = ["animate-initially-hidden"; "animate-fade-in-up"] /\
  animationDelay (heap (snd r) 13%nat) = Some Number.lit_0_2.
Proof. vm_compute. repeat split; reflexivity. Qed.

(** A [data-animation] with white space is not a class token:
    [classList.add] throws at that element, after its delay was assigned.
    The elements before it are revealed, the elements after it are not, and
    [unobserve] is not reached, so the next report for the section runs the
    same calls again. *)
Example reveal_stops_at_a_tag_with_white_space :
  let w1 := deliver Sample.host [mkEntry 10%nat true] Sample.odd_ready in
  let w2 := deliver Sample.host [mkEntry 10%nat true] w1 in
  fst (ScriptJs.observerCallback Sample.host [mkEntry 10%nat true] Sample.odd_ready)
  = Throw InvalidCharacterError /\
  10%nat ∈ watched w1 /\
  classList (heap w1 11%nat) = ["animate-initially-hidden"; "animate-fade-in-up"] /\
  classList (heap w1 12%nat) = ["animate-initially-hidden"] /\
  animationDelay (heap w1 12%nat) = Some Number.lit_0_1 /\
  animationDelay (heap w1 13%nat) = None /\
  calls w2 = calls w1 ++ [SetAnimationDelay 11%nat Number.lit_0;
                          ClassListAdd 11%nat "animate-fade-in-up";
                          SetAnimationDelay 12%nat Number.lit_0_1] /\
  (∀ n, n ∈ [11; 12; 13]%nat -> heap w2 n = heap w1 n).
Proof.
  cbv zeta. split; [vm_compute; reflexivity|].
  split; [decide_now|].
  repeat (split; [vm_compute; reflexivity|]).
  intros n Hn. list_cases Hn; vm_compute; reflexivity.
Qed.

(** * The model of Number against the processor *)

(** At every index below 1024 the delay of the model has the bits of the
    product the processor computes, for both steps. *)
Example delay_as_the_processor_computes :
  forallb (λ i, Number.same (delay ScriptJs.STEP i) (Number.hardware_mul_index i 0.1%float)
                && Number.same (delay Part000.STEP i) (Number.hardware_mul_index i 0.5%float))
          (seq 0 1024) = true.
Proof. vm_compute. reflexivity. Qed.

(* ================================================================== *)
(** * Further properties of the scripts *)
(* ================================================================== *)

Section Completion.

Lemma keeps_ret {A : Type} (a : A) : keeps_DOM (mret a : JS A).
Proof. intros w. reflexivity. Qed.

Lemma keeps_bind {A B : Type} (m : JS A) (k : A -> JS B) :
  keeps_DOM m -> (∀ a, keeps_DOM (k a)) -> keeps_DOM (m ≫= k).
Proof.
  intros Hm Hk w. unfold mbind, JS_bind. specialize (Hm w).
  destruct (m w) as [[a|e] w1]; simpl in *; [|exact Hm].
  rewrite Hk. exact Hm.
Qed.

Lemma keeps_try_catch {A : Type} (m : JS A) (h : Exn -> JS A) :
  keeps_DOM m -> (∀ e, keeps_DOM (h e)) -> keeps_DOM (try_catch m h).
Proof.
  intros Hm Hh w. unfold try_catch. specialize (Hm w).
  destruct (m w) as [[a|e] w1]; simpl in *; [exact Hm|].
  rewrite Hh. exact Hm.
Qed.

Lemma keeps_forEach_from {A : Type} (f : A -> nat -> JS unit) (l : list A) :
  (∀ x i, keeps_DOM (f x i)) -> ∀ i, keeps_DOM (forEach_from f i l).
Proof.
  intros Hf. induction l as [|x l IH]; intros i; simpl.
  - apply keeps_ret.
  - apply keeps_bind; [apply Hf|]. intros _. apply IH.
Qed.

Lemma completes_ret {A : Type} (a : A) : completes (mret a : JS A).
Proof. intros w. exists a. reflexivity. Qed.

Lemma completes_bind {A B : Type} (m : JS A) (k : A -> JS B) :
  completes m -> (∀ a, completes (k a)) -> completes (m ≫= k).
Proof.
  intros Hm Hk w. unfold mbind, JS_bind. destruct (Hm w) as [a Ha].
  destruct (m w) as [[a'|e] w1]; simpl in Ha; [|discriminate].
  apply Hk.
Qed.

Lemma completes_try_catch {A : Type} (m : JS A) (h : Exn -> JS A) :
  (∀ e, completes (h e)) -> completes (try_catch m h).
Proof.
  intros Hh w. unfold try_catch.
  destruct (m w) as [[a|e] w1]; [exists a; reflexivity|apply Hh].
Qed.

Lemma completes_forEach_from {A : Type} (f : A -> nat -> JS unit) (l : list A) :
  (∀ x i, completes (f x i)) -> ∀ i, completes (forEach_from f i l).
Proof.
  intros Hf. induction l as [|x l IH]; intros i; simpl.
  - apply completes_ret.
  - apply completes_bind; [apply Hf|]. intros _. apply IH.
Qed.

End Completion.

Create HintDb js discriminated.

Section Primitives.

Lemma keeps_console (level message : string) : keeps_DOM (console level message).
Proof. intros w. reflexivity. Qed.

Lemma completes_console (level message : string) : completes (console level message).
Proof. intros w. exists tt. reflexivity. Qed.

Lemma keeps_addEventListener (t : EventTarget) (type : string) (h : Handler) :
  keeps_DOM (addEventListener t type h).
Proof. intros w. reflexivity. Qed.

Lemma completes_addEventListener (t : EventTarget) (type : string) (h : Handler) :
  completes (addEventListener t type h).
Proof. intros w. exists tt. reflexivity. Qed.

Lemma keeps_setProperty (name value : string) : keeps_DOM (setProperty name value).
Proof. intros w. reflexivity. Qed.

Lemma completes_setProperty (name value : string) : completes (setProperty name value).
Proof. intros w. exists tt. reflexivity. Qed.

Lemma keeps_get_DOM : keeps_DOM get_DOM.
Proof. intros w. reflexivity. Qed.

Lemma completes_get_DOM : completes get_DOM.
Proof. intros w. eexists. reflexivity. Qed.

Lemma keeps_throw {A : Type} (e : Exn) : keeps_DOM (throw e : JS A).
Proof. intros w. reflexivity. Qed.

Lemma keeps_deref (o : option Node) : keeps_DOM (deref o).
Proof. destruct o; [apply keeps_ret|apply keeps_throw]. Qed.

Lemma keeps_classList_add (el : Node) (tok : string) : keeps_DOM (classList_add el tok).
Proof. intros w. unfold classList_add. destruct (TokenList.validate tok); reflexivity. Qed.

Lemma keeps_classList_remove (el : Node) (tok : string) : keeps_DOM (classList_remove el tok).
Proof. intros w. unfold classList_remove. destruct (TokenList.validate tok); reflexivity. Qed.

Lemma keeps_classList_toggle (el : Node) (tok : string) : keeps_DOM (classList_toggle el tok).
Proof. intros w. unfold classList_toggle. destruct (TokenList.validate tok); reflexivity. Qed.

Lemma keeps_classList_contains (el : Node) (tok : string) :
  keeps_DOM (classList_contains el tok).
Proof. intros w. reflexivity. Qed.

Lemma keeps_setAttribute (el : Node) (name value : string) :
  keeps_DOM (setAttribute el name value).
Proof. intros w. reflexivity. Qed.

Lemma completes_classList_add (el : Node) (tok : string) :
  TokenList.validate tok = Normal tt -> completes (classList_add el tok).
Proof. intros Hv w. unfold classList_add. rewrite Hv. exists tt. reflexivity. Qed.

Lemma keeps_when_some (o : option Node) (f : Node -> JS unit) :
  (∀ n, keeps_DOM (f n)) -> keeps_DOM (when_some o f).
Proof. intros Hf. destruct o; [apply Hf|apply keeps_ret]. Qed.

Lemma keeps_localStorage_getItem (key : string) : keeps_DOM (localStorage_getItem key).
Proof. intros w. unfold localStorage_getItem. destruct (localStorage w); reflexivity. Qed.

Lemma keeps_observe (s : Node) : keeps_DOM (observe s).
Proof. intros w. reflexivity. Qed.

Lemma completes_observe (s : Node) : completes (observe s).
Proof. intros w. exists tt. reflexivity. Qed.

Lemma keeps_unobserve (s : Node) : keeps_DOM (unobserve s).
Proof. intros w. reflexivity. Qed.

Lemma keeps_set_animationDelay (el : Node) (x : Number.t) : keeps_DOM (set_animationDelay el x).
Proof. intros w. reflexivity. Qed.

Lemma keeps_dataset_animation (el : Node) : keeps_DOM (dataset_animation el).
Proof. intros w. reflexivity. Qed.

Lemma keeps_new_IntersectionObserver (H : Host) (step : Number.t) :
  keeps_DOM (new_IntersectionObserver H step).
Proof. intros w. unfold new_IntersectionObserver. destruct (has_IntersectionObserver H); reflexivity. Qed.

Lemma keeps_new_MutationObserver (H : Host) : keeps_DOM (new_MutationObserver H).
Proof. intros w. unfold new_MutationObserver. destruct (has_MutationObserver H); reflexivity. Qed.

Lemma keeps_mutation_observe (n : Node) : keeps_DOM (mutation_observe n).
Proof. intros w. reflexivity. Qed.

End Primitives.

#[local] Hint Resolve keeps_ret keeps_bind keeps_try_catch keeps_forEach_from
  keeps_console keeps_addEventListener keeps_setProperty keeps_get_DOM keeps_throw
  keeps_deref keeps_classList_add keeps_classList_remove keeps_classList_toggle
  keeps_classList_contains keeps_setAttribute keeps_when_some keeps_localStorage_getItem
  keeps_observe keeps_unobserve keeps_set_animationDelay keeps_dataset_animation
  keeps_new_IntersectionObserver keeps_new_MutationObserver keeps_mutation_observe : js.
#[local] Hint Resolve completes_ret completes_bind completes_try_catch completes_forEach_from
  completes_console completes_addEventListener completes_setProperty completes_get_DOM
  completes_observe : js.

(** Solves [keeps_DOM] and [completes] goals of scripts written with the
    primitives, by their structure. *)
Ltac js_structure :=
  repeat first
    [ progress intros
    | apply keeps_bind | apply keeps_try_catch | apply keeps_forEach_from
    | apply keeps_when_some
    | apply completes_bind | apply completes_try_catch | apply completes_forEach_from
    | solve [auto with js]
    | match goal with
      | |- keeps_DOM (match ?x with _ => _ end) => destruct x
      | |- completes (match ?x with _ => _ end) => destruct x
      | |- keeps_DOM (if ?x then _ else _) => destruct x
      | |- completes (if ?x then _ else _) => destruct x
      end ].

Section Routines.

Variable H : Host.

Lemma keeps_hexToRgb (hex : JsValue) : keeps_DOM (hexToRgb hex).
Proof. unfold hexToRgb. js_structure. Qed.

Lemma completes_hexToRgb (hex : JsValue) : completes (hexToRgb hex).
Proof. unfold hexToRgb. js_structure. Qed.

Lemma keeps_updateRgbaVars : keeps_DOM (updateRgbaVars H).
Proof.
  unfold updateRgbaVars. apply keeps_try_catch; [|js_structure].
  apply keeps_bind; [intros w; reflexivity|]. intros f. cbv zeta.
  repeat (apply keeps_bind; [first [apply keeps_hexToRgb | apply keeps_setProperty]|intros ?]).
  apply keeps_console.
Qed.

Lemma completes_updateRgbaVars : completes (updateRgbaVars H).
Proof. unfold updateRgbaVars. apply completes_try_catch. js_structure. Qed.

Lemma keeps_setupSmoothScroll : keeps_DOM setupSmoothScroll.
Proof. unfold setupSmoothScroll. js_structure. Qed.

Lemma completes_setupSmoothScroll : completes setupSmoothScroll.
Proof. unfold setupSmoothScroll. js_structure. Qed.

Lemma keeps_setupMobileMenu : keeps_DOM setupMobileMenu.
Proof. unfold setupMobileMenu. js_structure. Qed.

Lemma completes_setupMobileMenu : completes setupMobileMenu.
Proof. unfold setupMobileMenu. js_structure. Qed.

Lemma keeps_setupCustomCursor : keeps_DOM setupCustomCursor.
Proof. unfold setupCustomCursor. js_structure. Qed.

Lemma completes_setupCustomCursor : completes setupCustomCursor.
Proof. unfold setupCustomCursor, skip. js_structure. Qed.

Lemma keeps_setupThemeToggle : keeps_DOM setupThemeToggle.
Proof. unfold setupThemeToggle. js_structure. Qed.

Lemma completes_setupThemeToggle : completes setupThemeToggle.
Proof. unfold setupThemeToggle. js_structure. Qed.

Lemma keeps_setupFormValidation : keeps_DOM (setupFormValidation H).
Proof. unfold setupFormValidation, skip. js_structure. Qed.

Lemma completes_setupFormValidation : completes (setupFormValidation H).
Proof. unfold setupFormValidation, skip. js_structure. Qed.

Lemma keeps_prepare (s : Node) : keeps_DOM (prepare H s).
Proof. unfold prepare, forEach. js_structure. Qed.

Lemma completes_prepare (s : Node) : completes (prepare H s).
Proof.
  unfold prepare, forEach. js_structure.
  apply completes_classList_add. reflexivity.
Qed.

Lemma keeps_setupScrollAnimations (step : Number.t) : keeps_DOM (setupScrollAnimations step H).
Proof.
  unfold setupScrollAnimations, forEach, skip. js_structure.
Qed.

Lemma keeps_setupThemeObserver : keeps_DOM (setupThemeObserver H).
Proof. unfold setupThemeObserver. js_structure. Qed.

Lemma keeps_cacheDOMElements (w : World) :
  body (DOM (snd (cacheDOMElements H w))) = body (DOM w) /\
  sections (DOM (snd (cacheDOMElements H w)))
  = Some (querySelectorAll H "section.full-viewport-section") /\
  fst (cacheDOMElements H w) = Normal tt.
Proof. repeat split. Qed.

(** Running a script that neither throws nor touches the cache. *)
Lemma run_quiet {B : Type} (m : JS unit) (k : unit -> JS B) (w : World) :
  completes m -> keeps_DOM m ->
  ∃ w', (m ≫= k) w = k tt w' /\ DOM w' = DOM w.
Proof.
  intros Hc Hk. destruct (Hc w) as [[] Ha]. specialize (Hk w).
  exists (snd (m w)). split; [|exact Hk].
  unfold mbind, JS_bind. destruct (m w) as [[[]|e] w1]; simpl in *; [reflexivity|discriminate].
Qed.

End Routines.

Section StartUp.

Variable H : Host.

Lemma setupScrollAnimations_completion (step : Number.t) (w : World) (secs : list Node) :
  sections (DOM w) = Some secs ->
  fst (setupScrollAnimations step H w) =
    if negb (bool_decide (secs = [])) && negb (has_IntersectionObserver H)
    then Throw ReferenceError else Normal tt.
Proof.
  intros Hs. unfold setupScrollAnimations, mbind at 1, JS_bind at 1, get_DOM.
  rewrite Hs. destruct secs as [|s secs]; [reflexivity|].
  change (length (s :: secs) =? 0)%nat with false. cbv iota.
  rewrite bool_decide_eq_false_2 by discriminate. cbn [negb andb].
  unfold mbind at 1, JS_bind at 1, new_IntersectionObserver.
  destruct (has_IntersectionObserver H); [|reflexivity].
  cbn [negb].
  match goal with
  | |- fst (?m ?w1) = _ => assert (Hc : completes m); [|destruct (Hc w1) as [[] ->]; reflexivity]
  end.
  unfold forEach. apply completes_bind.
  - apply completes_forEach_from. intros x i. apply completes_prepare.
  - intros _. apply completes_console.
Qed.

Lemma setupThemeObserver_completion (w : World) :
  fst (setupThemeObserver H w) =
    if negb (has_MutationObserver H) then Throw ReferenceError
    else match body (DOM w) with
         | Some _ => Normal tt
         | None => Throw TypeError
         end.
Proof.
  unfold setupThemeObserver, mbind, JS_bind, new_MutationObserver, get_DOM.
  destruct (has_MutationObserver H); [|reflexivity].
  cbn [negb DOM record]. destruct (body (DOM w)); reflexivity.
Qed.

End StartUp.

Ltac run_quiet_step Hc Hk :=
  lazymatch goal with
  | |- fst (mbind ?k ?m ?w) = _ =>
      let w' := fresh "w" in
      let D := fresh "D" in
      destruct (run_quiet m k w Hc Hk) as (w' & -> & D)
  end.

(** X1. Whether [init] of script.js completes is decided by three facts of
    the page and the browser: it throws a ReferenceError when there are
    watched sections and no [IntersectionObserver], else a ReferenceError
    when there is no [MutationObserver], else a TypeError when the script
    was loaded before the document had a body, and in every other case it
    completes normally, whichever elements are missing, whatever the
    colours are and also when local storage is denied. *)
Theorem init_completion (H : Host) (w : World) :
  fst (init H w) =
    if negb (bool_decide (querySelectorAll H "section.full-viewport-section" = []))
       && negb (has_IntersectionObserver H)
    then Throw ReferenceError
    else if negb (has_MutationObserver H) then Throw ReferenceError
    else match body (DOM w) with
         | Some _ => Normal tt
         | None => Throw TypeError
         end.
Proof.
  unfold init.
  destruct (keeps_cacheDOMElements H w) as (Hbody & Hsecs & Hc).
  assert (E0 : cacheDOMElements H w = (Normal tt, snd (cacheDOMElements H w))) by reflexivity.
  rewrite (bind_normal _ _ _ _ _ E0). clear E0 Hc.
  generalize dependent (snd (cacheDOMElements H w)). intros w0 Hbody Hsecs.
  run_quiet_step (completes_updateRgbaVars H) (keeps_updateRgbaVars H).
  run_quiet_step completes_setupSmoothScroll keeps_setupSmoothScroll.
  run_quiet_step completes_setupMobileMenu keeps_setupMobileMenu.
  run_quiet_step completes_setupCustomCursor keeps_setupCustomCursor.
  assert (D' : DOM w4 = DOM w0) by congruence. clear D D0 D1 D2.
  pose proof (setupScrollAnimations_completion H ScriptJs.STEP w4 _
                ltac:(rewrite D'; exact Hsecs)) as Hscroll.
  pose proof (keeps_setupScrollAnimations H ScriptJs.STEP w4) as D5.
  unfold mbind at 1, JS_bind at 1.
  change (ScriptJs.setupScrollAnimations H w4) with (setupScrollAnimations ScriptJs.STEP H w4).
  destruct (setupScrollAnimations ScriptJs.STEP H w4) as [[[]|e] w5]; simpl in Hscroll, D5.
  - destruct (negb (bool_decide _) && negb _); [discriminate|].
    run_quiet_step completes_setupThemeToggle keeps_setupThemeToggle.
    pose proof (setupThemeObserver_completion H w6) as Hobs.
    replace (body (DOM w6)) with (body (DOM w)) in Hobs by congruence.
    unfold mbind at 1, JS_bind at 1.
    destruct (setupThemeObserver H w6) as [[[]|e] w7]; simpl in Hobs.
    + destruct (negb (has_MutationObserver H)); [discriminate|].
      destruct (body (DOM w)); [|discriminate].
      run_quiet_step (completes_setupFormValidation H) (keeps_setupFormValidation H).
      reflexivity.
    + simpl. rewrite Hobs. reflexivity.
  - simpl. rewrite Hscroll.
    destruct (negb (bool_decide _) && negb _); [reflexivity|discriminate].
Qed.

Section Colors.

Lemma hexToRgb_run (s : string) (w : World) :
  ∃ v w1, hexToRgb (JsString s) w = (Normal v, w1) /\
          (∀ w0, fst (hexToRgb (JsString s) w0) = Normal v) /\
          logs_only w w1.
Proof.
  unfold hexToRgb, ToBoolean.
  assert (Hw : logs_only w (record (Console "warn" "Invalid hex color:") w)).
  { repeat split. exists [Console "warn" "Invalid hex color:"]. split; [reflexivity|].
    constructor; [reflexivity|constructor]. }
  assert (Hr : logs_only w w).
  { repeat split. exists []. split; [symmetry; apply app_nil_r|constructor]. }
  destruct (String.eqb s "").
  { eexists _, _. split; [reflexivity|]. split; [reflexivity|exact Hw]. }
  cbn [negb]. destruct (includes_char "#" s).
  2:{ eexists _, _. split; [reflexivity|]. split; [reflexivity|exact Hw]. }
  cbn [negb]. unfold try_catch.
  destruct (exec_color s) as [[[r g] b]|];
    (eexists _, _; split; [reflexivity|]; split; [reflexivity|exact Hr]).
Qed.

Lemma updateRgbaVars_spec (H : Host) (w : World) :
  ∃ v1 v2 v3 v4 w' new,
    updateRgbaVars H w = (Normal tt, w') /\
    rgb_value H w "--current-accent" = Normal v1 /\
    rgb_value H w "--current-primary" = Normal v2 /\
    rgb_value H w "--current-secondary" = Normal v3 /\
    rgb_value H w "--current-background" = Normal v4 /\
    DOM w' = DOM w /\ heap w' = heap w /\
    localStorage w' = localStorage w /\ observer w' = observer w /\
    rootStyle w' = <["--current-background-rgb" := v4]>
                     (<["--current-secondary-rgb" := v3]>
                        (<["--current-primary-rgb" := v2]>
                           (<["--current-accent-rgb" := v1]> (rootStyle w)))) /\
    calls w' = calls w ++ new /\
    Forall (λ c, ∀ msg, c ≠ Console "error" msg) new /\
    last new = Some (Console "log" "RGBA variables updated").
Proof.
  unfold updateRgbaVars, try_catch, rgb_value.
  unfold mbind at 1, JS_bind at 1. cbv zeta.
  set (f := getPropertyValue H (heap w)).
  destruct (hexToRgb_run (trim (f "--current-accent")) w) as (v1 & w1 & E1 & V1 & L1).
  rewrite (bind_normal _ _ _ _ _ E1).
  unfold mbind at 1, JS_bind at 1, setProperty at 1.
  set (w1' := record _ (with_rootStyle _ w1)).
  destruct (hexToRgb_run (trim (f "--current-primary")) w1') as (v2 & w2 & E2 & V2 & L2).
  rewrite (bind_normal _ _ _ _ _ E2).
  unfold mbind at 1, JS_bind at 1, setProperty at 1.
  set (w2' := record _ (with_rootStyle _ w2)).
  destruct (hexToRgb_run (trim (f "--current-secondary")) w2') as (v3 & w3 & E3 & V3 & L3).
  rewrite (bind_normal _ _ _ _ _ E3).
  unfold mbind at 1, JS_bind at 1, setProperty at 1.
  set (w3' := record _ (with_rootStyle _ w3)).
  destruct (hexToRgb_run (trim (f "--current-background")) w3') as (v4 & w4 & E4 & V4 & L4).
  rewrite (bind_normal _ _ _ _ _ E4).
  unfold mbind at 1, JS_bind at 1, setProperty at 1, console.
  destruct L1 as (D1 & H1 & R1 & S1 & O1 & n1 & C1 & F1).
  destruct L2 as (D2 & H2 & R2 & S2 & O2 & n2 & C2 & F2).
  destruct L3 as (D3 & H3 & R3 & S3 & O3 & n3 & C3 & F3).
  destruct L4 as (D4 & H4 & R4 & S4 & O4 & n4 & C4 & F4).
  subst w1' w2' w3'. simpl in *.
  eexists v1, v2, v3, v4, _,
    (n1 ++ [SetProperty "--current-accent-rgb" v1] ++
     n2 ++ [SetProperty "--current-primary-rgb" v2] ++
     n3 ++ [SetProperty "--current-secondary-rgb" v3] ++
     n4 ++ [SetProperty "--current-background-rgb" v4] ++
     [Console "log" "RGBA variables updated"]).
  split; [reflexivity|].
  cbn [DOM heap rootStyle localStorage observer calls record with_rootStyle].
  repeat split; auto; try congruence.
  - rewrite C4, C3, C2, C1. rewrite <- !app_assoc. reflexivity.
  - repeat first [ apply Forall_app; split
                 | apply Forall_cons; split; [intros msg; discriminate|]
                 | apply Forall_nil
                 | match goal with
                   | F : Forall _ ?n |- Forall _ ?n =>
                       eapply Forall_impl; [exact F|]; intros c -> msg; discriminate
                   end
                 | exact I ].
  - rewrite !app_assoc. apply last_snoc.
Qed.

Ltac white_space_cases Hc :=
  vm_compute in Hc;
  repeat (apply elem_of_cons in Hc as [-> | Hc]);
  [.. | apply elem_of_nil in Hc; contradiction].

Lemma white_space_not_solid (bytes : list ascii) (a : ascii) :
  is_white_space bytes = true -> a ∈ bytes -> solid a = false.
Proof.
  intros Hc Ha. apply bool_decide_eq_true in Hc.
  white_space_cases Hc;
    repeat (apply elem_of_cons in Ha as [-> | Ha]); try reflexivity;
    apply elem_of_nil in Ha; contradiction.
Qed.

(** Stripping stops at a byte that belongs to no white space. *)
Lemma solid_stops (arrange : list ascii -> list ascii) (a : ascii) (s : list ascii) :
  (∀ l, a ∈ arrange (a :: l)) -> solid a = true -> strip arrange (a :: s) = a :: s.
Proof.
  intros Harr Ha.
  assert (Hno : ∀ l, is_white_space (arrange (a :: l)) = false).
  { intros l. destruct (is_white_space (arrange (a :: l))) eqn:E; [|reflexivity].
    rewrite (white_space_not_solid _ a E (Harr l)) in Ha. discriminate. }
  cbn [strip]. rewrite Hno. destruct s as [|b [|c s]]; rewrite ?Hno; reflexivity.
Qed.

Lemma trim_start_white_space (c rest : list ascii) :
  c ∈ WHITE_SPACE -> trim_start (c ++ rest) = trim_start rest.
Proof. intros Hc. unfold trim_start. white_space_cases Hc; reflexivity. Qed.

Lemma strip_rev_white_space (c rest : list ascii) :
  c ∈ WHITE_SPACE -> strip (@rev ascii) (rev c ++ rest) = strip (@rev ascii) rest.
Proof. intros Hc. white_space_cases Hc; reflexivity. Qed.

Lemma trim_start_blank (chars : list (list ascii)) (rest : list ascii) :
  Forall (λ c, c ∈ WHITE_SPACE) chars ->
  trim_start (concat chars ++ rest) = trim_start rest.
Proof.
  induction 1 as [|c chars Hc _ IH]; [reflexivity|].
  cbn [concat]. rewrite <- app_assoc, trim_start_white_space by exact Hc. exact IH.
Qed.

Lemma strip_rev_blank (chars : list (list ascii)) (rest : list ascii) :
  Forall (λ c, c ∈ WHITE_SPACE) chars ->
  strip (@rev ascii) (rev (concat chars) ++ rest) = strip (@rev ascii) rest.
Proof.
  intros Hall. revert rest.
  induction Hall as [|c chars Hc _ IH]; intros rest; [reflexivity|].
  cbn [concat]. rewrite rev_app_distr, <- app_assoc, IH.
  apply strip_rev_white_space. exact Hc.
Qed.

Lemma list_ascii_of_string_append (a b : string) :
  list_ascii_of_string (a ++ b) = list_ascii_of_string a ++ list_ascii_of_string b.
Proof. induction a as [|c a IH]; simpl; [reflexivity|]. rewrite IH. reflexivity. Qed.

(** White space around a text that neither starts nor ends with a byte of
    a white space is what [trim] removes. *)
Lemma trim_padded (pre post : string) (c d : ascii) (mid : list ascii) :
  blank_text pre -> blank_text post ->
  solid c = true -> solid d = true ->
  trim (pre ++ string_of_list_ascii (c :: mid ++ [d]) ++ post)
  = string_of_list_ascii (c :: mid ++ [d]).
Proof.
  unfold trim, trim_end. intros (l1 & Hl1 & Hpre) (l2 & Hl2 & Hpost) Hc Hd.
  rewrite !list_ascii_of_string_append, list_ascii_of_string_of_list_ascii, Hpre, Hpost.
  rewrite trim_start_blank by exact Hl1.
  change ((c :: mid ++ [d]) ++ concat l2) with (c :: (mid ++ [d]) ++ concat l2).
  unfold trim_start. rewrite solid_stops; [| intros l; left | exact Hc].
  change (c :: (mid ++ [d]) ++ concat l2) with ((c :: mid ++ [d]) ++ concat l2).
  rewrite rev_app_distr, strip_rev_blank by exact Hl2.
  change (c :: mid ++ [d]) with ((c :: mid) ++ [d]).
  rewrite (rev_app_distr (c :: mid) [d]).
  change (rev [d] ++ rev (c :: mid)) with (d :: rev (c :: mid)).
  rewrite solid_stops; [| | exact Hd].
  - change (d :: rev (c :: mid)) with (rev [d] ++ rev (c :: mid)).
    rewrite <- rev_app_distr, rev_involutive. reflexivity.
  - intros l. change (d :: l) with ([d] ++ l). rewrite rev_app_distr.
    apply elem_of_app. right. left.
Qed.

(** [trim] on samples: it strips the no-break space and the byte order
    mark as it strips spaces, and leaves white space inside the text and
    bytes that only begin a white space alone. *)
Example trim_samples :
  trim (Padded.before ++ "#1a2b3c" ++ Padded.after) = "#1a2b3c" /\
  trim (" a  b" ++ String (ascii_of_N 9) (String (ascii_of_N 13) EmptyString)) = "a  b" /\
  trim "  " = "" /\
  trim (String (ascii_of_N 226) (String (ascii_of_N 128) "x"))
  = String (ascii_of_N 226) (String (ascii_of_N 128) "x").
Proof. repeat split; vm_compute; reflexivity. Qed.

Lemma hexToRgb_triple (hex : JsValue) (w : World) :
  ∃ r g b, (r <= 255)%N /\ (g <= 255)%N /\ (b <= 255)%N /\
           fst (hexToRgb hex w) = Normal (rgb_text r g b).
Proof.
  assert (Hfallback : ∃ r g b, (r <= 255)%N /\ (g <= 255)%N /\ (b <= 255)%N /\
                               Normal (A := string) "0,0,0" = Normal (rgb_text r g b)).
  { exists 0%N, 0%N, 0%N. repeat split; lia. }
  destruct (string_or_not hex) as [[s ->]|Hns].
  - rewrite hexToRgb_string.
    destruct (negb (String.eqb s "") && includes_char "#" s); [|exact Hfallback].
    destruct (exec_color s) as [[[r g] b]|] eqn:E; [|exact Hfallback].
    apply exec_color_some in E as (c1 & c2 & c3 & c4 & c5 & c6 & Hhex & _ & -> & -> & ->).
    apply forallb_six in Hhex as (H1 & H2 & H3 & H4 & H5 & H6).
    apply is_hex_digit_value in H1 as [v1 H1], H2 as [v2 H2], H3 as [v3 H3],
      H4 as [v4 H4], H5 as [v5 H5], H6 as [v6 H6].
    rewrite (parseInt16_pair _ _ _ _ H1 H2), (parseInt16_pair _ _ _ _ H3 H4),
      (parseInt16_pair _ _ _ _ H5 H6).
    apply digit_value_bound in H1, H2, H3, H4, H5, H6.
    exists (16 * v1 + v2)%N, (16 * v3 + v4)%N, (16 * v5 + v6)%N.
    repeat split; try lia.
  - rewrite hexToRgb_not_string by exact Hns. exact Hfallback.
Qed.

Lemma hexToRgb_hash_six (a b c d e f : ascii) (va vb vc vd ve vf : N) (w : World) :
  digit_value a = Some va -> digit_value b = Some vb ->
  digit_value c = Some vc -> digit_value d = Some vd ->
  digit_value e = Some ve -> digit_value f = Some vf ->
  fst (hexToRgb (JsString (String "#" (six a b c d e f))) w)
  = Normal (rgb_text (16 * va + vb) (16 * vc + vd) (16 * ve + vf)).
Proof.
  intros Ha Hb Hc Hd He Hf.
  rewrite hexToRgb_string. change (negb (String.eqb _ "") && _) with true.
  cbv iota. rewrite exec_color_hash.
  replace (forallb is_hex_digit [a; b; c; d; e; f]) with true.
  - rewrite (parseInt16_pair _ _ _ _ Ha Hb), (parseInt16_pair _ _ _ _ Hc Hd),
      (parseInt16_pair _ _ _ _ He Hf). reflexivity.
  - symmetry. apply forallb_six.
    repeat split; eapply value_is_hex_digit; eassumption.
Qed.

Lemma color_vars_cases (P : string -> string -> Prop) (src dst : string) :
  P "--current-accent" "--current-accent-rgb" ->
  P "--current-primary" "--current-primary-rgb" ->
  P "--current-secondary" "--current-secondary-rgb" ->
  P "--current-background" "--current-background-rgb" ->
  (src, dst) ∈ COLOR_VARS -> P src dst.
Proof.
  intros P1 P2 P3 P4 Hin. unfold COLOR_VARS in Hin.
  repeat (apply elem_of_cons in Hin as [[= -> ->] | Hin]; [assumption|]).
  apply elem_of_nil in Hin. contradiction.
Qed.

End Colors.

(** X2. [updateRgbaVars] never throws and never reaches its handler. It
    writes the four [-rgb] properties of the root style, each with three
    decimal components between 0 and 255: what [hexToRgb] makes of the
    trimmed computed value of the colour property it belongs to. It leaves
    every other property of the root style, the elements, the cache, the
    storage and the observer as they are. *)
Theorem updateRgbaVars_writes_triples (H : Host) (w : World) :
  let w' := snd (updateRgbaVars H w) in
  fst (updateRgbaVars H w) = Normal tt /\
  DOM w' = DOM w /\ heap w' = heap w /\
  localStorage w' = localStorage w /\ observer w' = observer w /\
  (∀ src dst, (src, dst) ∈ COLOR_VARS ->
     ∃ r g b, (r <= 255)%N /\ (g <= 255)%N /\ (b <= 255)%N /\
       rootStyle w' !! dst = Some (rgb_text r g b) /\
       fst (hexToRgb (JsString (trim (getPropertyValue H (heap w) src))) w)
       = Normal (rgb_text r g b)) /\
  (∀ name, (∀ src, (src, name) ∉ COLOR_VARS) -> rootStyle w' !! name = rootStyle w !! name) /\
  (∀ msg, Console "error" msg ∉ drop (length (calls w)) (calls w')).
Proof.
  destruct (updateRgbaVars_spec H w)
    as (v1 & v2 & v3 & v4 & w' & new & E & V1 & V2 & V3 & V4 & HD & HH & HS & HO & HR & HC & HF & _).
  rewrite E. cbn [fst snd].
  split; [reflexivity|]. do 4 (split; [assumption|]).
  split; [|split].
  - intros src dst Hin.
    assert (Hv : ∃ v, rgb_value H w src = Normal v /\ rootStyle w' !! dst = Some v).
    { rewrite HR. pattern src, dst. apply color_vars_cases; [| | | |exact Hin].
      - exists v1. split; [exact V1|].
        rewrite !lookup_insert_ne by discriminate. apply lookup_insert_eq.
      - exists v2. split; [exact V2|].
        rewrite !lookup_insert_ne by discriminate. apply lookup_insert_eq.
      - exists v3. split; [exact V3|].
        rewrite !lookup_insert_ne by discriminate. apply lookup_insert_eq.
      - exists v4. split; [exact V4|]. apply lookup_insert_eq. }
    destruct Hv as (v & Hv & Hlook). unfold rgb_value in Hv.
    destruct (hexToRgb_triple (JsString (trim (getPropertyValue H (heap w) src))) w)
      as (r & g & b & Hr & Hg & Hb & Ht).
    exists r, g, b. repeat split; try assumption. congruence.
  - intros name Hname. rewrite HR.
    rewrite !lookup_insert_ne; [reflexivity| | | |];
      intros <-; eapply Hname; unfold COLOR_VARS;
      repeat first [apply list_elem_of_here | apply list_elem_of_further].
  - intros msg Hin. rewrite HC, drop_app_length in Hin.
    rewrite Forall_forall in HF.
    exact (HF _ Hin msg eq_refl).
Qed.

Lemma hex_digit_solid (c : ascii) (v : N) :
  digit_value c = Some v -> solid c = true.
Proof.
  destruct c as [[] [] [] [] [] [] [] []]; intros Hv; vm_compute in Hv |- *;
    first [reflexivity | discriminate].
Qed.

(** X3. White space around a computed colour does not matter: when the
    computed value of a colour property is ["#RRGGBB"] with white space
    before or after it, [updateRgbaVars] writes the decimal values of the
    three digit pairs to the matching [-rgb] property. *)
Theorem updateRgbaVars_ignores_padding
  (H : Host) (w : World) (src dst pre post : string)
  (a b c d e f : ascii) (va vb vc vd ve vf : N) :
  (src, dst) ∈ COLOR_VARS ->
  blank_text pre -> blank_text post ->
  digit_value a = Some va -> digit_value b = Some vb ->
  digit_value c = Some vc -> digit_value d = Some vd ->
  digit_value e = Some ve -> digit_value f = Some vf ->
  getPropertyValue H (heap w) src = (pre ++ String "#" (six a b c d e f) ++ post)%string ->
  rootStyle (snd (updateRgbaVars H w)) !! dst
  = Some (rgb_text (16 * va + vb) (16 * vc + vd) (16 * ve + vf)).
Proof.
  intros Hin Hpre Hpost Ha Hb Hc Hd He Hf Hval.
  destruct (updateRgbaVars_writes_triples H w) as (_ & _ & _ & _ & _ & Hvars & _).
  destruct (Hvars src dst Hin) as (r & g & b' & _ & _ & _ & -> & Hv).
  rewrite Hval in Hv.
  pose proof (hex_digit_solid f vf Hf) as Hf'.
  change (String "#" (six a b c d e f))
    with (string_of_list_ascii ("#"%char :: [a; b; c; d; e] ++ [f])) in Hv.
  rewrite trim_padded in Hv by (assumption || reflexivity).
  change (string_of_list_ascii ("#"%char :: [a; b; c; d; e] ++ [f]))
    with (String "#" (six a b c d e f)) in Hv.
  rewrite (hexToRgb_hash_six _ _ _ _ _ _ _ _ _ _ _ _ w Ha Hb Hc Hd He Hf) in Hv.
  congruence.
Qed.

Lemma updateRgbaVars_ignores_padding_witness :
  rootStyle (snd (updateRgbaVars Padded.host Padded.loaded)) !! "--current-primary-rgb"
  = Some "26,43,60".
Proof.
  apply (updateRgbaVars_ignores_padding Padded.host Padded.loaded
           "--current-primary" "--current-primary-rgb" Padded.before Padded.after
           "1" "a" "2" "b" "3" "c" 1 10 2 11 3 12);
    try reflexivity.
  - unfold COLOR_VARS. apply list_elem_of_further, list_elem_of_here.
  - exists [[ascii_of_N 194; ascii_of_N 160]; [" "%char]].
    split; [|reflexivity]. repeat constructor; decide_now.
  - exists [[ascii_of_N 239; ascii_of_N 187; ascii_of_N 191]; [ascii_of_N 10]].
    split; [|reflexivity]. repeat constructor; decide_now.
Defined.

(** X4. [hexToRgb] changes nothing but the trace: on a string with a
    ['#'] it leaves the world as it is, on every other value it appends one
    warning, [Invalid hex color:]. It never reaches its handler, so it never
    logs an error. *)
Theorem hexToRgb_only_warns (hex : JsValue) (w : World) :
  (∀ s, hex = JsString s -> includes_char "#" s = true -> snd (hexToRgb hex w) = w) /\
  ((∀ s, hex = JsString s -> includes_char "#" s = false) ->
   snd (hexToRgb hex w) = record (Console "warn" "Invalid hex color:") w).
Proof.
  split.
  - intros s -> Hinc. unfold hexToRgb, ToBoolean.
    destruct s as [|c s]; [discriminate|]. cbn [String.eqb negb].
    rewrite Hinc. cbn [negb]. unfold try_catch.
    destruct (exec_color (String c s)) as [[[r g] b]|]; reflexivity.
  - intros Hno. destruct hex as [| |b|x|s|]; try reflexivity.
    + destruct b; reflexivity.
    + destruct x as [| | |sg m e]; reflexivity.
    + unfold hexToRgb, ToBoolean. rewrite (Hno s eq_refl).
      destruct (String.eqb s ""); reflexivity.
Qed.

(** X5. The observer callback only adds, whatever reports it gets and also
    when it ends by throwing: it leaves the cache, the root style and the
    storage alone, changes no attribute, removes no class and no delay,
    observes nothing new, changes only descendants of the targets of
    qualifying reports and releases only such targets. *)
Theorem callback_only_adds (step : Number.t) (H : Host) (entries : list Entry) (w : World) :
  let w' := snd (observerCallback step H entries w) in
  DOM w' = DOM w /\ rootStyle w' = rootStyle w /\ localStorage w' = localStorage w /\
  (∀ x, attributes (heap w' x) = attributes (heap w x)) /\
  (∀ x tok, tok ∈ classList (heap w x) -> tok ∈ classList (heap w' x)) /\
  (∀ x, is_Some (animationDelay (heap w x)) -> is_Some (animationDelay (heap w' x))) /\
  watched w' ⊆ watched w /\
  (∀ x, (∀ e, e ∈ entries -> isIntersecting e = true ->
              x ∉ element_querySelectorAll H (target e) ANIMATABLE) ->
        heap w' x = heap w x) /\
  (∀ t, t ∈ watched w ->
        (∀ e, e ∈ entries -> isIntersecting e = true -> target e ≠ t) ->
        t ∈ watched w').
Proof.
  intros w'.
  destruct (effect_observerCallback step H entries w)
    as [E1 E2 E3 Eframe E5 E6 E7 _ E9 Ereleased].
  fold w' in E1, E2, E3, Eframe, E5, E6, E7, E9, Ereleased.
  repeat split; try assumption.
  - intros x Hx. apply Eframe. intros (e & He & Hi & Hin). exact (Hx e He Hi Hin).
  - intros t Ht Hne. apply Ereleased; [exact Ht|].
    intros (e & He & Hi & Heq). exact (Hne e He Hi (eq_sym Heq)).
Qed.

(** X6. The menu follows the actions: after any sequence of clicks on the
    toggle and calls of [closeMobileMenu], the links carry the [open] class
    exactly when the last call of [closeMobileMenu] (or the start, where the
    menu may be open) was followed by an odd number of clicks, counting an
    open start as one click. *)
Theorem menu_follows_actions
  (w : World) (links toggle b : Node) (actions : list MenuAction) :
  navLinks (DOM w) = Some links -> navToggle (DOM w) = Some toggle ->
  body (DOM w) = Some b ->
  links ≠ toggle -> links ≠ b -> toggle ≠ b ->
  ("open" ∈ classList (heap (menu_run actions w) links) <->
   menu_open_after actions (bool_decide ("open" ∈ classList (heap w links))) = true).
Proof.
  intros Hl Ht Hb Hlt Hlb Htb. revert w Hl Ht Hb.
  induction actions as [|a actions IH]; intros w Hl Ht Hb.
  - simpl. rewrite bool_decide_eq_true. tauto.
  - simpl. 
    assert (Hstep : DOM (menu_step a w) = DOM w /\
                    bool_decide ("open" ∈ classList (heap (menu_step a w) links))
                    = match a with
                      | ClickToggle => negb (bool_decide ("open" ∈ classList (heap w links)))
                      | CloseMenu => false
                      end).
    { destruct a; simpl menu_step.
      - destruct (onclick_spec links toggle b Hlt Hlb Htb w Hl Ht Hb) as (HD & Ol & _).
        split; [exact HD|].
        destruct (decide ("open" ∈ classList (heap w links))) as [Hin|Hnin].
        + rewrite (bool_decide_eq_true_2 _ Hin). apply bool_decide_eq_false_2. tauto.
        + rewrite (bool_decide_eq_false_2 _ Hnin). apply bool_decide_eq_true_2. tauto.
      - destruct (close_spec links toggle b Hlt Hlb Htb w Hl Ht Hb)
          as (HD & [(_ & Cl & _)|(Hclosed & ->)]).
        + split; [exact HD|]. apply bool_decide_eq_false_2. exact Cl.
        + split; [reflexivity|]. apply bool_decide_eq_false_2. exact Hclosed. }
    destruct Hstep as [HD Hopen]. rewrite <- Hopen.
    apply IH; rewrite HD; assumption.
Qed.

Lemma menu_follows_actions_witness :
  "open" ∈ classList
    (heap (menu_run [ClickToggle; ClickToggle; CloseMenu; ClickToggle] Sample.ready) 3%nat).
Proof.
  apply (menu_follows_actions Sample.ready 3%nat 2%nat 1%nat);
    first [reflexivity | discriminate].
Defined.

Section Theme.

Variable H : Host.

Lemma validate_light : TokenList.validate "light-mode" = Normal tt.
Proof. reflexivity. Qed.

Lemma validate_active : TokenList.validate "active" = Normal tt.
Proof. reflexivity. Qed.

(** What a toggle does, class by class. *)
Lemma classList_toggle_run (el : Node) (tok : string) (w : World) :
  TokenList.validate tok = Normal tt ->
  ∃ w1, classList_toggle el tok w
        = (Normal (negb (bool_decide (tok ∈ classList (heap w el)))), w1) /\
        DOM w1 = DOM w /\ localStorage w1 = localStorage w /\
        (∀ x t, t ∈ classList (heap w1 x) <->
                if decide (x = el /\ t = tok) then ¬ t ∈ classList (heap w x)
                else t ∈ classList (heap w x)).
Proof.
  intros Hv. unfold classList_toggle. rewrite Hv. eexists. split; [reflexivity|].
  cbn [DOM localStorage heap record with_heap].
  split; [reflexivity|]. split; [reflexivity|].
  intros x t. rewrite heap_alter. destruct (decide (el = x)) as [->|Hne].
  - cbn [classList with_classList]. unfold TokenList.contains.
    case_bool_decide as Hin; case_decide as Hd;
      rewrite ?elem_of_token_remove, ?elem_of_token_add; naive_solver.
  - case_decide as Hd; naive_solver.
Qed.

Lemma toggle_icon_run (o : option Node) (w : World) :
  ∃ w1, when_some o (λ n, classList_toggle n "active";; skip) w = (Normal tt, w1) /\
        DOM w1 = DOM w /\ localStorage w1 = localStorage w /\
        (∀ x t, t ∈ classList (heap w1 x) <->
                if decide (o = Some x /\ t = "active") then ¬ t ∈ classList (heap w x)
                else t ∈ classList (heap w x)).
Proof.
  destruct o as [n|]; cbn [when_some].
  - destruct (classList_toggle_run n "active" w validate_active) as (w1 & E & HD & HS & Hc).
    exists w1. rewrite (bind_normal _ _ _ _ _ E). split; [reflexivity|].
    split; [assumption|]. split; [assumption|].
    intros x t. rewrite Hc. repeat case_decide; naive_solver.
  - exists w. split; [reflexivity|]. split; [reflexivity|]. split; [reflexivity|].
    intros x t. destruct (decide _); naive_solver.
Qed.

Lemma save_theme_run (stored : bool) (value : string) (w : World) :
  ∃ w1, try_catch (localStorage_setItem stored "theme" value)
          (λ _, console "warn" "Could not save theme preference:") w = (Normal tt, w1) /\
        DOM w1 = DOM w /\ heap w1 = heap w /\
        localStorage w1
        = if stored then <["theme" := value]> <$> localStorage w else localStorage w.
Proof.
  unfold try_catch, localStorage_setItem.
  destruct (localStorage w) as [m|] eqn:E, stored;
    (eexists; split; [reflexivity|]; simpl; rewrite ?E; auto).
Qed.

(** One click on the theme button. *)
Lemma theme_click_spec (stored : bool) (w : World) (b : Node) :
  body (DOM w) = Some b ->
  ∃ w', themeToggle_onclick H stored w = (Normal tt, w') /\
        DOM w' = DOM w /\
        localStorage w' =
          (if stored
           then <["theme" := if bool_decide ("light-mode" ∈ classList (heap w b))
                             then "dark-mode" else "light-mode"]> <$> localStorage w
           else localStorage w) /\
        (∀ x t, t ∈ classList (heap w' x) <->
                if decide ((x = b /\ t = "light-mode") \/
                           ((sunIcon (DOM w) = Some x) /\ ¬ (moonIcon (DOM w) = Some x) /\ t = "active") \/
                           (¬ (sunIcon (DOM w) = Some x) /\ (moonIcon (DOM w) = Some x) /\ t = "active"))
                then ¬ t ∈ classList (heap w x)
                else t ∈ classList (heap w x)).
Proof.
  intros Hb. unfold themeToggle_onclick.
  unfold mbind at 1, JS_bind at 1, get_DOM. unfold mbind at 1, JS_bind at 1, deref.
  rewrite Hb. cbn [mret JS_ret].
  destruct (classList_toggle_run b "light-mode" w validate_light) as (w1 & E1 & D1 & S1 & C1).
  rewrite (bind_normal _ _ _ _ _ E1).
  destruct (save_theme_run stored
              (if negb (bool_decide ("light-mode" ∈ classList (heap w b)))
               then "light-mode" else "dark-mode") w1) as (w2 & E2 & D2 & H2 & S2).
  rewrite (bind_normal _ _ _ _ _ E2).
  destruct (toggle_icon_run (sunIcon (DOM w)) w2) as (w3 & E3 & D3 & S3 & C3).
  rewrite (bind_normal _ _ _ _ _ E3).
  destruct (toggle_icon_run (moonIcon (DOM w)) w3) as (w4 & E4 & D4 & S4 & C4).
  rewrite (bind_normal _ _ _ _ _ E4).
  destruct (updateRgbaVars_spec H w4)
    as (v1 & v2 & v3 & v4 & w' & new & E & _ & _ & _ & _ & HD & HH & HS & _).
  exists w'. split; [exact E|]. split; [congruence|]. split.
  - rewrite HS, S4, S3, S2, S1.
    destruct stored, (bool_decide ("light-mode" ∈ classList (heap w b))); reflexivity.
  - intros x t. rewrite HH.
    pose proof (C4 x t) as C4'. pose proof (C3 x t) as C3'. rewrite H2 in C3'.
    pose proof (C1 x t) as C1'. clear -C4' C3' C1'.
    destruct (decide (t ∈ classList (heap w x)));
      repeat case_decide; intuition congruence.
Qed.


Lemma classList_add_run (el : Node) (tok : string) (w : World) :
  TokenList.validate tok = Normal tt ->
  ∃ w1, classList_add el tok w = (Normal tt, w1) /\
        DOM w1 = DOM w /\ localStorage w1 = localStorage w /\
        calls w1 = calls w ++ [ClassListAdd el tok] /\
        (∀ x t, t ∈ classList (heap w1 x) <->
                (x = el /\ t = tok) \/ t ∈ classList (heap w x)).
Proof.
  intros Hv. unfold classList_add. rewrite Hv. eexists. split; [reflexivity|].
  cbn [DOM localStorage heap calls record with_heap].
  do 3 (split; [reflexivity|]).
  intros x t. rewrite heap_alter. destruct (decide (el = x)) as [->|Hne].
  - cbn [classList with_classList]. rewrite elem_of_token_add. intuition congruence.
  - intuition congruence.
Qed.

Lemma classList_remove_run (el : Node) (tok : string) (w : World) :
  TokenList.validate tok = Normal tt ->
  ∃ w1, classList_remove el tok w = (Normal tt, w1) /\
        DOM w1 = DOM w /\ localStorage w1 = localStorage w /\
        calls w1 = calls w ++ [ClassListRemove el tok] /\
        (∀ x t, t ∈ classList (heap w1 x) <->
                ¬ (x = el /\ t = tok) /\ t ∈ classList (heap w x)).
Proof.
  intros Hv. unfold classList_remove. rewrite Hv. eexists. split; [reflexivity|].
  cbn [DOM localStorage heap calls record with_heap].
  do 3 (split; [reflexivity|]).
  intros x t. rewrite heap_alter. destruct (decide (el = x)) as [->|Hne].
  - cbn [classList with_classList]. rewrite elem_of_token_remove. intuition congruence.
  - intuition congruence.
Qed.

Lemma icon_add_run (o : option Node) (w : World) :
  ∃ w1, when_some o (λ n, classList_add n "active") w = (Normal tt, w1) /\
        DOM w1 = DOM w /\ localStorage w1 = localStorage w /\
        calls w1 = calls w ++ from_option (λ n, [ClassListAdd n "active"]) [] o /\
        (∀ x t, t ∈ classList (heap w1 x) <->
                (o = Some x /\ t = "active") \/ t ∈ classList (heap w x)).
Proof.
  destruct o as [n|]; cbn [when_some from_option].
  - destruct (classList_add_run n "active" w validate_active) as (w1 & E & HD & HS & HC & Hc).
    exists w1. do 4 (split; [assumption|]). intros x t. rewrite Hc. intuition congruence.
  - exists w. split; [reflexivity|]. rewrite app_nil_r. do 3 (split; [reflexivity|]).
    intros x t. intuition congruence.
Qed.

Lemma icon_remove_run (o : option Node) (w : World) :
  ∃ w1, when_some o (λ n, classList_remove n "active") w = (Normal tt, w1) /\
        DOM w1 = DOM w /\ localStorage w1 = localStorage w /\
        calls w1 = calls w ++ from_option (λ n, [ClassListRemove n "active"]) [] o /\
        (∀ x t, t ∈ classList (heap w1 x) <->
                ¬ (o = Some x /\ t = "active") /\ t ∈ classList (heap w x)).
Proof.
  destruct o as [n|]; cbn [when_some from_option].
  - destruct (classList_remove_run n "active" w validate_active) as (w1 & E & HD & HS & HC & Hc).
    exists w1. do 4 (split; [assumption|]). intros x t. rewrite Hc.
    split; intros [Hn Hin]; (split; [|exact Hin]); intros [Heq Ht]; apply Hn;
      (split; [congruence|exact Ht]).
  - exists w. split; [reflexivity|]. rewrite app_nil_r. do 3 (split; [reflexivity|]).
    intros x t. split; [intros Hin; split; [intros [[=] _]|exact Hin]|intros [_ Hin]; exact Hin].
Qed.

(** [setupThemeToggle] where the button exists, the storage can be read
    and, for a saved light theme, the body exists. *)
Lemma setupThemeToggle_spec (w : World) (t b : Node) (m : gmap string string) :
  themeToggle (DOM w) = Some t -> localStorage w = Some m ->
  (m !! "theme" = Some "light-mode" -> body (DOM w) = Some b) ->
  ∃ w', setupThemeToggle w = (Normal tt, w') /\
        DOM w' = DOM w /\ localStorage w' = localStorage w /\
        (∃ ops, Forall silent ops /\
                calls w' = calls w ++ ops ++
                  [AddEventListener (TElement t) "click" ThemeToggleClick;
                   Console "log" "Theme toggle setup complete"]) /\
        (∀ x tk, tk ∈ classList (heap w' x) <->
           if bool_decide (m !! "theme" = Some "light-mode")
           then (moonIcon (DOM w) = Some x /\ tk = "active") \/
                (¬ (sunIcon (DOM w) = Some x /\ tk = "active") /\
                 ((x = b /\ tk = "light-mode") \/ tk ∈ classList (heap w x)))
           else ¬ (moonIcon (DOM w) = Some x /\ tk = "active") /\
                ((sunIcon (DOM w) = Some x /\ tk = "active") \/ tk ∈ classList (heap w x))).
Proof.
  intros Ht Hm Hb. unfold setupThemeToggle.
  unfold mbind at 1, JS_bind at 1, get_DOM. rewrite Ht. unfold try_catch.
  unfold mbind at 1, JS_bind at 1, localStorage_getItem. rewrite Hm.
  destruct (decide (m !! "theme" = Some "light-mode")) as [Hl|Hl].
  - rewrite (bool_decide_eq_true_2 _ Hl). rewrite (Hb Hl). cbn [deref].
    unfold mbind at 3, JS_bind at 3. cbn [mret JS_ret].
    destruct (classList_add_run b "light-mode" w validate_light) as (w1 & E1 & D1 & S1 & K1 & C1).
    unfold mbind at 1, JS_bind at 1. rewrite (bind_normal _ _ _ _ _ E1).
    destruct (icon_remove_run (sunIcon (DOM w)) w1) as (w2 & E2 & D2 & S2 & K2 & C2).
    rewrite (bind_normal _ _ _ _ _ E2).
    destruct (icon_add_run (moonIcon (DOM w)) w2) as (w3 & E3 & D3 & S3 & K3 & C3).
    rewrite E3. eexists. split; [reflexivity|].
    cbn [DOM localStorage heap calls record]. split; [congruence|]. split; [congruence|].
    split.
    + exists ([ClassListAdd b "light-mode"] ++
              from_option (λ n, [ClassListRemove n "active"]) [] (sunIcon (DOM w)) ++
              from_option (λ n, [ClassListAdd n "active"]) [] (moonIcon (DOM w))).
      split; [destruct (sunIcon (DOM w)), (moonIcon (DOM w)); repeat constructor|].
      rewrite K3, K2, K1. rewrite <- !app_assoc. reflexivity.
    + intros x tk. rewrite C3, C2, C1. tauto.
  - rewrite (bool_decide_eq_false_2 _ Hl). unfold mbind at 1, JS_bind at 1.
    destruct (icon_add_run (sunIcon (DOM w)) w) as (w2 & E2 & D2 & S2 & K2 & C2).
    rewrite (bind_normal _ _ _ _ _ E2).
    destruct (icon_remove_run (moonIcon (DOM w)) w2) as (w3 & E3 & D3 & S3 & K3 & C3).
    rewrite E3. eexists. split; [reflexivity|].
    cbn [DOM localStorage heap calls record]. split; [congruence|]. split; [congruence|].
    split.
    + exists (from_option (λ n, [ClassListAdd n "active"]) [] (sunIcon (DOM w)) ++
              from_option (λ n, [ClassListRemove n "active"]) [] (moonIcon (DOM w))).
      split; [destruct (sunIcon (DOM w)), (moonIcon (DOM w)); repeat constructor|].
      rewrite K3, K2. rewrite <- !app_assoc. reflexivity.
    + intros x tk. rewrite C3, C2. tauto.
Qed.

(** [setupThemeToggle] in the other cases: a single log call. *)
Lemma setupThemeToggle_idle (w : World) :
  themeToggle (DOM w) = None \/ localStorage w = None \/
  (∃ m, localStorage w = Some m /\ m !! "theme" = Some "light-mode" /\ body (DOM w) = None) ->
  ∃ level message, setupThemeToggle w = (Normal tt, record (Console level message) w).
Proof.
  unfold setupThemeToggle, mbind at 1, JS_bind at 1, get_DOM.
  destruct (themeToggle (DOM w)) as [t|]; [|intros _; eexists _, _; reflexivity].
  unfold try_catch, mbind at 1, JS_bind at 1, localStorage_getItem.
  intros [[=]|[Hs|(m & Hs & Hl & Hb)]]; rewrite Hs.
  - eexists _, _; reflexivity.
  - rewrite (bool_decide_eq_true_2 _ Hl), Hb. eexists _, _; reflexivity.
Qed.

End Theme.

Lemma theme_clicks_snoc (H : Host) (writes : list bool) (stored : bool) (w : World) :
  theme_clicks H (writes ++ [stored]) w
  = snd (themeToggle_onclick H stored (theme_clicks H writes w)).
Proof. unfold theme_clicks. rewrite fold_left_app. reflexivity. Qed.

(** X7. The theme button of script.js keeps its signs in agreement. On a
    page whose body does not carry [light-mode] in the markup, after
    [setupThemeToggle] and any number of clicks, whether the browser takes
    the writes to the storage or refuses them: the body carries
    [light-mode] exactly when the moon icon is [active] and exactly when
    the sun icon is not; it does so exactly when the number of clicks is
    even and the saved theme was [light-mode], or the number is odd and it
    was not. The storage holds the theme the body shows when the last
    write was taken; a click whose write is refused leaves the storage as
    it was, and when every write was refused the storage is still the one
    the page was loaded with. *)
Theorem theme_signs_agree
  (H : Host) (w : World) (t b sun moon : Node) (m : gmap string string)
  (writes : list bool) :
  themeToggle (DOM w) = Some t -> body (DOM w) = Some b ->
  sunIcon (DOM w) = Some sun -> moonIcon (DOM w) = Some moon -> sun ≠ moon ->
  localStorage w = Some m ->
  ¬ "light-mode" ∈ classList (heap w b) ->
  let w0 := snd (setupThemeToggle w) in
  let w' := theme_clicks H writes w0 in
  theme_consistent w' b sun moon /\
  ("light-mode" ∈ classList (heap w' b) <->
   Nat.even (length writes) = bool_decide (m !! "theme" = Some "light-mode")) /\
  (last writes = Some true -> theme_saved w' b) /\
  (∀ earlier, writes = earlier ++ [false] ->
     localStorage w' = localStorage (theme_clicks H earlier w0)) /\
  (Forall (λ stored, stored = false) writes -> localStorage w' = Some m).
Proof.
  intros Ht Hb Hsun Hmoon Hne Hm Hdark w0 w'. subst w0 w'.
  destruct (setupThemeToggle_spec w t b m Ht Hm (λ _, Hb)) as (w0 & E & D0 & S0 & _ & C0).
  rewrite E. cbn [snd]. rewrite Hsun, Hmoon in C0.
  assert (Hinv : ∀ writes, let w' := theme_clicks H writes w0 in
            DOM w' = DOM w /\ is_Some (localStorage w') /\
            theme_consistent w' b sun moon /\
            ("light-mode" ∈ classList (heap w' b) <->
             Nat.even (length writes) = bool_decide (m !! "theme" = Some "light-mode")) /\
            (last writes = Some true -> theme_saved w' b) /\
            (Forall (λ stored, stored = false) writes -> localStorage w' = Some m)).
  { clear writes. induction writes as [|stored writes IH] using rev_ind.
    - cbv zeta. change (theme_clicks H [] w0) with w0. split; [exact D0|].
      split; [rewrite S0, Hm; eauto|].
      pose proof (C0 b "light-mode") as Cb. pose proof (C0 moon "active") as Cm.
      pose proof (C0 sun "active") as Cs.
      unfold theme_consistent. cbn [length Nat.even last].
      destruct (bool_decide (m !! "theme" = Some "light-mode")).
      + assert (L : "light-mode" ∈ classList (heap w0 b)).
        { apply Cb. right. split; [intros [_ [=]]|left; auto]. }
        assert (M : "active" ∈ classList (heap w0 moon)) by (apply Cm; left; auto).
        assert (S : ¬ "active" ∈ classList (heap w0 sun)).
        { intros Hin. apply Cs in Hin as [[Heq _]|[Hn _]]; [congruence|apply Hn; auto]. }
        split; [tauto|]. split; [tauto|]. split; [discriminate|]. intros _. congruence.
      + assert (L : ¬ "light-mode" ∈ classList (heap w0 b)).
        { intros Hin. apply Cb in Hin as [_ [[_ [=]]|Hin]]. contradiction. }
        assert (M : ¬ "active" ∈ classList (heap w0 moon)).
        { intros Hin. apply Cm in Hin as [Hn _]. apply Hn. auto. }
        assert (S : "active" ∈ classList (heap w0 sun)).
        { apply Cs. split; [intros [[= Heq] _]; congruence|left; auto]. }
        split; [tauto|]. split; [split; [tauto|discriminate]|].
        split; [discriminate|]. intros _. congruence.
    - rewrite theme_clicks_snoc. cbv zeta in IH.
      destruct IH as (D & [m' S] & (Cm & Cs) & Hl & _ & Hnone).
      set (w1 := theme_clicks H writes w0) in *.
      destruct (theme_click_spec H stored w1 b ltac:(rewrite D; exact Hb))
        as (w2 & E2 & D2 & S2 & C2).
      cbv zeta. rewrite E2. cbn [snd]. rewrite D, Hsun, Hmoon in C2.
      pose proof (C2 b "light-mode") as Cb'. pose proof (C2 moon "active") as Cm'.
      pose proof (C2 sun "active") as Cs'.
      rewrite decide_True in Cb' by auto.
      rewrite decide_True in Cm'
        by (right; right; split; [congruence|split; reflexivity]).
      rewrite decide_True in Cs'
        by (right; left; split; [reflexivity|split; [congruence|reflexivity]]).
      split; [congruence|]. split; [rewrite S2, S; destruct stored; eauto|].
      split; [|split; [|split]].
      + unfold theme_consistent. rewrite Cb', Cm', Cs'. tauto.
      + rewrite Cb', Hl, length_app. cbn [length]. rewrite Nat.add_1_r.
        rewrite Nat.even_succ, <- Nat.negb_even.
        destruct (Nat.even (length writes)), (bool_decide (m !! "theme" = Some "light-mode"));
          simpl; intuition congruence.
      + rewrite last_snoc. intros [= ->]. unfold theme_saved. rewrite S2, S.
        eexists. split; [reflexivity|].
        rewrite lookup_insert_eq. f_equal.
        destruct (decide ("light-mode" ∈ classList (heap w1 b))) as [Hin|Hnin].
        * rewrite (bool_decide_eq_true_2 _ Hin).
          rewrite bool_decide_eq_false_2 by (rewrite Cb'; tauto). reflexivity.
        * rewrite (bool_decide_eq_false_2 _ Hnin).
          rewrite bool_decide_eq_true_2 by (rewrite Cb'; tauto). reflexivity.
      + intros Hall. apply Forall_app in Hall as [Hall Hlast].
        rewrite Forall_singleton in Hlast. subst stored. rewrite S2. auto. }
  destruct (Hinv writes) as (_ & _ & Hc & Hl & Hs & Hnone).
  split; [exact Hc|]. split; [exact Hl|]. split; [exact Hs|]. split; [|exact Hnone].
  intros earlier ->. rewrite theme_clicks_snoc.
  destruct (Hinv earlier) as (D & _).
  destruct (theme_click_spec H false (theme_clicks H earlier w0) b
              ltac:(rewrite D; exact Hb)) as (w2 & E2 & _ & S2 & _).
  rewrite E2. exact S2.
Qed.

Lemma theme_signs_agree_witness :
  let w := snd (cacheDOMElements Sample.host Sample.loaded) in
  let w0 := snd (setupThemeToggle w) in
  let w' := theme_clicks Sample.host [true; false; true] w0 in
  theme_consistent w' 1%nat 5%nat 6%nat /\
  "light-mode" ∈ classList (heap w' 1%nat) /\
  theme_saved w' 1%nat /\
  localStorage (theme_clicks Sample.host [true; false] w0)
  = localStorage (theme_clicks Sample.host [true] w0).
Proof.
  intros w w0 w'.
  destruct (theme_signs_agree Sample.host w 4%nat 1%nat 5%nat 6%nat ∅ [true; false; true])
    as (Hc & Hl & Hs & _).
  - vm_compute; reflexivity.
  - vm_compute; reflexivity.
  - vm_compute; reflexivity.
  - vm_compute; reflexivity.
  - discriminate.
  - vm_compute; reflexivity.
  - decide_now.
  - split; [exact Hc|]. split; [apply Hl; reflexivity|]. split; [apply Hs; reflexivity|].
    vm_compute. reflexivity.
Defined.

(** X8. The theme survives a reload when the browser has stored it: on a
    page whose markup has no [light-mode] on the body, [setupThemeToggle]
    run with the storage a click on the theme button has left shows light
    mode exactly when the page showed it after that click, if the write of
    the click was taken. If it was refused, the reload shows the theme the
    storage held before the click. *)
Theorem theme_survives_reload
  (H : Host) (w next : World) (b t b' : Node) (m : gmap string string) (stored : bool) :
  body (DOM w) = Some b -> localStorage w = Some m ->
  themeToggle (DOM next) = Some t -> body (DOM next) = Some b' ->
  localStorage next = localStorage (snd (themeToggle_onclick H stored w)) ->
  ¬ "light-mode" ∈ classList (heap next b') ->
  (stored = true ->
   ("light-mode" ∈ classList (heap (snd (setupThemeToggle next)) b') <->
    "light-mode" ∈ classList (heap (snd (themeToggle_onclick H stored w)) b))) /\
  (stored = false ->
   ("light-mode" ∈ classList (heap (snd (setupThemeToggle next)) b') <->
    m !! "theme" = Some "light-mode")).
Proof.
  intros Hb Hm Ht Hb' Hs Hdark.
  destruct (theme_click_spec H stored w b Hb) as (w1 & E1 & _ & S1 & C1).
  rewrite E1 in Hs |- *. cbn [snd] in Hs |- *. rewrite S1, Hm in Hs.
  split; intros ->; cbn [fmap option_fmap option_map] in Hs;
    destruct (setupThemeToggle_spec next t b' _ Ht Hs (λ _, Hb')) as (w2 & E2 & _ & _ & _ & C2);
    rewrite E2; cbn [snd]; rewrite C2.
  - rewrite C1. rewrite lookup_insert_eq.
    rewrite decide_True by auto.
    destruct (decide ("light-mode" ∈ classList (heap w b))) as [Hin|Hnin].
    + rewrite (bool_decide_eq_true_2 _ Hin).
      rewrite bool_decide_eq_false_2 by discriminate.
      split; [|tauto]. intros [_ [[_ [=]]|Hin']]. contradiction.
    + rewrite (bool_decide_eq_false_2 _ Hnin).
      rewrite bool_decide_eq_true_2 by reflexivity.
      split; [tauto|]. intros _. right. split; [intros [_ [=]]|left; auto].
  - case_bool_decide as Hl.
    + split; [intros _; exact Hl|]. intros _. right. split; [intros [_ [=]]|left; auto].
    + split; [|contradiction]. intros [_ [[_ [=]]|Hin']]. contradiction.
Qed.

Lemma theme_survives_reload_witness :
  let w := snd (init Sample.host Sample.loaded) in
  let w' := snd (themeToggle_onclick Sample.host true w) in
  let next := snd (cacheDOMElements Sample.host
                     (start Sample.host Sample.page (localStorage w'))) in
  "light-mode" ∈ classList (heap w' 1%nat) /\
  "light-mode" ∈ classList (heap (snd (setupThemeToggle next)) 1%nat).
Proof.
  intros w w' next. split; [decide_now|].
  destruct (theme_survives_reload Sample.host w next 1%nat 4%nat 1%nat ∅ true) as [Hs _].
  - vm_compute; reflexivity.
  - vm_compute; reflexivity.
  - vm_compute; reflexivity.
  - vm_compute; reflexivity.
  - vm_compute; reflexivity.
  - decide_now.
  - apply Hs; [reflexivity|]. decide_now.
Defined.

(** X9. [setupThemeToggle] of script.js never throws. It registers the
    click listener exactly when the theme button exists, the storage can be
    read and, where the saved theme is [light-mode], the body exists; with
    a denied storage the button stays without listener. *)
Theorem theme_button_listener (w : World) :
  fst (setupThemeToggle w) = Normal tt /\
  ((∃ t, AddEventListener (TElement t) "click" ThemeToggleClick
         ∈ drop (length (calls w)) (calls (snd (setupThemeToggle w))))
   <-> is_Some (themeToggle (DOM w)) /\
       ∃ m, localStorage w = Some m /\
            (m !! "theme" = Some "light-mode" -> is_Some (body (DOM w)))).
Proof.
  assert (Hidle : ∀ level message,
            setupThemeToggle w = (Normal tt, record (Console level message) w) ->
            ¬ ∃ t, AddEventListener (TElement t) "click" ThemeToggleClick
                   ∈ drop (length (calls w)) (calls (snd (setupThemeToggle w)))).
  { intros level message E [t Hin]. rewrite E in Hin. cbn [snd calls record] in Hin.
    rewrite drop_app_length in Hin. apply list_elem_of_singleton in Hin. discriminate. }
  destruct (themeToggle (DOM w)) as [t|] eqn:Ht.
  2:{ destruct (setupThemeToggle_idle w) as (l & msg & E); [auto|].
      split; [rewrite E; reflexivity|]. split; [intros Hin; destruct (Hidle l msg E Hin)|].
      intros [[t [=]] _]. }
  destruct (localStorage w) as [m|] eqn:Hs.
  2:{ destruct (setupThemeToggle_idle w) as (l & msg & E); [auto|].
      split; [rewrite E; reflexivity|]. split; [intros Hin; destruct (Hidle l msg E Hin)|].
      intros [_ (m & [=] & _)]. }
  destruct (decide (m !! "theme" = Some "light-mode" /\ body (DOM w) = None)) as [[Hl Hb]|Hok].
  { destruct (setupThemeToggle_idle w) as (l & msg & E); [eauto 6|].
    split; [rewrite E; reflexivity|]. split; [intros Hin; destruct (Hidle l msg E Hin)|].
    intros [_ (m' & [= <-] & Hbody)]. destruct (Hbody Hl) as [b Hb']. congruence. }
  assert (Hbody : m !! "theme" = Some "light-mode" -> is_Some (body (DOM w))).
  { intros Hl. destruct (body (DOM w)) as [b|]; [eauto|]. exfalso. apply Hok. auto. }
  destruct (setupThemeToggle_spec w t (default 0%nat (body (DOM w))) m Ht Hs)
    as (w' & E & _ & _ & (ops & _ & HC) & _).
  { intros Hl. destruct (Hbody Hl) as [b ->]. reflexivity. }
  rewrite E. cbn [fst snd]. split; [reflexivity|]. split; [intros _; eauto|].
  intros _. exists t. rewrite HC, drop_app_length.
  apply elem_of_app. right. apply list_elem_of_here.
Qed.

Lemma rgb_value_heap (H : Host) (w w1 : World) (src : string) :
  heap w1 = heap w -> rgb_value H w1 src = rgb_value H w src.
Proof. intros Hh. unfold rgb_value. rewrite Hh, !hexToRgb_string. reflexivity. Qed.

(** [updateRgbaVars] on a world with the elements of [w0]. *)
Lemma updateRgbaVars_fresh (H : Host) (w0 w : World) :
  heap w = heap w0 ->
  ∃ w', updateRgbaVars H w = (Normal tt, w') /\
        DOM w' = DOM w /\ heap w' = heap w /\
        localStorage w' = localStorage w /\ observer w' = observer w /\
        rgb_vars_fresh H w0 w' /\
        (∀ name, (∀ src, (src, name) ∉ COLOR_VARS) ->
                 rootStyle w' !! name = rootStyle w !! name).
Proof.
  intros Hh.
  destruct (updateRgbaVars_spec H w)
    as (v1 & v2 & v3 & v4 & w' & new & E & V1 & V2 & V3 & V4 & HD & HH & HS & HO & HR & _).
  exists w'. do 5 (split; [assumption|]). split.
  - intros src dst Hin. rewrite <- (rgb_value_heap H w0 w src Hh), HR.
    pattern src, dst. apply color_vars_cases; [| | | |exact Hin].
    + exists v1. split; [exact V1|].
      rewrite !lookup_insert_ne by discriminate. apply lookup_insert_eq.
    + exists v2. split; [exact V2|].
      rewrite !lookup_insert_ne by discriminate. apply lookup_insert_eq.
    + exists v3. split; [exact V3|].
      rewrite !lookup_insert_ne by discriminate. apply lookup_insert_eq.
    + exists v4. split; [exact V4|]. apply lookup_insert_eq.
  - intros name Hname. rewrite HR.
    rewrite !lookup_insert_ne; [reflexivity| | | |];
      intros <-; eapply Hname; unfold COLOR_VARS;
      repeat first [apply list_elem_of_here | apply list_elem_of_further].
Qed.

(** X10. The callback of the theme observer never throws and leaves the
    elements, the cache, the storage, the intersection observer and every
    other property of the root style alone. For records none of which is
    about the [class] attribute it does nothing at all; with at least one
    such record the four [-rgb] properties hold the colours of the current
    elements afterwards. *)
Theorem themeObserver_refreshes (H : Host) (mutations : list MutationRecord) (w : World) :
  let w' := snd (themeObserver_callback H mutations w) in
  fst (themeObserver_callback H mutations w) = Normal tt /\
  DOM w' = DOM w /\ heap w' = heap w /\
  localStorage w' = localStorage w /\ observer w' = observer w /\
  (∀ name, (∀ src, (src, name) ∉ COLOR_VARS) -> rootStyle w' !! name = rootStyle w !! name) /\
  ((∀ r, r ∈ mutations -> attributeName r ≠ Some "class") -> w' = w) /\
  ((∃ r, r ∈ mutations /\ attributeName r = Some "class") -> rgb_vars_fresh H w w').
Proof.
  unfold themeObserver_callback, forEach. generalize 0%nat.
  assert (Hgen : ∀ (l : list MutationRecord) (i : nat) (w1 : World),
            heap w1 = heap w ->
            let r := forEach_from
                       (λ mutation (_ : nat),
                          if bool_decide (attributeName mutation = Some "class")
                          then updateRgbaVars H else skip) i l w1 in
            fst r = Normal tt /\ DOM (snd r) = DOM w1 /\ heap (snd r) = heap w1 /\
            localStorage (snd r) = localStorage w1 /\ observer (snd r) = observer w1 /\
            (∀ name, (∀ src, (src, name) ∉ COLOR_VARS) ->
                     rootStyle (snd r) !! name = rootStyle w1 !! name) /\
            ((∀ r, r ∈ l -> attributeName r ≠ Some "class") -> snd r = w1) /\
            (rgb_vars_fresh H w w1 -> rgb_vars_fresh H w (snd r)) /\
            ((∃ r, r ∈ l /\ attributeName r = Some "class") -> rgb_vars_fresh H w (snd r))).
  { induction l as [|r l IH]; intros i w1 Hh; cbv zeta.
    - cbn [forEach_from mret JS_ret fst snd]. repeat split; try assumption; try reflexivity.
      + auto.
      + intros (r & Hr & _). apply elem_of_nil in Hr. contradiction.
    - cbn [forEach_from].
      destruct (decide (attributeName r = Some "class")) as [Hc|Hc].
      + rewrite (bool_decide_eq_true_2 _ Hc).
        destruct (updateRgbaVars_fresh H w w1 Hh)
          as (w2 & E & HD & HH & HS & HO & Hfresh & Hother).
        rewrite (bind_normal _ _ _ _ _ E).
        assert (Hh2 : heap w2 = heap w) by congruence.
        destruct (IH (S i) w2 Hh2) as (Hf & D' & H' & S' & O' & N' & _ & Hsame & _).
        split; [exact Hf|]. do 4 (split; [congruence|]).
        split; [intros name Hname; rewrite N', Hother by exact Hname; reflexivity|].
        split; [intros Hno; exfalso; apply (Hno r); [left|exact Hc]|].
        split; intros _; apply Hsame; exact Hfresh.
      + rewrite (bool_decide_eq_false_2 _ Hc).
        unfold mbind at 1, JS_bind at 1. cbn [skip mret JS_ret].
        destruct (IH (S i) w1 Hh) as (Hf & D' & H' & S' & O' & N' & Hno' & Hsame & Hsome).
        do 6 (split; [assumption|]).
        split; [intros Hno; apply Hno'; intros r' Hr'; apply Hno; right; exact Hr'|].
        split; [exact Hsame|].
        intros (r' & Hr' & Hc'). apply Hsome. exists r'. split; [|exact Hc'].
        apply elem_of_cons in Hr' as [->|Hr']; [contradiction|exact Hr']. }
  intros i.
  destruct (Hgen mutations i w eq_refl) as (Hf & D' & H' & S' & O' & N' & Hno' & _ & Hsome).
  auto 10.
Qed.

Section RegExpProofs.
Import RegExp.


Lemma repeat_class_spec (class : N -> bool) (k : JsText -> bool) (s : JsText) :
  repeat_class class k s = true <->
  ∃ pre rest, s = pre ++ rest /\ Forall (λ c, class c = true) pre /\ k rest = true.
Proof.
  induction s as [|c s IH]; cbn [repeat_class].
  - split.
    + intros Hk. exists [], []. auto.
    + intros (pre & rest & Hs & _ & Hk). symmetry in Hs.
      apply app_eq_nil in Hs as [_ ->]. exact Hk.
  - rewrite orb_true_iff, andb_true_iff, IH. split.
    + intros [[Hc (pre & rest & -> & Hpre & Hk)]|Hk].
      * exists (c :: pre), rest. auto.
      * exists [], (c :: s). auto.
    + intros (pre & rest & Hs & Hpre & Hk). destruct pre as [|c' pre].
      * right. simpl in Hs. subst rest. exact Hk.
      * left. injection Hs as <- ->. apply Forall_cons in Hpre as [Hc Hpre].
        split; [exact Hc|]. exists pre, rest. auto.
Qed.

Lemma run_OneOrMore (class : N -> bool) (k : JsText -> bool) (s : JsText) :
  run (OneOrMore class) k s = true <->
  ∃ pre rest, s = pre ++ rest /\ pre ≠ [] /\ Forall (λ c, class c = true) pre /\ k rest = true.
Proof.
  cbn [run]. destruct s as [|c s].
  - split; [discriminate|]. intros (pre & rest & Hs & Hne & _).
    symmetry in Hs. apply app_eq_nil in Hs as [-> _]. contradiction.
  - rewrite andb_true_iff, repeat_class_spec. split.
    + intros [Hc (pre & rest & -> & Hpre & Hk)].
      exists (c :: pre), rest. repeat split; auto.
    + intros (pre & rest & Hs & Hne & Hpre & Hk). destruct pre as [|c' pre]; [contradiction|].
      injection Hs as <- ->. apply Forall_cons in Hpre as [Hc Hpre].
      split; [exact Hc|]. exists pre, rest. auto.
Qed.

Lemma run_Literal (c0 : N) (k : JsText -> bool) (s : JsText) :
  run (Literal c0) k s = true <-> ∃ rest, s = c0 :: rest /\ k rest = true.
Proof.
  cbn [run]. destruct s as [|c s].
  - split; [discriminate|]. intros (rest & [=] & _).
  - rewrite andb_true_iff, N.eqb_eq. split.
    + intros [-> Hk]. eauto.
    + intros (rest & [= -> ->] & Hk). auto.
Qed.

Lemma run_Seq (p q : Pattern) (k : JsText -> bool) (s : JsText) :
  run (Seq p q) k s = run p (run q k) s.
Proof. reflexivity. Qed.

(** What the pattern of the form accepts: [local@x.y], the three parts not
    empty and free of white space and ['@']. *)
Lemma emailRegex_parts (s : JsText) :
  test emailRegex s = true <->
  ∃ l x y, s = l ++ 64%N :: x ++ 46%N :: y /\
           l ≠ [] /\ x ≠ [] /\ y ≠ [] /\
           Forall (λ c, not_space_or_at c = true) l /\
           Forall (λ c, not_space_or_at c = true) x /\
           Forall (λ c, not_space_or_at c = true) y.
Proof.
  unfold test, emailRegex. rewrite run_Seq, run_OneOrMore. split.
  - intros (l & r1 & -> & Hl & Fl & Hk).
    rewrite run_Seq, run_Literal in Hk. destruct Hk as (r2 & -> & Hk).
    rewrite run_Seq, run_OneOrMore in Hk. destruct Hk as (x & r3 & -> & Hx & Fx & Hk).
    rewrite run_Seq, run_Literal in Hk. destruct Hk as (r4 & -> & Hk).
    rewrite run_OneOrMore in Hk. destruct Hk as (y & r5 & -> & Hy & Fy & Hk).
    destruct r5; [|discriminate]. rewrite app_nil_r.
    exists l, x, y. auto 10.
  - intros (l & x & y & -> & Hl & Hx & Hy & Fl & Fx & Fy).
    exists l, (64%N :: x ++ 46%N :: y). repeat split; try assumption.
    rewrite run_Seq, run_Literal. exists (x ++ 46%N :: y). split; [reflexivity|].
    rewrite run_Seq, run_OneOrMore. exists x, (46%N :: y). repeat split; try assumption.
    rewrite run_Seq, run_Literal. exists y. split; [reflexivity|].
    rewrite run_OneOrMore. exists y, []. rewrite app_nil_r. auto.
Qed.

End RegExpProofs.

(** X11. The pattern of the contact form accepts exactly the texts
    [local@domain] in which the local part is not empty, neither part holds
    white space or a further ['@'], and the domain has a ['.'] that is
    neither its first nor its last character. *)
Theorem emailRegex_accepts (s : JsText) :
  RegExp.test emailRegex s = true <-> email_shape s.
Proof.
  rewrite emailRegex_parts. unfold email_shape. split.
  - intros (l & x & y & -> & Hl & Hx & Hy & Fl & Fx & Fy).
    exists l, (x ++ 46%N :: y). repeat split; try assumption.
    + apply Forall_app. split; [exact Fx|]. apply Forall_cons. split; [reflexivity|exact Fy].
    + exists (length x). rewrite length_app. cbn [length].
      destruct x as [|cx x]; [contradiction|]. destruct y as [|cy y]; [contradiction|].
      cbn [length]. split; [lia|].
      rewrite lookup_app_r by reflexivity. rewrite Nat.sub_diag. reflexivity.
  - intros (l & d & -> & Hl & Fl & Fd & i & Hi & Hdot).
    exists l, (take i d), (drop (S i) d).
    rewrite <- (take_drop_middle d i 46%N Hdot) at 1.
    repeat split; try assumption.
    + intros Ht. apply (f_equal length) in Ht. rewrite length_take in Ht.
      cbn [length] in Ht. lia.
    + intros Ht. apply (f_equal length) in Ht. rewrite length_drop in Ht.
      cbn [length] in Ht. lia.
    + apply Forall_take. exact Fd.
    + apply Forall_drop. exact Fd.
Qed.

Example emailRegex_samples :
  RegExp.test emailRegex (text "a@b.c") = true /\
  RegExp.test emailRegex (text "first.last@mail.example.org") = true /\
  RegExp.test emailRegex (text "a@b..c") = true /\
  RegExp.test emailRegex (text "a@b") = false /\
  RegExp.test emailRegex (text "a@b.") = false /\
  RegExp.test emailRegex (text "a@.b") = false /\
  RegExp.test emailRegex (text "@b.c") = false /\
  RegExp.test emailRegex (text "a b@c.d") = false /\
  RegExp.test emailRegex (text "a@b@c.d") = false /\
  RegExp.test emailRegex (text "a@b.c" ++ [10%N]) = false /\
  RegExp.test emailRegex (text "a@b.c" ++ [160%N]) = false.
Proof. repeat split. Qed.

Section Form.

Lemma fromEntries_from (entries : list (JsText * FormValue)) :
  ∀ (data : gmap JsText FormValue) (key : JsText),
    fold_left (λ data e, <[fst e := snd e]> data) entries data !! key
    = match last_entry key entries with
      | Some v => Some v
      | None => data !! key
      end.
Proof.
  unfold last_entry.
  induction entries as [|[k v] entries IH]; intros data key; [reflexivity|].
  cbn [fold_left fst snd]. rewrite IH.
  destruct (decide (k = key)) as [->|Hne].
  - rewrite filter_cons_True by reflexivity.
    destruct (filter (λ e, fst e = key) entries) as [|e l] eqn:E.
    + cbn. apply lookup_insert_eq.
    + change (last ((key, v) :: e :: l)) with (last (e :: l)).
      destruct (last (e :: l)) as [e'|] eqn:El; [reflexivity|].
      apply last_None in El. discriminate.
  - rewrite filter_cons_False by exact Hne.
    destruct (last (filter (λ e, fst e = key) entries)); [reflexivity|].
    cbn. apply lookup_insert_ne. exact Hne.
Qed.

Lemma fromEntries_lookup (entries : list (JsText * FormValue)) (key : JsText) :
  fromEntries entries !! key = last_entry key entries.
Proof.
  unfold fromEntries. rewrite fromEntries_from, lookup_empty.
  destruct (last_entry key entries); reflexivity.
Qed.

Lemma filled_true (v : option FormValue) :
  filled v = true <-> ∃ x, v = Some x /\ x ≠ FormText [].
Proof.
  destruct v as [[[|c s]|]|]; cbn [filled].
  - split; [discriminate|]. intros (x & [= <-] & Hx). contradiction.
  - split; [|reflexivity]. intros _. eexists. split; [reflexivity|discriminate].
  - split; [|reflexivity]. intros _. eexists. split; [reflexivity|discriminate].
  - split; [discriminate|]. intros (x & [=] & _).
Qed.

Lemma email_shape_nonempty (e : JsText) : email_shape e -> e ≠ [].
Proof. intros (l & d & -> & Hl & _). destruct l; [contradiction|discriminate]. Qed.

(** The test of the handler, as a condition on the entries. *)
Lemma form_accepted_iff (entries : list (JsText * FormValue)) :
  let data := fromEntries entries in
  (negb (filled (data !! text "name")) || negb (filled (data !! text "email")) ||
   negb (filled (data !! text "message")) = false /\
   RegExp.test emailRegex (value_text (data !! text "email")) = true)
  <-> form_accepted entries.
Proof.
  cbv zeta. rewrite !fromEntries_lookup, !orb_false_iff, !negb_false_iff, !filled_true.
  unfold form_accepted. split.
  - intros [[[(n & Hn & Hn') (e & He & He')] (m & Hm & Hm')] Ht].
    rewrite He in Ht. destruct e as [e|].
    + apply emailRegex_accepts in Ht. exists n, e, m. auto 10.
    + vm_compute in Ht. discriminate.
  - intros (n & e & m & Hn & Hn' & He & Hs & Hm & Hm').
    rewrite He. split; [|apply emailRegex_accepts; exact Hs].
    repeat split; eauto.
    exists (FormText e). split; [reflexivity|].
    intros [= ->]. exact (email_shape_nonempty [] Hs eq_refl).
Qed.

End Form.

(** X12. The submit handler never throws and always cancels the
    submission first. When the last entries named [name], [email] and
    [message] are filled in and the last [email] has the shape of an
    address, it logs, shows the thanks and resets the form; in every other
    case it shows one alert and nothing else: no reset, and the page stays
    as it is. A later entry decides over an earlier one of the same name,
    and a file is never an address. *)
Theorem contactForm_submit_outcome
  (form : Node) (entries : list (JsText * FormValue)) (v : Window) :
  let r := contactForm_onsubmit form entries v in
  fst r = Normal tt /\
  (form_accepted entries ->
   ui (snd r) = ui v ++ [PreventDefault;
                         Alert "Thank you for your message! (This is a demo - no email was actually sent)";
                         FormReset form] /\
   page (snd r) = record (Console "log" "Form submitted:") (page v)) /\
  (¬ form_accepted entries ->
   (∃ message, ui (snd r) = ui v ++ [PreventDefault; Alert message]) /\
   page (snd r) = page v).
Proof.
  cbv zeta. pose proof (form_accepted_iff entries) as Hiff. cbv zeta in Hiff.
  unfold contactForm_onsubmit, mbind, UI_bind, ui_call, lift, console. cbv zeta.
  destruct (negb (filled (fromEntries entries !! text "name"))
            || negb (filled (fromEntries entries !! text "email"))
            || negb (filled (fromEntries entries !! text "message"))) eqn:Hfill.
  { cbn [fst snd ui page]. split; [reflexivity|]. split.
    - intros Ha. apply Hiff in Ha as [[=] _].
    - intros _. split; [|reflexivity].
      exists "Please fill in all fields". rewrite <- app_assoc. reflexivity. }
  destruct (RegExp.test emailRegex (value_text (fromEntries entries !! text "email"))) eqn:Ht.
  - cbn [negb fst snd ui page]. split; [reflexivity|]. split.
    + intros _. rewrite <- !app_assoc. auto.
    + intros Hn. exfalso. apply Hn, Hiff. auto.
  - cbn [negb fst snd ui page]. split; [reflexivity|]. split.
    + intros Ha. apply Hiff in Ha as [_ [=]].
    + intros _. split; [|reflexivity].
      exists "Please enter a valid email address". rewrite <- app_assoc. reflexivity.
Qed.

Section CursorProofs.

Lemma cursor_start_ok : cursor_ok cursor_start.
Proof. split; [reflexivity|intros [id [=]]|]. intros _ Hh. contradiction. Qed.

Lemma cursor_step_ok (c : Cursor) (e : CursorEvent) :
  cursor_ok c -> cursor_ok (cursor_step c e).
Proof.
  intros [Hq Hh Hd]. destruct e as [x y|]; cbn [cursor_step].
  - unfold cursor_onmousemove. cbn [rafId]. destruct (rafId c) as [id|] eqn:Hr.
    + split; cbn [frame_queue rafId handles]; [exact Hq|intros _; apply Hh; eauto|discriminate].
    + cbn [requestAnimationFrame rafId frame_queue handles cursorX cursorY transform].
      split; cbn [frame_queue rafId handles]; [rewrite Hq; reflexivity|discriminate|discriminate].
  - unfold cursor_frame. rewrite Hq. destruct (rafId c) as [id|] eqn:Hr.
    + cbn [fold_left]. split; [reflexivity|intros [id' [=]]|reflexivity].
    + cbn [fold_left]. split; cbn [frame_queue rafId handles transform cursorX cursorY].
      * reflexivity.
      * intros [id' [=]].
      * intros _ Hh'. apply Hd; [reflexivity|exact Hh'].
Qed.

Lemma cursor_run_snoc (events : list CursorEvent) (e : CursorEvent) :
  cursor_run (events ++ [e]) = cursor_step (cursor_run events) e.
Proof. unfold cursor_run. rewrite fold_left_app. reflexivity. Qed.

Lemma last_move_snoc (events : list CursorEvent) (e : CursorEvent) :
  last_move (events ++ [e]) =
  match e with MouseMove x y => Some (x, y) | Frame => last_move events end.
Proof. unfold last_move. rewrite fold_left_app. reflexivity. Qed.

Lemma cursor_run_ok (events : list CursorEvent) : cursor_ok (cursor_run events).
Proof.
  induction events as [|e events IH] using rev_ind; [exact cursor_start_ok|].
  rewrite cursor_run_snoc. apply cursor_step_ok. exact IH.
Qed.

Lemma updates_fields (l : list positive) :
  ∀ c0, let c := fold_left (λ c (_ : positive), updateCursor c) l c0 in
        cursorX c = cursorX c0 /\ cursorY c = cursorY c0 /\ handles c = handles c0.
Proof.
  induction l as [|p l IH]; intros c0; cbv zeta; [auto|]. cbn [fold_left].
  destruct (IH (updateCursor c0)) as (-> & -> & ->). auto.
Qed.

Lemma cursor_frame_fields (c : Cursor) :
  cursorX (cursor_frame c) = cursorX c /\ cursorY (cursor_frame c) = cursorY c /\
  handles (cursor_frame c) = handles c.
Proof.
  unfold cursor_frame.
  exact (updates_fields (frame_queue c)
           (mkCursor (cursorX c) (cursorY c) (rafId c) (transform c) [] (handles c))).
Qed.

Lemma cursor_move_fields (x y : Number.t) (c : Cursor) :
  cursorX (cursor_onmousemove x y c) = x /\ cursorY (cursor_onmousemove x y c) = y /\
  handles (cursor_onmousemove x y c)
  = match rafId c with Some _ => handles c | None => S (handles c) end.
Proof. unfold cursor_onmousemove. cbn [rafId]. destruct (rafId c); auto. Qed.

(** The position kept is the last one, and handles are given out only
    after a frame has run or at the first move. *)
Lemma cursor_run_position (events : list CursorEvent) :
  let c := cursor_run events in
  match last_move events with
  | Some (x, y) => cursorX c = x /\ cursorY c = y /\ handles c ≠ 0%nat
  | None => handles c = 0%nat
  end /\
  (handles c + match rafId c with Some _ => 0 | None => 1 end
   <= S (length (filter (λ e, is_frame e = true) events)))%nat.
Proof.
  induction events as [|e events IH] using rev_ind; [cbn; auto|].
  cbv zeta in *. rewrite cursor_run_snoc, last_move_snoc, filter_app, length_app.
  destruct IH as [Hpos Hcount].
  destruct e as [x y|]; cbn [cursor_step].
  - destruct (cursor_move_fields x y (cursor_run events)) as (-> & -> & Hh).
    rewrite Hh. rewrite filter_cons_False by discriminate. rewrite filter_nil. cbn [length].
    unfold cursor_onmousemove. cbn [rafId].
    destruct (rafId (cursor_run events)) as [id|] eqn:Hr.
    + cbn [rafId]. split; [|lia]. repeat split.
      pose proof (cursor_run_ok events) as [_ Hh' _]. apply Hh'. rewrite Hr. eauto.
    + cbn [requestAnimationFrame rafId]. split; [auto|lia].
  - destruct (cursor_frame_fields (cursor_run events)) as (-> & -> & ->).
    rewrite filter_cons_True by reflexivity. rewrite filter_nil. cbn [length].
    split; [exact Hpos|]. destruct (rafId (cursor_frame (cursor_run events))),
                                    (rafId (cursor_run events)); lia.
Qed.

End CursorProofs.

(** X13. The custom cursor is throttled to the frames: after any sequence
    of mouse moves and frames at most one frame callback is queued, one is
    queued exactly while [rafId] is set, no more callbacks were requested
    than frames have run plus one, the variables hold the position of the
    last move, and whenever no callback is queued the cursor is drawn at
    that position. *)
Theorem cursor_is_throttled (events : list CursorEvent) :
  let c := cursor_run events in
  (length (frame_queue c) <= 1)%nat /\
  (frame_queue c = [] <-> rafId c = None) /\
  (handles c <= S (length (filter (λ e, is_frame e = true) events)))%nat /\
  (∀ x y, last_move events = Some (x, y) ->
     cursorX c = x /\ cursorY c = y /\
     (frame_queue c = [] -> transform c = Some (x, y))).
Proof.
  cbv zeta. destruct (cursor_run_ok events) as [Hq Hh Hd].
  destruct (cursor_run_position events) as [Hpos Hcount]. cbv zeta in Hcount.
  split; [rewrite Hq; destruct (rafId (cursor_run events)); cbn; lia|].
  split.
  { rewrite Hq. destruct (rafId (cursor_run events)); split; try discriminate; reflexivity. }
  split; [lia|].
  intros x y Hl. rewrite Hl in Hpos. destruct Hpos as (<- & <- & Hne).
  do 2 (split; [reflexivity|]). intros Hempty. apply Hd; [|exact Hne].
  rewrite Hq in Hempty. destruct (rafId (cursor_run events)); [discriminate|reflexivity].
Qed.

Example cursor_two_moves_one_frame :
  let c := cursor_run [MouseMove Number.lit_0_1 Number.lit_0_2;
                       MouseMove Number.lit_0_5 Number.lit_1_5; Frame] in
  transform c = Some (Number.lit_0_5, Number.lit_1_5) /\ handles c = 1%nat /\
  frame_queue c = [].
Proof. repeat split. Qed.

Lemma closeMobileMenu_normal (w : World) (b : Node) :
  body (DOM w) = Some b -> fst (closeMobileMenu w) = Normal tt.
Proof.
  intros Hb. unfold closeMobileMenu, mbind, JS_bind, get_DOM, deref, classList_contains.
  destruct (navLinks (DOM w)) as [links|]; [|reflexivity].
  destruct (navToggle (DOM w)) as [toggle|]; [|reflexivity].
  destruct (TokenList.contains "open" (classList (heap w links))); [|reflexivity].
  rewrite Hb. reflexivity.
Qed.

Lemma window_eta (v : Window) : mkWindow (page v) (ui v) (checked v) = v.
Proof. destruct v. reflexivity. Qed.

(** X14. Clicks the smooth-scroll handler leaves to the browser: a click
    outside every in-page link, on a link to ["#"], or on a link whose
    target does not exist changes nothing and cancels nothing. A link whose
    [href] is not a selector makes [querySelector] throw a SyntaxError, and
    a click whose target is the document itself is a TypeError, both before
    anything is changed or cancelled. *)
Theorem anchor_click_ignored
  (H : Host) (closest : Node -> string -> option Node) (valid_selector : string -> bool)
  (target : EventTarget) (v : Window) :
  let run := anchor_onclick H closest valid_selector target v in
  let href := λ a, attributes (heap (page v) a) !! "href" in
  (target = TDocument -> run = (Throw TypeError, v)) /\
  (∀ n, target = TElement n -> closest n IN_PAGE_LINK = None -> run = (Normal tt, v)) /\
  (∀ n a, target = TElement n -> closest n IN_PAGE_LINK = Some a ->
          href a = Some "#" -> run = (Normal tt, v)) /\
  (∀ n a, target = TElement n -> closest n IN_PAGE_LINK = Some a ->
          href a ≠ Some "#" ->
          valid_selector (default "null" (href a)) = true ->
          querySelector H (default "null" (href a)) = None ->
          run = (Normal tt, v)) /\
  (∀ n a, target = TElement n -> closest n IN_PAGE_LINK = Some a ->
          href a ≠ Some "#" ->
          valid_selector (default "null" (href a)) = false ->
          run = (Throw SyntaxError, v)).
Proof.
  cbv zeta. destruct v as [w u c]. cbn [page].
  unfold anchor_onclick, mbind, UI_bind, lift, target_closest, getAttribute,
    document_querySelector, ui_throw, throw, mret, JS_ret, UI_ret.
  split; [intros ->; reflexivity|].
  split; [intros n -> ->; reflexivity|].
  split; [|split]; intros n a -> -> Hhref; cbn [fst snd page ui checked].
  - rewrite bool_decide_eq_true_2 by exact Hhref. reflexivity.
  - intros Hv Hq. rewrite bool_decide_eq_false_2 by exact Hhref.
    rewrite Hv, Hq. reflexivity.
  - intros Hv. rewrite bool_decide_eq_false_2 by exact Hhref.
    rewrite Hv. reflexivity.
Qed.

(** X15. A click on an in-page link whose target exists cancels the
    navigation, scrolls the target into view and then closes the mobile
    menu: the links do not carry [open] afterwards, and signs of the menu
    that agreed before agree afterwards. *)
Theorem anchor_click_scrolls
  (H : Host) (closest : Node -> string -> option Node) (valid_selector : string -> bool)
  (n a t links toggle b : Node) (href : string) (v : Window) :
  closest n IN_PAGE_LINK = Some a ->
  attributes (heap (page v) a) !! "href" = Some href -> href ≠ "#" ->
  valid_selector href = true -> querySelector H href = Some t ->
  navLinks (DOM (page v)) = Some links -> navToggle (DOM (page v)) = Some toggle ->
  body (DOM (page v)) = Some b ->
  links ≠ toggle -> links ≠ b -> toggle ≠ b ->
  let r := anchor_onclick H closest valid_selector (TElement n) v in
  fst r = Normal tt /\
  ui (snd r) = ui v ++ [PreventDefault; ScrollIntoView t] /\
  page (snd r) = menu_step CloseMenu (page v) /\
  ¬ "open" ∈ classList (heap (page (snd r)) links) /\
  (menu_consistent (page v) links toggle b ->
   menu_consistent (page (snd r)) links toggle b).
Proof.
  intros Hclosest Hhref Hne Hv Hq Hl Ht Hb Hlt Hlb Htb. cbv zeta.
  unfold anchor_onclick, mbind, UI_bind, lift, target_closest, getAttribute.
  rewrite Hclosest. cbn [fst snd page ui checked mret JS_ret].
  rewrite Hhref. rewrite bool_decide_eq_false_2 by congruence.
  unfold document_querySelector. change (default "null" (Some href)) with href.
  cbn [page]. rewrite Hv, Hq.
  cbn [mret UI_ret ui_call fst snd page ui checked].
  pose proof (closeMobileMenu_normal (page v) b Hb) as Hn.
  destruct (closeMobileMenu (page v)) as [r w'] eqn:E. cbn [fst snd] in *. subst r.
  cbn [fst snd page ui]. split; [reflexivity|].
  split; [rewrite <- app_assoc; reflexivity|].
  assert (Ew : w' = menu_step CloseMenu (page v)) by (cbn [menu_step]; rewrite E; reflexivity).
  split; [exact Ew|].
  destruct (close_spec links toggle b Hlt Hlb Htb (page v) Hl Ht Hb) as (_ & Hc).
  rewrite E in Hc. cbn [snd] in Hc. split.
  - destruct Hc as [(_ & Hc & _)|[Hc ->]]; exact Hc.
  - intros Hm. rewrite Ew.
    apply (menu_step_consistent links toggle b Hlt Hlb Htb CloseMenu (page v) Hl Ht Hb Hm).
Qed.

Lemma anchor_click_scrolls_witness :
  let r := anchor_onclick SampleLink.host SampleLink.closest (λ _, true)
             (TElement 50%nat) SampleLink.menu_open in
  "open" ∈ classList (heap (page SampleLink.menu_open) 3%nat) /\
  fst r = Normal tt /\ ui (snd r) = [PreventDefault; ScrollIntoView 40%nat] /\
  ¬ "open" ∈ classList (heap (page (snd r)) 3%nat).
Proof.
  intros r. split; [decide_now|].
  destruct (anchor_click_scrolls SampleLink.host SampleLink.closest (λ _, true)
              50%nat 50%nat 40%nat 3%nat 2%nat 1%nat "#contact" SampleLink.menu_open)
    as (Hf & Hu & _ & Hc & _).
  - reflexivity.
  - vm_compute; reflexivity.
  - discriminate.
  - reflexivity.
  - reflexivity.
  - vm_compute; reflexivity.
  - vm_compute; reflexivity.
  - vm_compute; reflexivity.
  - discriminate.
  - discriminate.
  - discriminate.
  - split; [exact Hf|]. split; [exact Hu|exact Hc].
Defined.

Section SwitchProofs.

Variable H : Host.

Lemma toggle_force_run (el : Node) (tok : string) (force : bool) (w : World) :
  TokenList.validate tok = Normal tt ->
  ∃ w1, classList_toggle_force el tok force w = (Normal force, w1) /\
        DOM w1 = DOM w /\ localStorage w1 = localStorage w /\
        (tok ∈ classList (heap w1 el) <-> force = true).
Proof.
  intros Hv. unfold classList_toggle_force. rewrite Hv. eexists. split; [reflexivity|].
  cbn [DOM localStorage heap record with_heap]. do 2 (split; [reflexivity|]).
  rewrite heap_alter, decide_True by reflexivity. cbn [classList with_classList].
  destruct force.
  - rewrite elem_of_token_add. tauto.
  - rewrite elem_of_token_remove. split; [tauto|discriminate].
Qed.

(** The change handler where the body exists and the storage can be
    written. *)
Lemma onchange_spec (stored : bool) (sw b : Node) (m : gmap string string) (v : Window) :
  body (DOM (page v)) = Some b -> localStorage (page v) = Some m ->
  ∃ v', ThemeSwitch.onchange H stored sw v = (Normal tt, v') /\
        DOM (page v') = DOM (page v) /\ checked v' = checked v /\ ui v' = ui v /\
        ("light-mode" ∈ classList (heap (page v') b) <-> sw ∈ checked v) /\
        localStorage (page v')
        = Some (if stored
                then <["theme" := if bool_decide (sw ∈ checked v)
                                  then "light-mode" else "dark-mode"]> m
                else m).
Proof.
  intros Hb Hm. unfold ThemeSwitch.onchange.
  unfold mbind at 1, UI_bind at 1, get_checked.
  unfold mbind at 1, UI_bind at 1, lift at 1, get_DOM. cbn [fst snd].
  unfold mbind at 1, UI_bind at 1, lift at 1. cbn [page]. rewrite Hb. cbn [deref mret JS_ret fst snd].
  destruct (toggle_force_run b "light-mode" (bool_decide (sw ∈ checked v)) (page v) eq_refl)
    as (w1 & E1 & D1 & S1 & C1).
  unfold mbind at 1, UI_bind at 1, lift at 1. cbn [page ui checked]. rewrite E1. cbn [fst snd].
  destruct (save_theme_run stored
              (if bool_decide (sw ∈ checked v) then "light-mode" else "dark-mode") w1)
    as (w2 & E2 & D2 & H2 & S2).
  unfold mbind at 1, UI_bind at 1, lift at 1. cbn [page ui checked]. rewrite E2. cbn [fst snd].
  destruct (updateRgbaVars_spec H w2)
    as (v1 & v2 & v3 & v4 & w3 & new & E3 & _ & _ & _ & _ & D3 & H3 & S3 & _).
  unfold lift. cbn [page ui checked]. rewrite E3. cbn [fst snd].
  eexists. split; [reflexivity|]. cbn [page ui checked].
  split; [congruence|]. do 2 (split; [reflexivity|]). split.
  - rewrite H3, H2, C1. apply bool_decide_eq_true.
  - rewrite S3, S2, S1, Hm. destruct stored; reflexivity.
Qed.


(** [setupThemeToggle] of part_000 where everything it needs exists. *)
Lemma switch_setup_spec (sw b : Node) (m : gmap string string) (v : Window) :
  getElementById H "theme-switch-checkbox" = Some sw ->
  body (DOM (page v)) = Some b -> localStorage (page v) = Some m ->
  ∃ v', ThemeSwitch.setupThemeToggle H v = (Normal tt, v') /\
        DOM (page v') = DOM (page v) /\ localStorage (page v') = Some m /\
        ("light-mode" ∈ classList (heap (page v') b) <-> m !! "theme" = Some "light-mode") /\
        (sw ∈ checked v' <-> m !! "theme" = Some "light-mode").
Proof.
  intros Hsw Hb Hm. unfold ThemeSwitch.setupThemeToggle. rewrite Hsw.
  unfold mbind at 1, UI_bind at 1, lift at 1, localStorage_getItem. rewrite Hm. cbn [fst snd].
  unfold mbind at 1, UI_bind at 1, lift at 1, get_DOM. cbn [fst snd page].
  unfold mbind at 1, UI_bind at 1, lift at 1. cbn [page]. rewrite Hb. cbn [deref mret JS_ret fst snd].
  set (light := bool_decide (m !! "theme" = Some "light-mode")).
  destruct (toggle_force_run b "light-mode" light (page v) eq_refl)
    as (w1 & E1 & D1 & S1 & C1).
  unfold mbind at 1, UI_bind at 1, lift at 1. cbn [page ui checked]. rewrite E1. cbn [fst snd].
  unfold mbind at 1, UI_bind at 1, set_checked. cbn [page ui checked].
  destruct (updateRgbaVars_spec H w1)
    as (v1 & v2 & v3 & v4 & w2 & new & E2 & _ & _ & _ & _ & D2 & H2 & S2 & _).
  unfold mbind at 1, UI_bind at 1, lift at 1. cbn [page ui checked]. rewrite E2. cbn [fst snd].
  unfold mbind, UI_bind, lift, addEventListener, console. cbn [fst snd page ui checked].
  eexists. split; [reflexivity|]. cbn [page ui checked DOM localStorage heap record].
  split; [congruence|]. split; [congruence|]. split.
  - rewrite H2, C1. apply bool_decide_eq_true.
  - subst light. case_bool_decide as Hl; set_solver.
Qed.

End SwitchProofs.

Lemma flips_snoc (H : Host) (sw : Node) (writes : list bool) (stored : bool) (v : Window) :
  ThemeSwitch.flips H sw (writes ++ [stored]) v
  = ThemeSwitch.flip H sw stored (ThemeSwitch.flips H sw writes v).
Proof. unfold ThemeSwitch.flips. rewrite fold_left_app. reflexivity. Qed.

(** X16. The theme switch of part_000 keeps its signs in agreement,
    whatever the markup of the body and whether the browser takes the
    writes to the storage or refuses them: after [setupThemeToggle] and any
    number of flips of the switch the body carries [light-mode] exactly
    when the switch is checked; the switch is checked exactly when the
    number of flips is even and the saved theme was [light-mode], or the
    number is odd and it was not. The storage holds the theme the body
    shows when the last write was taken; a flip whose write is refused
    leaves the storage as it was. *)
Theorem theme_switch_agrees
  (H : Host) (v : Window) (sw b : Node) (m : gmap string string) (writes : list bool) :
  getElementById H "theme-switch-checkbox" = Some sw ->
  body (DOM (page v)) = Some b -> localStorage (page v) = Some m ->
  let v0 := snd (ThemeSwitch.setupThemeToggle H v) in
  let v' := ThemeSwitch.flips H sw writes v0 in
  fst (ThemeSwitch.setupThemeToggle H v) = Normal tt /\
  ("light-mode" ∈ classList (heap (page v') b) <-> sw ∈ checked v') /\
  (sw ∈ checked v' <->
   Nat.even (length writes) = bool_decide (m !! "theme" = Some "light-mode")) /\
  (last writes = Some true -> theme_saved (page v') b) /\
  (∀ earlier, writes = earlier ++ [false] ->
     localStorage (page v') = localStorage (page (ThemeSwitch.flips H sw earlier v0))).
Proof.
  intros Hsw Hb Hm. cbv zeta.
  destruct (switch_setup_spec H sw b m v Hsw Hb Hm) as (v0 & E & D0 & S0 & L0 & C0).
  rewrite E. cbn [fst snd]. split; [reflexivity|].
  assert (Hstep : ∀ stored v1 m',
            DOM (page v1) = DOM (page v) -> localStorage (page v1) = Some m' ->
            let v3 := ThemeSwitch.flip H sw stored v1 in
            DOM (page v3) = DOM (page v) /\
            localStorage (page v3)
            = Some (if stored
                    then <["theme" := if bool_decide (sw ∈ checked v3)
                                      then "light-mode" else "dark-mode"]> m'
                    else m') /\
            ("light-mode" ∈ classList (heap (page v3) b) <-> sw ∈ checked v3) /\
            (sw ∈ checked v3 <-> ¬ sw ∈ checked v1)).
  { intros stored v1 m' D S. unfold ThemeSwitch.flip.
    set (v2 := mkWindow (page v1) (ui v1) _).
    assert (C2 : sw ∈ checked v2 <-> ¬ sw ∈ checked v1).
    { subst v2. cbn [checked].
      destruct (decide (sw ∈ checked v1)) as [Hin|Hnin].
      - rewrite (bool_decide_eq_true_2 _ Hin), elem_of_difference, elem_of_singleton. tauto.
      - rewrite (bool_decide_eq_false_2 _ Hnin), elem_of_union, elem_of_singleton. tauto. }
    assert (Hb2 : body (DOM (page v2)) = Some b) by (rewrite <- Hb, <- D; reflexivity).
    assert (Hs2 : localStorage (page v2) = Some m') by exact S.
    destruct (onchange_spec H stored sw b m' v2 Hb2 Hs2)
      as (v3 & E3 & D3 & K3 & _ & L3 & S3).
    cbv zeta. rewrite E3. cbn [snd]. split; [rewrite D3; exact D|].
    split; [rewrite S3, K3; reflexivity|].
    split; [rewrite K3; exact L3|]. rewrite K3. exact C2. }
  assert (Hinv : ∀ writes, let v' := ThemeSwitch.flips H sw writes v0 in
            DOM (page v') = DOM (page v) /\ is_Some (localStorage (page v')) /\
            ("light-mode" ∈ classList (heap (page v') b) <-> sw ∈ checked v') /\
            (sw ∈ checked v' <->
             Nat.even (length writes) = bool_decide (m !! "theme" = Some "light-mode")) /\
            (last writes = Some true -> theme_saved (page v') b)).
  { clear writes. induction writes as [|stored writes IH] using rev_ind; cbv zeta.
    - change (ThemeSwitch.flips H sw [] v0) with v0.
      split; [exact D0|]. split; [rewrite S0; eauto|]. split; [tauto|].
      split; [|discriminate]. rewrite C0. cbn [length Nat.even].
      case_bool_decide; split; intros; congruence.
    - rewrite flips_snoc. cbv zeta in IH. destruct IH as (D & [m' S] & L & C & _).
      set (v1 := ThemeSwitch.flips H sw writes v0) in *.
      destruct (Hstep stored v1 m' D S) as (D3 & S3 & L3 & C3).
      split; [exact D3|]. split; [rewrite S3; eauto|]. split; [exact L3|]. split.
      + rewrite C3, C, length_app. cbn [length]. rewrite Nat.add_1_r.
        rewrite Nat.even_succ, <- Nat.negb_even.
        destruct (Nat.even (length writes)), (bool_decide (m !! "theme" = Some "light-mode"));
          cbn; split; intros; congruence.
      + rewrite last_snoc. intros [= ->]. unfold theme_saved. rewrite S3.
        eexists. split; [reflexivity|].
        rewrite lookup_insert_eq. f_equal.
        destruct (decide (sw ∈ checked (ThemeSwitch.flip H sw true v1))) as [Hin|Hnin].
        * rewrite (bool_decide_eq_true_2 _ Hin).
          rewrite bool_decide_eq_true_2 by (apply L3; exact Hin). reflexivity.
        * rewrite (bool_decide_eq_false_2 _ Hnin).
          rewrite bool_decide_eq_false_2 by (rewrite L3; exact Hnin). reflexivity. }
  destruct (Hinv writes) as (_ & _ & L & C & Hs).
  split; [exact L|]. split; [exact C|]. split; [exact Hs|].
  intros earlier ->. rewrite flips_snoc.
  destruct (Hinv earlier) as (D & [m' S] & _).
  destruct (Hstep false _ m' D S) as (_ & S3 & _). rewrite S3, S. reflexivity.
Qed.

(** X17. [setupThemeToggle] of part_000 has no handler of its own: where
    the switch exists it throws a SecurityError when the storage is denied
    and a TypeError when there is no body, and completes normally
    otherwise; without the switch it only warns. *)
Theorem theme_switch_setup_completion (H : Host) (v : Window) :
  fst (ThemeSwitch.setupThemeToggle H v) =
    match getElementById H "theme-switch-checkbox" with
    | None => Normal tt
    | Some _ =>
        match localStorage (page v) with
        | None => Throw SecurityError
        | Some _ =>
            match body (DOM (page v)) with
            | None => Throw TypeError
            | Some _ => Normal tt
            end
        end
    end /\
  (getElementById H "theme-switch-checkbox" = None ->
   snd (ThemeSwitch.setupThemeToggle H v)
   = mkWindow (record (Console "warn" "Theme switch checkbox not found") (page v))
       (ui v) (checked v)).
Proof.
  split.
  2:{ intros Hsw. unfold ThemeSwitch.setupThemeToggle. rewrite Hsw. reflexivity. }
  destruct (getElementById H "theme-switch-checkbox") as [sw|] eqn:Hsw.
  2:{ unfold ThemeSwitch.setupThemeToggle. rewrite Hsw. reflexivity. }
  destruct (localStorage (page v)) as [m|] eqn:Hm.
  2:{ unfold ThemeSwitch.setupThemeToggle. rewrite Hsw.
      unfold mbind at 1, UI_bind at 1, lift at 1, localStorage_getItem. rewrite Hm. reflexivity. }
  destruct (body (DOM (page v))) as [b|] eqn:Hb.
  - destruct (switch_setup_spec H sw b m v Hsw Hb Hm) as (v0 & -> & _). reflexivity.
  - unfold ThemeSwitch.setupThemeToggle. rewrite Hsw.
    unfold mbind at 1, UI_bind at 1, lift at 1, localStorage_getItem. rewrite Hm. cbn [fst snd].
    unfold mbind at 1, UI_bind at 1, lift at 1, get_DOM. cbn [fst snd page].
    unfold mbind at 1, UI_bind at 1, lift at 1. cbn [page]. rewrite Hb. reflexivity.
Qed.

Lemma theme_switch_agrees_witness :
  let v0 := snd (ThemeSwitch.setupThemeToggle SampleSwitch.host SampleSwitch.loaded) in
  let v1 := ThemeSwitch.flips SampleSwitch.host 7%nat [true] v0 in
  let v2 := ThemeSwitch.flips SampleSwitch.host 7%nat [true; false] v0 in
  7%nat ∈ checked v0 /\ ¬ 7%nat ∈ checked v1 /\
  ¬ "light-mode" ∈ classList (heap (page v1) 1%nat) /\
  theme_saved (page v1) 1%nat /\
  "light-mode" ∈ classList (heap (page v2) 1%nat) /\
  localStorage (page v2) = localStorage (page v1).
Proof.
  intros v0 v1 v2.
  destruct (theme_switch_agrees SampleSwitch.host SampleSwitch.loaded 7%nat 1%nat
              {["theme" := "light-mode"]} []) as (_ & _ & C0 & _); try reflexivity.
  destruct (theme_switch_agrees SampleSwitch.host SampleSwitch.loaded 7%nat 1%nat
              {["theme" := "light-mode"]} [true]) as (_ & L1 & C1 & S1 & _); try reflexivity.
  destruct (theme_switch_agrees SampleSwitch.host SampleSwitch.loaded 7%nat 1%nat
              {["theme" := "light-mode"]} [true; false]) as (_ & L2 & C2 & _ & K2);
    try reflexivity.
  fold v0 in C0, L1, C1, S1, L2, C2, K2. fold v1 in L1, C1, S1. fold v2 in L2, C2, K2.
  assert (Hn : ¬ 7%nat ∈ checked v1) by (rewrite C1; discriminate).
  split; [apply C0; reflexivity|]. split; [exact Hn|].
  split; [rewrite L1; exact Hn|]. split; [apply S1; reflexivity|].
  split; [apply L2, C2; reflexivity|]. exact (K2 [true] eq_refl).
Defined.

Lemma validate_grow : TokenList.validate "grow" = Normal tt.
Proof. reflexivity. Qed.

Lemma enter_interactive (closest : Node -> string -> option Node) (w : World) (n x c : Node) :
  closest n INTERACTIVE = Some x -> customCursor (DOM w) = Some c ->
  cursor_onmouseenter closest (TElement n) w = classList_add c "grow" w.
Proof.
  intros Hx Hc. unfold cursor_onmouseenter, mbind, JS_bind, target_closest, get_DOM, deref.
  rewrite Hx. cbn [mret JS_ret]. rewrite Hc. cbn [mret JS_ret].
  destruct (classList_add c "grow" w) as [[[]|e] w1]; reflexivity.
Qed.

Lemma leave_interactive (closest : Node -> string -> option Node) (w : World) (n x c : Node) :
  closest n INTERACTIVE = Some x -> customCursor (DOM w) = Some c ->
  cursor_onmouseleave closest (TElement n) w = classList_remove c "grow" w.
Proof.
  intros Hx Hc. unfold cursor_onmouseleave, mbind, JS_bind, target_closest, get_DOM, deref.
  rewrite Hx. cbn [mret JS_ret]. rewrite Hc. cbn [mret JS_ret].
  destruct (classList_remove c "grow" w) as [[[]|e] w1]; reflexivity.
Qed.

Lemma hover_elsewhere (closest : Node -> string -> option Node) (w : World) (n : Node) :
  closest n INTERACTIVE = None ->
  cursor_onmouseenter closest (TElement n) w = (Normal tt, w) /\
  cursor_onmouseleave closest (TElement n) w = (Normal tt, w).
Proof.
  intros Hx. unfold cursor_onmouseenter, cursor_onmouseleave, mbind, JS_bind, target_closest.
  rewrite Hx. split; reflexivity.
Qed.

Lemma hover_step_spec (closest : Node -> string -> option Node)
    (w : World) (c : Node) (e : HoverEvent) :
  customCursor (DOM w) = Some c ->
  let w' := hover_step closest w e in
  DOM w' = DOM w /\
  bool_decide ("grow" ∈ classList (heap w' c))
  = match e with
    | MouseEnter t => if interactive closest t then true
                      else bool_decide ("grow" ∈ classList (heap w c))
    | MouseLeave t => if interactive closest t then false
                      else bool_decide ("grow" ∈ classList (heap w c))
    end.
Proof.
  intros Hc. cbv zeta.
  destruct e as [[|n]|[|n]]; cbn [hover_step interactive]; try (split; reflexivity).
  - destruct (closest n INTERACTIVE) as [x|] eqn:Hx.
    + change (bool_decide (is_Some (Some x))) with true. cbv iota.
      rewrite (enter_interactive closest w n x c Hx Hc).
      destruct (classList_add_run c "grow" w validate_grow) as (w1 & -> & D1 & _ & _ & C1).
      cbn [snd]. split; [exact D1|]. apply bool_decide_eq_true_2, C1. auto.
    + change (bool_decide (is_Some (@None Node))) with false. cbv iota.
      destruct (hover_elsewhere closest w n Hx) as [-> _]. split; reflexivity.
  - destruct (closest n INTERACTIVE) as [x|] eqn:Hx.
    + change (bool_decide (is_Some (Some x))) with true. cbv iota.
      rewrite (leave_interactive closest w n x c Hx Hc).
      destruct (classList_remove_run c "grow" w validate_grow) as (w1 & -> & D1 & _ & _ & C1).
      cbn [snd]. split; [exact D1|]. apply bool_decide_eq_false_2. rewrite C1. tauto.
    + change (bool_decide (is_Some (@None Node))) with false. cbv iota.
      destruct (hover_elsewhere closest w n Hx) as [_ ->]. split; reflexivity.
Qed.

(** X18. The cursor grows over interactive elements: after any sequence
    of [mouseenter] and [mouseleave] events the cursor element carries
    [grow] exactly when the last event inside an interactive element was
    a [mouseenter] (or, without such an event, when it carried [grow]
    before). An event whose target is the document itself makes the handler
    throw a TypeError and changes nothing. *)
Theorem cursor_grows_over_interactive
  (closest : Node -> string -> option Node) (w : World) (c : Node)
  (events : list HoverEvent) :
  customCursor (DOM w) = Some c ->
  ("grow" ∈ classList (heap (hover_run closest events w) c) <->
   grown_after closest events (bool_decide ("grow" ∈ classList (heap w c))) = true) /\
  cursor_onmouseenter closest TDocument w = (Throw TypeError, w) /\
  cursor_onmouseleave closest TDocument w = (Throw TypeError, w).
Proof.
  intros Hc. split; [|split; reflexivity].
  revert w Hc. induction events as [|e events IH]; intros w Hc.
  - cbn. rewrite bool_decide_eq_true. tauto.
  - cbn [hover_run grown_after fold_left].
    destruct (hover_step_spec closest w c e Hc) as [HD Hg].
    fold (hover_run closest events (hover_step closest w e)).
    rewrite IH by (rewrite HD; exact Hc). rewrite Hg.
    fold (grown_after closest events). destruct e; reflexivity.
Qed.

Lemma cursor_grows_over_interactive_witness :
  let closest := λ (n : Node) (_ : string), if decide (n = 40%nat) then Some 40%nat else None in
  let w := with_DOM (mkDOMCache (Some 1%nat) None None None None None (Some 60%nat) None)
             Sample.loaded in
  "grow" ∈ classList
    (heap (hover_run closest
             [MouseEnter (TElement 40%nat); MouseLeave (TElement 10%nat);
              MouseEnter TDocument] w) 60%nat).
Proof.
  intros closest w.
  apply (cursor_grows_over_interactive closest w 60%nat); reflexivity.
Defined.

Section Quiet.

Lemma quiet_ret {A : Type} (a : A) : quiet (mret a : JS A).
Proof. intros w. split; [reflexivity|]. exists []. split; [symmetry; apply app_nil_r|constructor]. Qed.

Lemma quiet_throw {A : Type} (e : Exn) : quiet (throw e : JS A).
Proof. intros w. split; [reflexivity|]. exists []. split; [symmetry; apply app_nil_r|constructor]. Qed.

Lemma quiet_bind {A B : Type} (m : JS A) (k : A -> JS B) :
  quiet m -> (∀ a, quiet (k a)) -> quiet (m ≫= k).
Proof.
  intros Hm Hk w. unfold mbind, JS_bind. destruct (Hm w) as (Hs & new & Hc & Hf).
  destruct (m w) as [[a|e] w1]; cbn [snd] in *.
  - destruct (Hk a w1) as (Hs' & new' & Hc' & Hf'). split; [congruence|].
    exists (new ++ new'). split; [rewrite Hc', Hc, app_assoc; reflexivity|].
    apply Forall_app. auto.
  - split; [exact Hs|]. exists new. auto.
Qed.

Lemma quiet_try_catch {A : Type} (m : JS A) (h : Exn -> JS A) :
  quiet m -> (∀ e, quiet (h e)) -> quiet (try_catch m h).
Proof.
  intros Hm Hh w. unfold try_catch. destruct (Hm w) as (Hs & new & Hc & Hf).
  destruct (m w) as [[a|e] w1]; cbn [snd] in *.
  - split; [exact Hs|]. exists new. auto.
  - destruct (Hh e w1) as (Hs' & new' & Hc' & Hf'). split; [congruence|].
    exists (new ++ new'). split; [rewrite Hc', Hc, app_assoc; reflexivity|].
    apply Forall_app. auto.
Qed.

Lemma quiet_forEach_from {A : Type} (f : A -> nat -> JS unit) (l : list A) :
  (∀ x i, quiet (f x i)) -> ∀ i, quiet (forEach_from f i l).
Proof.
  intros Hf. induction l as [|x l IH]; intros i; cbn [forEach_from].
  - apply quiet_ret.
  - apply quiet_bind; [apply Hf|]. intros _. apply IH.
Qed.

(** A primitive that appends one silent call, or none, and leaves the
    storage alone. *)
Lemma quiet_call {A : Type} (m : JS A) :
  (∀ w, localStorage (snd (m w)) = localStorage w /\
        (calls (snd (m w)) = calls w \/
         ∃ c, silent c /\ calls (snd (m w)) = calls w ++ [c])) ->
  quiet m.
Proof.
  intros Hm w. destruct (Hm w) as [Hs [Hc|(c & Hsil & Hc)]]; (split; [exact Hs|]).
  - exists []. split; [rewrite app_nil_r; exact Hc|constructor].
  - exists [c]. split; [exact Hc|]. constructor; [exact Hsil|constructor].
Qed.

Lemma quiet_console (level message : string) : quiet (console level message).
Proof. apply quiet_call. intros w. split; [reflexivity|]. right. eexists. split; [|reflexivity]. reflexivity. Qed.

Lemma quiet_setProperty (name value : string) : quiet (setProperty name value).
Proof. apply quiet_call. intros w. split; [reflexivity|]. right. eexists. split; [|reflexivity]. reflexivity. Qed.

Lemma quiet_get_DOM : quiet get_DOM.
Proof. apply quiet_call. intros w. split; [reflexivity|]. left. reflexivity. Qed.

Lemma quiet_deref (o : option Node) : quiet (deref o).
Proof. destruct o; [apply quiet_ret|apply quiet_throw]. Qed.

Lemma quiet_classList_add (el : Node) (tok : string) : quiet (classList_add el tok).
Proof.
  apply quiet_call. intros w. unfold classList_add.
  destruct (TokenList.validate tok); (split; [reflexivity|]); [right|left; reflexivity].
  eexists. split; [|reflexivity]. reflexivity.
Qed.

Lemma quiet_observe (s : Node) : quiet (observe s).
Proof. apply quiet_call. intros w. split; [reflexivity|]. right. eexists. split; [|reflexivity]. reflexivity. Qed.

Lemma quiet_new_IntersectionObserver (H : Host) (step : Number.t) :
  quiet (new_IntersectionObserver H step).
Proof.
  apply quiet_call. intros w. unfold new_IntersectionObserver.
  destruct (has_IntersectionObserver H); (split; [reflexivity|]); [right|left; reflexivity].
  eexists. split; [|reflexivity]. reflexivity.
Qed.

Lemma quiet_new_MutationObserver (H : Host) : quiet (new_MutationObserver H).
Proof.
  apply quiet_call. intros w. unfold new_MutationObserver.
  destruct (has_MutationObserver H); (split; [reflexivity|]); [right|left; reflexivity].
  eexists. split; [|reflexivity]. reflexivity.
Qed.

Lemma quiet_mutation_observe (n : Node) : quiet (mutation_observe n).
Proof. apply quiet_call. intros w. split; [reflexivity|]. right. eexists. split; [|reflexivity]. reflexivity. Qed.

Lemma quiet_hexToRgb (hex : JsValue) : quiet (hexToRgb hex).
Proof.
  unfold hexToRgb.
  repeat first
    [ apply quiet_bind; [|intros ?] | apply quiet_try_catch; [|intros ?]
    | apply quiet_console | apply quiet_ret
    | match goal with
      | |- quiet (if ?x then _ else _) => destruct x
      | |- quiet (match ?x with _ => _ end) => destruct x
      end ].
Qed.

Lemma quiet_updateRgbaVars (H : Host) : quiet (updateRgbaVars H).
Proof.
  unfold updateRgbaVars. apply quiet_try_catch; [|intros e; apply quiet_console].
  apply quiet_bind; [apply quiet_call; intros w; split; [reflexivity|left; reflexivity]|].
  intros f. cbv zeta.
  repeat (apply quiet_bind; [first [apply quiet_hexToRgb | apply quiet_setProperty]|intros ?]).
  apply quiet_console.
Qed.

Lemma quiet_setupScrollAnimations (step : Number.t) (H : Host) :
  quiet (setupScrollAnimations step H).
Proof.
  unfold setupScrollAnimations, skip. apply quiet_bind; [apply quiet_get_DOM|]. intros D.
  destruct (sections D) as [secs|]; [|apply quiet_ret].
  destruct (length secs =? 0)%nat; [apply quiet_ret|].
  apply quiet_bind; [apply quiet_new_IntersectionObserver|]. intros _.
  apply quiet_bind; [|intros _; apply quiet_console].
  unfold forEach. apply quiet_forEach_from. intros s i. unfold prepare, forEach.
  apply quiet_bind; [|intros _; apply quiet_observe].
  apply quiet_forEach_from. intros el j. apply quiet_classList_add.
Qed.

Lemma quiet_setupThemeObserver (H : Host) : quiet (setupThemeObserver H).
Proof.
  unfold setupThemeObserver.
  apply quiet_bind; [apply quiet_new_MutationObserver|]. intros _.
  apply quiet_bind; [apply quiet_get_DOM|]. intros D.
  apply quiet_bind; [apply quiet_deref|]. intros b.
  apply quiet_bind; [apply quiet_mutation_observe|]. intros _. apply quiet_console.
Qed.

Lemma listeners_silent (new : list Call) : Forall silent new -> listeners new = [].
Proof.
  induction 1 as [|c new Hc _ IH]; [reflexivity|].
  unfold listeners in *. cbn [omap list_omap]. rewrite Hc. exact IH.
Qed.

Lemma listeners_app (l1 l2 : list Call) :
  listeners (l1 ++ l2) = listeners l1 ++ listeners l2.
Proof. unfold listeners. apply omap_app. Qed.

End Quiet.

Section Wiring.

Variable H : Host.

Lemma bind_normal_inv {A B : Type} (m : JS A) (k : A -> JS B) (w : World) (b : B) :
  fst ((m ≫= k) w) = Normal b ->
  ∃ a w', m w = (Normal a, w') /\ (m ≫= k) w = k a w'.
Proof.
  unfold mbind, JS_bind. destruct (m w) as [[a|e] w1]; [eauto|discriminate].
Qed.

Lemma reached_trans (w0 w1 w2 : World) (L1 L2 : list Listener) :
  reached w0 w1 L1 -> reached w1 w2 L2 -> reached w0 w2 (L1 ++ L2).
Proof.
  intros (D1 & S1 & n1 & C1 & E1) (D2 & S2 & n2 & C2 & E2).
  split; [congruence|]. split; [congruence|].
  exists (n1 ++ n2). split; [rewrite C2, C1, app_assoc; reflexivity|].
  rewrite listeners_app, E1, E2. reflexivity.
Qed.

Lemma reached_quiet {A : Type} (m : JS A) (w w' : World) (a : A) :
  keeps_DOM m -> quiet m -> m w = (Normal a, w') -> reached w w' [].
Proof.
  intros Hk Hq E. specialize (Hk w). destruct (Hq w) as (Hs & new & Hc & Hf).
  rewrite E in Hk, Hs, Hc. cbn [snd] in *.
  split; [exact Hk|]. split; [exact Hs|]. exists new. split; [exact Hc|].
  apply listeners_silent. exact Hf.
Qed.

Lemma reached_smoothScroll (w w' : World) :
  setupSmoothScroll w = (Normal tt, w') -> reached w w' [(TDocument, "click", AnchorClick)].
Proof.
  intros [= <-]. split; [reflexivity|]. split; [reflexivity|].
  eexists [_; _]. split; [cbn; rewrite <- app_assoc; reflexivity|reflexivity].
Qed.

Lemma reached_mobileMenu (w w' : World) :
  setupMobileMenu w = (Normal tt, w') ->
  reached w w' match navToggle (DOM w), navLinks (DOM w) with
               | Some toggle, Some _ => [(TElement toggle, "click", NavToggleClick)]
               | _, _ => []
               end.
Proof.
  unfold setupMobileMenu, mbind, JS_bind, get_DOM.
  destruct (navToggle (DOM w)) as [t|], (navLinks (DOM w)) as [l|]; intros [= <-];
    (split; [reflexivity|]); (split; [reflexivity|]).
  - eexists [_; _]. split; [cbn; rewrite <- app_assoc; reflexivity|reflexivity].
  - eexists [_]. split; reflexivity.
  - eexists [_]. split; reflexivity.
  - eexists [_]. split; reflexivity.
Qed.

Lemma reached_customCursor (w w' : World) :
  setupCustomCursor w = (Normal tt, w') ->
  reached w w' match customCursor (DOM w) with
               | Some _ => [(TDocument, "mousemove", CursorMouseMove);
                            (TDocument, "mouseenter", CursorMouseEnter);
                            (TDocument, "mouseleave", CursorMouseLeave)]
               | None => []
               end.
Proof.
  unfold setupCustomCursor, mbind, JS_bind, get_DOM.
  destruct (customCursor (DOM w)) as [c|]; intros [= <-];
    (split; [reflexivity|]); (split; [reflexivity|]).
  - eexists [_; _; _; _]. split; [cbn; rewrite <- !app_assoc; reflexivity|reflexivity].
  - exists []. split; [symmetry; apply app_nil_r|reflexivity].
Qed.

Lemma reached_formValidation (w w' : World) :
  setupFormValidation H w = (Normal tt, w') ->
  reached w w' match querySelector H ".contact-form" with
               | Some form => [(TElement form, "submit", ContactFormSubmit)]
               | None => []
               end.
Proof.
  unfold setupFormValidation, mbind, JS_bind.
  destruct (querySelector H ".contact-form") as [f|]; intros [= <-];
    (split; [reflexivity|]); (split; [reflexivity|]).
  - eexists [_; _]. split; [cbn; rewrite <- app_assoc; reflexivity|reflexivity].
  - exists []. split; [symmetry; apply app_nil_r|reflexivity].
Qed.

Lemma reached_console (level message : string) (w w' : World) :
  console level message w = (Normal tt, w') -> reached w w' [].
Proof.
  intros [= <-]. split; [reflexivity|]. split; [reflexivity|].
  eexists [_]. split; reflexivity.
Qed.


Lemma reached_themeToggle (w w' : World) :
  setupThemeToggle w = (Normal tt, w') -> is_Some (body (DOM w)) ->
  reached w w' match themeToggle (DOM w), localStorage w with
               | Some toggle, Some _ => [(TElement toggle, "click", ThemeToggleClick)]
               | _, _ => []
               end.
Proof.
  intros E [b Hb].
  assert (Hidle : ∀ level message,
            setupThemeToggle w = (Normal tt, record (Console level message) w) ->
            reached w w' []).
  { intros level message E'. rewrite E' in E. injection E as <-.
    split; [reflexivity|]. split; [reflexivity|]. eexists [_]. split; reflexivity. }
  destruct (themeToggle (DOM w)) as [t|] eqn:Ht.
  2:{ destruct (setupThemeToggle_idle w) as (l & msg & E'); [auto|]. exact (Hidle l msg E'). }
  destruct (localStorage w) as [m|] eqn:Hs.
  2:{ destruct (setupThemeToggle_idle w) as (l & msg & E'); [auto|]. exact (Hidle l msg E'). }
  destruct (setupThemeToggle_spec w t b m Ht Hs (λ _, Hb))
    as (w0 & E0 & D0 & S0 & (ops & Hsil & HC) & _).
  rewrite E0 in E. injection E as <-.
  split; [exact D0|]. split; [congruence|].
  eexists. split; [exact HC|].
  rewrite listeners_app, (listeners_silent ops Hsil). reflexivity.
Qed.

Lemma reached_cache (w w' : World) :
  cacheDOMElements H w = (Normal tt, w') ->
  DOM w' = mkDOMCache (body (DOM w))
             (getElementById H "theme-toggle") (getElementById H "sun-icon")
             (getElementById H "moon-icon") (getElementById H "navToggle")
             (getElementById H "navLinks") (querySelector H ".custom-cursor")
             (Some (querySelectorAll H "section.full-viewport-section")) /\
  localStorage w' = localStorage w /\
  ∃ new, calls w' = calls w ++ new /\ listeners new = [].
Proof.
  intros [= <-]. split; [reflexivity|]. split; [reflexivity|].
  eexists [_]. split; reflexivity.
Qed.

End Wiring.

(** X19. When [init] of script.js completes, the listeners it has
    registered are, in this order: the click listener of the smooth scroll
    on the document, always; the click listener of the menu toggle when the
    toggle and the links exist; the three listeners of the custom cursor
    when the cursor element exists; the click listener of the theme button
    when the button exists and the storage can be read; and the submit
    listener of the contact form when the form exists. A missing element
    leaves out its own feature only. *)
Theorem init_wires_features (H : Host) (w : World) :
  fst (init H w) = Normal tt ->
  listeners (drop (length (calls w)) (calls (snd (init H w)))) = wired H w.
Proof.
  intros Hn. unfold init in *.
  destruct (bind_normal_inv _ _ _ _ Hn) as ([] & w0 & E0 & R0). rewrite R0 in Hn |- *. clear R0.
  destruct (bind_normal_inv _ _ _ _ Hn) as ([] & w1 & E1 & R1). rewrite R1 in Hn |- *. clear R1.
  destruct (bind_normal_inv _ _ _ _ Hn) as ([] & w2 & E2 & R2). rewrite R2 in Hn |- *. clear R2.
  destruct (bind_normal_inv _ _ _ _ Hn) as ([] & w3 & E3 & R3). rewrite R3 in Hn |- *. clear R3.
  destruct (bind_normal_inv _ _ _ _ Hn) as ([] & w4 & E4 & R4). rewrite R4 in Hn |- *. clear R4.
  destruct (bind_normal_inv _ _ _ _ Hn) as ([] & w5 & E5 & R5). rewrite R5 in Hn |- *. clear R5.
  destruct (bind_normal_inv _ _ _ _ Hn) as ([] & w6 & E6 & R6). rewrite R6 in Hn |- *. clear R6.
  destruct (bind_normal_inv _ _ _ _ Hn) as ([] & w7 & E7 & R7). rewrite R7 in Hn |- *. clear R7.
  destruct (bind_normal_inv _ _ _ _ Hn) as ([] & w8 & E8 & R8). rewrite R8 in Hn |- *. clear R8.
  destruct (reached_cache H w w0 E0) as (D0 & S0 & n0 & C0 & L0).
  pose proof (reached_quiet _ _ _ _ (keeps_updateRgbaVars H) (quiet_updateRgbaVars H) E1) as T1.
  pose proof (reached_smoothScroll _ _ E2) as T2.
  pose proof (reached_mobileMenu _ _ E3) as T3.
  pose proof (reached_customCursor _ _ E4) as T4.
  pose proof (reached_quiet _ _ _ _ (keeps_setupScrollAnimations H ScriptJs.STEP)
                (quiet_setupScrollAnimations ScriptJs.STEP H) E5) as T5.
  assert (Hbody : is_Some (body (DOM w5))).
  { pose proof (setupThemeObserver_completion H w6) as Ho. rewrite E7 in Ho. cbn [fst] in Ho.
    destruct (has_MutationObserver H); [|discriminate]. cbn [negb] in Ho.
    pose proof (keeps_setupThemeToggle w5) as D6. rewrite E6 in D6. cbn [snd] in D6.
    rewrite D6 in Ho. destruct (body (DOM w5)); [eauto|discriminate]. }
  pose proof (reached_themeToggle w5 w6 E6 Hbody) as T6.
  pose proof (reached_quiet _ _ _ _ (keeps_setupThemeObserver H)
                (quiet_setupThemeObserver H) E7) as T7.
  pose proof (reached_formValidation H _ _ E8) as T8.
  pose proof (reached_console "log" "Portfolio initialized successfully" w8 _ eq_refl) as T9.
  assert (Dn : ∀ wi, DOM wi = DOM w0 -> 
             navToggle (DOM wi) = getElementById H "navToggle" /\
             navLinks (DOM wi) = getElementById H "navLinks" /\
             customCursor (DOM wi) = querySelector H ".custom-cursor" /\
             themeToggle (DOM wi) = getElementById H "theme-toggle").
  { intros wi ->. rewrite D0. auto. }
  pose proof (reached_trans _ _ _ _ _ T1 T2) as A2.
  pose proof (reached_trans _ _ _ _ _ A2 T3) as A3.
  pose proof (reached_trans _ _ _ _ _ A3 T4) as A4.
  pose proof (reached_trans _ _ _ _ _ A4 T5) as A5.
  pose proof (reached_trans _ _ _ _ _ A5 T6) as A6.
  pose proof (reached_trans _ _ _ _ _ A6 T7) as A7.
  pose proof (reached_trans _ _ _ _ _ A7 T8) as A8.
  pose proof (reached_trans _ _ _ _ _ A8 T9) as A9.
  destruct T1 as (DT1 & ST1 & XT1).
  assert (DA2 : DOM w2 = DOM w0) by (destruct T2 as (-> & _); exact DT1).
  assert (DA3 : DOM w3 = DOM w0) by (destruct T3 as (-> & _); exact DA2).
  assert (DA5 : DOM w5 = DOM w0).
  { destruct T5 as (-> & _). destruct T4 as (-> & _). exact DA3. }
  assert (SA5 : localStorage w5 = localStorage w0).
  { destruct T5 as (_ & -> & _). destruct T4 as (_ & -> & _). destruct T3 as (_ & -> & _).
    destruct T2 as (_ & -> & _). exact ST1. }
  destruct (Dn w2 DA2) as (N1 & N2 & _). destruct (Dn w3 DA3) as (_ & _ & N3 & _).
  destruct (Dn w5 DA5) as (_ & _ & _ & N4).
  rewrite N1, N2, N3, N4, SA5, S0 in A9.
  destruct A9 as (_ & _ & new & HC & HL).
  unfold console. cbn [snd].
  rewrite HC, C0, <- app_assoc, drop_app_length, listeners_app, L0, HL.
  unfold wired. rewrite ?app_nil_r, <- ?app_assoc. cbn [app]. rewrite ?app_nil_r.
  reflexivity.
Qed.

Lemma init_wires_features_witness :
  fst (init Sample.host Sample.loaded) = Normal tt /\
  listeners (drop (length (calls Sample.loaded)) (calls (snd (init Sample.host Sample.loaded))))
  = [(TDocument, "click", AnchorClick);
     (TElement 2%nat, "click", NavToggleClick);
     (TElement 4%nat, "click", ThemeToggleClick);
     (TElement 40%nat, "submit", ContactFormSubmit)].
Proof.
  assert (Hn : fst (init Sample.host Sample.loaded) = Normal tt) by (vm_compute; reflexivity).
  split; [exact Hn|].
  rewrite (init_wires_features Sample.host Sample.loaded Hn). vm_compute. reflexivity.
Defined.

Section RepoProofs.
Import GitHubRepos.

Variable to_text : option Json -> option JsText.

Lemma show_repo_run (repo : Json) (v : View) :
  show_repo to_text repo v =
  match template to_text repo with
  | Some html => (Some tt, mkView (content v ++ [RepoItem html]) (errors v) (requested v))
  | None => (None, v)
  end.
Proof.
  unfold show_repo, mbind, Attempt_bind, attempt, appendChild.
  destruct (template to_text repo); reflexivity.
Qed.

Lemma for_each_cons (f : Json -> Attempt unit) (x : Json) (l : list Json) (v : View) :
  for_each f (x :: l) v =
  match f x v with
  | (Some _, v') => for_each f l v'
  | (None, v') => (None, v')
  end.
Proof. reflexivity. Qed.

Lemma mapM_cons (f : Json -> option JsText) (x : Json) (l : list Json) :
  mapM f (x :: l) = match f x with
                    | Some y => match mapM f l with
                                | Some k => Some (y :: k)
                                | None => None
                                end
                    | None => None
                    end.
Proof. cbn. destruct (f x); [|reflexivity]. cbn. destruct (mapM f l); reflexivity. Qed.

Lemma for_each_spec (items : list Json) (v : View) :
  match mapM (template to_text) items with
  | Some htmls =>
      for_each (show_repo to_text) items v
      = (Some tt, mkView (content v ++ map RepoItem htmls) (errors v) (requested v))
  | None =>
      fst (for_each (show_repo to_text) items v) = None /\
      errors (snd (for_each (show_repo to_text) items v)) = errors v /\
      requested (snd (for_each (show_repo to_text) items v)) = requested v
  end.
Proof.
  revert v. induction items as [|repo items IH]; intros v.
  - cbn. rewrite app_nil_r. destruct v; reflexivity.
  - rewrite mapM_cons, for_each_cons, show_repo_run.
    destruct (template to_text repo) as [html|]; [|repeat split].
    specialize (IH (mkView (content v ++ [RepoItem html]) (errors v) (requested v))).
    cbn [content errors requested] in IH.
    destruct (mapM (template to_text) items) as [htmls|].
    + rewrite IH. rewrite <- app_assoc. reflexivity.
    + exact IH.
Qed.

Lemma fetch_array (items : list Json) (status : nat) (v : View) :
  fetchGitHubRepos to_text true (Response true status (Some (JArray items))) v =
  match for_each (show_repo to_text) items (mkView [] (errors v) (requested v ++ [URL])) with
  | (Some _, v') => (Some tt, v')
  | (None, v') =>
      (Some tt, mkView [Parsed FALLBACK] (errors v' ++ ["Error fetching GitHub repos:"])
                  (requested v'))
  end.
Proof.
  unfold fetchGitHubRepos, try_catch_all, mbind, Attempt_bind, fetch, attempt,
    set_innerHTML, forEach_repo, console_error.
  cbn [negb fst snd content errors requested].
  destruct (for_each (show_repo to_text) items _) as [[[]|] v1]; reflexivity.
Qed.

Lemma fetch_other (outcome : FetchOutcome) (v : View) :
  (∀ status items, outcome ≠ Response true status (Some (JArray items))) ->
  fetchGitHubRepos to_text true outcome v =
  (Some tt, mkView [Parsed FALLBACK] (errors v ++ ["Error fetching GitHub repos:"])
              (requested v ++ fetch_calls outcome)).
Proof.
  intros Hne. destruct outcome as [| |[|] status [[| | | |items|]|]];
    try (cbn; rewrite ?app_nil_r; reflexivity).
  exfalso. exact (Hne status items eq_refl).
Qed.

End RepoProofs.

(** X20. The repository list of part_000 is shown whole or not at all.
    Once its [await]s have settled, [fetchGitHubRepos] has not thrown, has
    called [fetch] once with the address of the repositories (not at all
    in a browser without [fetch]), and the container holds either one
    [repo-item] per repository of the response, in the order of the
    response and with no error logged, or, for every other outcome (no
    [fetch], no response, a status that is not ok, a body that is no JSON
    text or no array, an entry that is [null] or cannot be written as
    text), the single fallback paragraph, with one error logged: never a
    part of the list. Without the container it does nothing and fetches
    nothing. *)
Theorem repo_list_all_or_fallback
  (to_text : option GitHubRepos.Json -> option JsText)
  (outcome : GitHubRepos.FetchOutcome) (v : GitHubRepos.View) :
  GitHubRepos.fetchGitHubRepos to_text true outcome v =
    (Some tt,
     GitHubRepos.mkView
       match GitHubRepos.rendering to_text outcome with
       | Some htmls => map GitHubRepos.RepoItem htmls
       | None => [GitHubRepos.Parsed GitHubRepos.FALLBACK]
       end
       (GitHubRepos.errors v ++
        match GitHubRepos.rendering to_text outcome with
        | Some _ => []
        | None => ["Error fetching GitHub repos:"]
        end)
       (GitHubRepos.requested v ++ GitHubRepos.fetch_calls outcome)) /\
  GitHubRepos.fetchGitHubRepos to_text false outcome v = (Some tt, v).
Proof.
  split; [|reflexivity].
  assert (Hcase : (∃ status items, outcome = GitHubRepos.Response true status
                                                (Some (GitHubRepos.JArray items))) \/
                  (∀ status items, outcome ≠ GitHubRepos.Response true status
                                               (Some (GitHubRepos.JArray items)))).
  { destruct outcome as [| |[|] status [[| | | |items|]|]]; try (right; discriminate).
    left. eauto. }
  destruct Hcase as [(status & items & ->)|Hne].
  - rewrite fetch_array. cbn [GitHubRepos.rendering GitHubRepos.fetch_calls].
    pose proof (for_each_spec to_text items
                  (GitHubRepos.mkView [] (GitHubRepos.errors v)
                     (GitHubRepos.requested v ++ [GitHubRepos.URL]))) as Hspec.
    destruct (mapM (GitHubRepos.template to_text) items) as [htmls|].
    + rewrite Hspec. cbn [GitHubRepos.content GitHubRepos.errors GitHubRepos.requested app].
      rewrite app_nil_r. reflexivity.
    + cbn [GitHubRepos.errors GitHubRepos.requested] in Hspec.
      destruct Hspec as (Hf & He & Hr).
      destruct (GitHubRepos.for_each _ items _) as [[[]|] v1]; cbn [fst snd] in *;
        [discriminate|]. rewrite He, Hr. reflexivity.
  - rewrite (fetch_other to_text outcome v Hne).
    replace (GitHubRepos.rendering to_text outcome) with (@None (list JsText)); [reflexivity|].
    destruct outcome as [| |[|] status [[| | | |items|]|]]; try reflexivity.
    exfalso. exact (Hne status items eq_refl).
Qed.

(** In a browser without [fetch] the call is a ReferenceError inside the
    [try] block: the fallback is shown, and nothing was fetched. *)
Example repo_list_without_fetch :
  GitHubRepos.fetchGitHubRepos (λ _, None) true GitHubRepos.FetchMissing
    (GitHubRepos.mkView [GitHubRepos.Parsed (text "Fetching...")] [] [])
  = (Some tt,
     GitHubRepos.mkView [GitHubRepos.Parsed GitHubRepos.FALLBACK]
       ["Error fetching GitHub repos:"] []).
Proof. reflexivity. Qed.

Example repo_list_with_null_entry :
  let to_text := λ v, match v with
                      | Some (GitHubRepos.JString s) => Some s
                      | _ => Some (text "undefined")
                      end in
  let repo := GitHubRepos.JObject [(text "name", GitHubRepos.JString (text "Resume"))] in
  let v := GitHubRepos.mkView [GitHubRepos.Parsed (text "Fetching...")] [] [] in
  GitHubRepos.content
    (snd (GitHubRepos.fetchGitHubRepos to_text true
            (GitHubRepos.Response true 200
               (Some (GitHubRepos.JArray [repo; GitHubRepos.JNull]))) v))
  = [GitHubRepos.Parsed GitHubRepos.FALLBACK] /\
  length (GitHubRepos.content
            (snd (GitHubRepos.fetchGitHubRepos to_text true
                    (GitHubRepos.Response true 200
                       (Some (GitHubRepos.JArray [repo; repo]))) v))) = 2%nat.
Proof. split; vm_compute; reflexivity. Qed.
